(** * Live streaming layer of the SDLC dashboard (flask_app/app.py)

    A shallow embedding of the thread-aware console interceptor, the
    per-run text handler, the task callback, the pipeline worker and the
    SSE endpoint, together with the properties stated for them.

    Conventions.
    - A Python [str] is a list of Unicode code points ([list N]); [len] is
      [length], slicing is [firstn]/[skipn].
    - A Python [int] is a [Z].
    - [time.time()] returns a rational; the wall clock is an oracle
      ([readings]: the value of the n-th read) with a counter of the reads
      made so far ([ticks]).
    - Objects that are shared by reference (handlers, queues) live in
      heaps indexed by [nat]; the dictionaries of the program hold
      references into these heaps. *)

From Stdlib Require Import ZArith QArith List Lia String Ascii Bool.
From stdpp Require Import base gmap list strings.
Import ListNotations.

Local Open Scope Z_scope.

(* ================================================================== *)
(** ** Python strings *)

Abbreviation pystr := (list N).

(** ASCII literal as a Python string. *)
Definition py (s : string) : pystr :=
  map N_of_ascii (list_ascii_of_string s).

(** [str.isspace] for one code point (CPython's Py_UNICODE_ISSPACE);
    the same table serves [str.strip()] and the regex class [\s]. *)
Definition is_space (c : N) : bool :=
  ((9 <=? c) && (c <=? 13) || (28 <=? c) && (c <=? 32) ||
   (c =? 133) || (c =? 160) || (c =? 5760) ||
   (8192 <=? c) && (c <=? 8202) ||
   (c =? 8232) || (c =? 8233) || (c =? 8239) || (c =? 8287) ||
   (c =? 12288))%N.

Fixpoint lstrip (s : pystr) : pystr :=
  match s with
  | c :: r => if is_space c then lstrip r else s
  | [] => []
  end.

(** [s.strip()] *)
Definition strip (s : pystr) : pystr := rev (lstrip (rev (lstrip s))).

(** Truth value of a Python string or list: non-empty. *)
Definition truthy {A} (l : list A) : bool :=
  match l with [] => false | _ => true end.

(** [s[-n:]] for [n > 0]: the last [n] items, the whole of [s] when it is
    shorter. *)
Definition last_chars (n : nat) (s : pystr) : pystr :=
  skipn (length s - n) s.

(** [s[:n]] *)
Definition first_chars (n : nat) (s : pystr) : pystr := firstn n s.

(** [s.replace(old, new)] for one-character [old] and [new]. *)
Definition replace (old new : N) (s : pystr) : pystr :=
  map (fun c => if (c =? old)%N then new else c) s.

(** [sep.join(parts)] *)
Fixpoint join (sep : pystr) (parts : list pystr) : pystr :=
  match parts with
  | [] => []
  | [p] => p
  | p :: ps => p ++ sep ++ join sep ps
  end.

(* ------------------------------------------------------------------ *)
(** *** The regular expression [\x1b\[[0-9;]*m] *)

Definition ESC : N := 27.

(** The class [[0-9;]]. *)
Definition is_sgr_param (c : N) : bool :=
  ((48 <=? c) && (c <=? 57) || (c =? 59))%N.

Fixpoint span_params (s : pystr) : nat :=
  match s with
  | c :: r => if is_sgr_param c then S (span_params r) else O
  | [] => O
  end.

(** Length of the match of the expression anchored at the head of [s].
    The star is greedy and [m] is not in the class, so the only candidate
    is the maximal run of parameters. *)
Definition match_sgr (s : pystr) : option nat :=
  match s with
  | 27%N :: 91%N :: r =>
      let k := span_params r in
      match skipn k r with
      | 109%N :: _ => Some (3 + k)%nat
      | _ => None
      end
  | _ => None
  end.

(** [re.sub(pattern, "", s)]: scan left to right; at a position where the
    expression matches, drop the match and resume after it; otherwise copy
    the character.  [skip] counts characters of the current match still to
    be dropped. *)
Fixpoint sub_sgr (skip : nat) (s : pystr) : pystr :=
  match s with
  | [] => []
  | c :: r =>
      match skip with
      | S k => sub_sgr k r
      | O =>
          match match_sgr s with
          | Some n => sub_sgr (n - 1) r
          | None => c :: sub_sgr O r
          end
      end
  end.

(** The substitution table of [_clean], in source order. *)
Definition glyph_table : list (N * N) :=
  [ (9581, 43); (9584, 43); (9582, 43); (9583, 43);
    (9472, 45); (9474, 124) ]%N.

(** [PipelineHandler._clean] *)
Definition _clean (text : pystr) : pystr :=
  let text := sub_sgr O text in
  fold_left (fun t '(old, new) => replace old new t) glyph_table text.

(* ================================================================== *)
(** ** Events *)

Inductive EventKind :=
| pipeline_start | status | phase_start | agent_output | phase_complete
| pipeline_complete | error | done | heartbeat.

Global Instance EventKind_eq_dec : EqDecision EventKind.
Proof. solve_decision. Defined.

(** Entry of the [phases] list carried by the [pipeline_start] event. *)
Record PhaseSummary := mkSummary {
  sum_phase_id : pystr; sum_phase : pystr; sum_agent : pystr;
  sum_icon : pystr; sum_color : pystr }.

(** The dictionaries put on a run's queue, one constructor per value of
    their ["event"] key. *)
Inductive Event :=
| ev_pipeline_start (run_id timestamp requirement : pystr)
                    (phases : list PhaseSummary)
| ev_status (message : pystr)
| ev_phase_start (phase_index : Z)
                 (phase_id phase agent model icon color : pystr)
| ev_agent_output (phase_index : Z) (text : pystr)
| ev_phase_complete (phase_index : Z) (phase_id phase agent content : pystr)
                    (content_length : Z) (file : pystr)
| ev_pipeline_complete (run_id : pystr) (elapsed_seconds : Q)
                       (elapsed_display : pystr) (files_count : Z)
| ev_error (message : pystr)
| ev_done.

(** [event.get("event")] *)
Definition kind (e : Event) : EventKind :=
  match e with
  | ev_pipeline_start _ _ _ _ => pipeline_start
  | ev_status _ => status
  | ev_phase_start _ _ _ _ _ _ _ => phase_start
  | ev_agent_output _ _ => agent_output
  | ev_phase_complete _ _ _ _ _ _ _ => phase_complete
  | ev_pipeline_complete _ _ _ _ => pipeline_complete
  | ev_error _ => error
  | ev_done => done
  end.

Definition is_kind (k : EventKind) (e : Event) : bool :=
  bool_decide (kind e = k).

(* ================================================================== *)
(** ** The wall clock *)

Record Clock := mkClock { readings : nat -> Q; ticks : nat }.

(** [time.time()] *)
Definition time_time (c : Clock) : Q * Clock :=
  (readings c (ticks c), mkClock (readings c) (S (ticks c))).

Definition Qltb (x y : Q) : bool := negb (Qle_bool y x).

(* ================================================================== *)
(** ** PipelineHandler *)

Record PipelineHandler := mkHandler {
  event_queue : nat;              (* reference to the run's queue *)
  current_phase_index : Z;
  chunk_buffer : list pystr;
  last_push : Q }.

(** What a handler method sees and changes: the object itself, the clock,
    and the events it has put on [event_queue], oldest first. *)
Record HCtx := mkHCtx {
  self : PipelineHandler;
  clk : Clock;
  emitted : list Event }.

(** [PipelineHandler.__init__] *)
Definition new_handler (q : nat) (c : Clock) : PipelineHandler * Clock :=
  let '(now, c') := time_time c in
  (mkHandler q 0 [] now, c').

(** [PipelineHandler._flush] *)
Definition _flush (s : HCtx) : HCtx :=
  let h := self s in
  if negb (truthy (chunk_buffer h)) then s
  else
    let combined := join [] (chunk_buffer h) in
    let '(now, c') := time_time (clk s) in
    mkHCtx (mkHandler (event_queue h) (current_phase_index h) [] now)
           c'
           (emitted s ++
            [ev_agent_output (current_phase_index h)
                             (last_chars (Z.to_nat 4000) combined)]).

(** [PipelineHandler.process] *)
Definition process (text : pystr) (s : HCtx) : HCtx :=
  if negb (truthy text) then s
  else
    let clean := _clean text in
    if truthy (strip clean) then
      let h := self s in
      let buf := chunk_buffer h ++ [clean] in
      let '(now, c') := time_time (clk s) in
      let s' := mkHCtx (mkHandler (event_queue h) (current_phase_index h)
                                  buf (last_push h))
                       c' (emitted s) in
      if Qltb (1 # 4) (now - last_push h) || (4 <=? length buf)%nat
      then _flush s'
      else s'
    else s.

(** [PipelineHandler.set_phase] *)
Definition set_phase (index : Z) (s : HCtx) : HCtx :=
  let s' := _flush s in
  let h := self s' in
  mkHCtx (mkHandler (event_queue h) index (chunk_buffer h) (last_push h))
         (clk s') (emitted s').

(** [PipelineHandler.flush_remaining] *)
Definition flush_remaining (s : HCtx) : HCtx := _flush s.

(* ================================================================== *)
(** ** The world: heaps, interceptors, registry *)

Inductive StreamName := stdout | stderr.

Global Instance StreamName_eq_dec : EqDecision StreamName.
Proof. solve_decision. Defined.

(** The real console stream behind an interceptor: what was written to it,
    how often it was flushed, and whether its [write] or [flush] raises
    (a closed pipe, say). *)
Record Console := mkConsole {
  written : list pystr;
  flush_count : nat;
  write_raises : bool;
  flush_raises : bool }.

(** [stream.write(text)]; [None] when it raises. *)
Definition console_write (text : pystr) (c : Console) : option Console :=
  if write_raises c then None
  else Some (mkConsole (written c ++ [text]) (flush_count c)
                       (write_raises c) (flush_raises c)).

(** [stream.flush()]; [None] when it raises. *)
Definition console_flush (c : Console) : option Console :=
  if flush_raises c then None
  else Some (mkConsole (written c) (S (flush_count c))
                       (write_raises c) (flush_raises c)).

Record OutputInterceptor := mkInterceptor {
  _original : option Console;      (* [None]: no console attached *)
  _handlers : gmap Z nat }.        (* thread id -> handler reference *)

Inductive Lock :=
| router_lock (n : StreamName)     (* OutputInterceptor._lock *)
| handler_lock (h : nat)           (* PipelineHandler._lock *)
| runs_lock.

Global Instance Lock_eq_dec : EqDecision Lock.
Proof. solve_decision. Defined.

Inductive LockEvent := acquire (l : Lock) | release (l : Lock).

Record World := mkWorld {
  clock : Clock;
  queues : gmap nat (list Event);        (* heap of queue.Queue objects *)
  handlers : gmap nat PipelineHandler;   (* heap of PipelineHandler objects *)
  _stdout_interceptor : OutputInterceptor;
  _stderr_interceptor : OutputInterceptor;
  active_runs : gmap pystr nat;          (* run id -> queue reference *)
  lock_trace : list LockEvent }.         (* lock operations so far, in order *)

Definition set_clock (c : Clock) (w : World) : World :=
  mkWorld c (queues w) (handlers w) (_stdout_interceptor w)
          (_stderr_interceptor w) (active_runs w) (lock_trace w).

Definition set_queues (q : gmap nat (list Event)) (w : World) : World :=
  mkWorld (clock w) q (handlers w) (_stdout_interceptor w)
          (_stderr_interceptor w) (active_runs w) (lock_trace w).

Definition set_handlers (h : gmap nat PipelineHandler) (w : World) : World :=
  mkWorld (clock w) (queues w) h (_stdout_interceptor w)
          (_stderr_interceptor w) (active_runs w) (lock_trace w).

Definition interceptor (n : StreamName) (w : World) : OutputInterceptor :=
  match n with
  | stdout => _stdout_interceptor w
  | stderr => _stderr_interceptor w
  end.

Definition set_interceptor (n : StreamName) (i : OutputInterceptor)
    (w : World) : World :=
  match n with
  | stdout => mkWorld (clock w) (queues w) (handlers w) i
                      (_stderr_interceptor w) (active_runs w) (lock_trace w)
  | stderr => mkWorld (clock w) (queues w) (handlers w)
                      (_stdout_interceptor w) i (active_runs w) (lock_trace w)
  end.

Definition set_active_runs (r : gmap pystr nat) (w : World) : World :=
  mkWorld (clock w) (queues w) (handlers w) (_stdout_interceptor w)
          (_stderr_interceptor w) r (lock_trace w).

Definition log (l : list LockEvent) (w : World) : World :=
  mkWorld (clock w) (queues w) (handlers w) (_stdout_interceptor w)
          (_stderr_interceptor w) (active_runs w) (lock_trace w ++ l).

(** Pending content of a queue, oldest first; a queue is created empty. *)
Definition pending (q : nat) (w : World) : list Event :=
  default [] (queues w !! q).

(** [queue.put(e)] on an unbounded queue. *)
Definition queue_put (q : nat) (e : Event) (w : World) : World :=
  set_queues (<[q := pending q w ++ [e]]> (queues w)) w.

Definition queue_put_all (q : nat) (es : list Event) (w : World) : World :=
  fold_left (fun w e => queue_put q e w) es w.

(** Call of a handler method that takes the handler's own lock for its
    whole body ([with self._lock: ...]). *)
Definition locked_call (hid : nat) (m : HCtx -> HCtx) (w : World) : World :=
  match handlers w !! hid with
  | None => w
  | Some h =>
      let w := log [acquire (handler_lock hid)] w in
      let s := m (mkHCtx h (clock w) []) in
      let w := set_clock (clk s) w in
      let w := set_handlers (<[hid := self s]> (handlers w)) w in
      let w := queue_put_all (event_queue h) (emitted s) w in
      log [release (handler_lock hid)] w
  end.

(** [handler.process(text)]: empty text returns before the lock. *)
Definition handler_process (hid : nat) (text : pystr) (w : World) : World :=
  if negb (truthy text) then w else locked_call hid (process text) w.

(** [handler.set_phase(index)] *)
Definition handler_set_phase (hid : nat) (index : Z) (w : World) : World :=
  locked_call hid (set_phase index) w.

(** [handler.flush_remaining()] *)
Definition handler_flush_remaining (hid : nat) (w : World) : World :=
  locked_call hid flush_remaining w.

(* ================================================================== *)
(** ** OutputInterceptor *)

(** Step 1 of [write]: pass the text through to the real console; whatever
    [write] or [flush] raises is dropped by [except Exception: pass]. *)
Definition pass_through (text : pystr) (o : option Console) : option Console :=
  match o with
  | None => None
  | Some c =>
      match console_write text c with
      | None => Some c
      | Some c1 =>
          match console_flush c1 with
          | None => Some c1
          | Some c2 => Some c2
          end
      end
  end.

(** [OutputInterceptor.write], called by thread [tid]. *)
Definition write (n : StreamName) (tid : Z) (text : pystr) (w : World)
    : Z * World :=
  let i := interceptor n w in
  let w := set_interceptor n
             (mkInterceptor (pass_through text (_original i)) (_handlers i)) w in
  if negb (truthy text) then (0, w)
  else
    let w := log [acquire (router_lock n)] w in
    let handler := _handlers (interceptor n w) !! tid in
    let w := log [release (router_lock n)] w in
    let w := match handler with
             | Some hid => handler_process hid text w
             | None => w
             end in
    (Z.of_nat (length text), w).

(** [OutputInterceptor.register] *)
Definition register (n : StreamName) (thread_id : Z) (handler : nat)
    (w : World) : World :=
  let w := log [acquire (router_lock n)] w in
  let i := interceptor n w in
  let w := set_interceptor n
             (mkInterceptor (_original i)
                            (<[thread_id := handler]> (_handlers i))) w in
  log [release (router_lock n)] w.

(** [OutputInterceptor.unregister]: the final flush is inside the [with]
    block. *)
Definition unregister (n : StreamName) (thread_id : Z) (w : World) : World :=
  let w := log [acquire (router_lock n)] w in
  let i := interceptor n w in
  let handler := _handlers i !! thread_id in
  let w := set_interceptor n
             (mkInterceptor (_original i)
                            (delete thread_id (_handlers i))) w in
  let w := match handler with
           | Some hid => handler_flush_remaining hid w
           | None => w
           end in
  log [release (router_lock n)] w.

(* ================================================================== *)
(** ** crewai_sdlc.crew.extract_code *)

(** Number of characters before the first [```] in [s]. *)
Fixpoint find_fence (s : pystr) : option nat :=
  match s with
  | [] => None
  | c :: r =>
      match s with
      | 96%N :: 96%N :: 96%N :: _ => Some O
      | _ => option_map S (find_fence r)
      end
  end.

(** Characters taken by [\s*\n] at the head of [s]: the star is greedy and
    backtracks to the last line feed of the leading run of white space.
    [pos] counts the characters passed, [best] is the candidate so far. *)
Fixpoint after_last_newline (pos : nat) (best : option nat) (s : pystr)
    : option nat :=
  match s with
  | c :: r =>
      if is_space c
      then after_last_newline (S pos)
             (if (c =? 10)%N then Some (S pos) else best) r
      else best
  | [] => best
  end.

(** Match of [\s*\n(.*?)```] (DOTALL) at the head of [s]: the captured
    group and the number of characters consumed. *)
Definition match_body (s : pystr) : option (pystr * nat) :=
  match after_last_newline O None s with
  | None => None
  | Some k =>
      let rest := skipn k s in
      match find_fence rest with
      | None => None
      | Some g => Some (firstn g rest, (k + g + 3)%nat)
      end
  end.

Fixpoint strip_prefix (p s : pystr) : option pystr :=
  match p, s with
  | [], _ => Some s
  | a :: p', b :: s' => if (a =? b)%N then strip_prefix p' s' else None
  | _ :: _, [] => None
  end.

(** Match of [```(?:python)?\s*\n(.*?)```] at the head of [s]: the
    optional word is tried first, then skipped. *)
Definition match_block (s : pystr) : option (pystr * nat) :=
  match s with
  | 96%N :: 96%N :: 96%N :: r =>
      let skipped :=
        match match_body r with
        | Some (g, n) => Some (g, (3 + n)%nat)
        | None => None
        end in
      match strip_prefix (py "python") r with
      | Some r' =>
          match match_body r' with
          | Some (g, n) => Some (g, (3 + 6 + n)%nat)
          | None => skipped
          end
      | None => skipped
      end
  | _ => None
  end.

(** [re.findall] for that expression: the captured groups of the
    non-overlapping matches, left to right. *)
Fixpoint findall_blocks (skip : nat) (s : pystr) : list pystr :=
  match s with
  | [] => []
  | c :: r =>
      match skip with
      | S k => findall_blocks k r
      | O =>
          match match_block s with
          | Some (g, n) => g :: findall_blocks (n - 1) r
          | None => findall_blocks O r
          end
      end
  end.

(** The values a task output's [raw] takes here: a string or [None]. *)
Inductive PyVal := PyStr (s : pystr) | PyNone.

(** [str(v)] *)
Definition py_str (v : PyVal) : pystr :=
  match v with
  | PyStr s => s
  | PyNone => py "None"
  end.

Definition extract_code (response : PyVal) : pystr :=
  let text := py_str response in
  let blocks := findall_blocks O text in
  if truthy blocks then join [10; 10]%N (map strip blocks) else text.

(* ================================================================== *)
(** ** Phases *)

(** A phase dictionary.  [phase_id] and [model] are absent from the
    entries of [PHASE_DEFS] and added by the worker. *)
Record Phase := mkPhase {
  key : pystr; file : pystr; extract : bool; phase : pystr; agent : pystr;
  icon : pystr; color : pystr;
  phase_id : option pystr; model : option pystr }.

Definition PHASE_DEFS : list Phase :=
  [ mkPhase (py "specification") (py "01_specification.md") false
            (py "requirement_analysis") (py "Requirement Analyst")
            (py "fa-clipboard-list") (py "#6366f1") None None;
    mkPhase (py "code") (py "02_code.py") true
            (py "code_generation") (py "Senior Developer")
            (py "fa-code") (py "#8b5cf6") None None;
    mkPhase (py "review") (py "03_review.md") false
            (py "code_review") (py "Code Reviewer")
            (py "fa-magnifying-glass-chart") (py "#a855f7") None None;
    mkPhase (py "tests") (py "04_tests.py") true
            (py "test_generation") (py "QA Engineer")
            (py "fa-flask-vial") (py "#d946ef") None None;
    mkPhase (py "documentation") (py "05_documentation.md") false
            (py "documentation") (py "Tech Writer")
            (py "fa-book") (py "#ec4899") None None;
    mkPhase (py "devops_config") (py "06_devops.md") false
            (py "devops_configuration") (py "DevOps Agent")
            (py "fa-gears") (py "#f43f5e") None None;
    mkPhase (py "ui_code") (py "07_ui_app.py") true
            (py "ui_design") (py "UI Designer")
            (py "fa-palette") (py "#f97316") None None ].

(** [d.get(k)] on a dictionary given as an association list. *)
Fixpoint dict_get (d : list (pystr * pystr)) (k : pystr) : option pystr :=
  match d with
  | [] => None
  | (k', v) :: d' => if bool_decide (k' = k) then Some v else dict_get d' k
  end.

(** [AGENT_LLMS[k].model] (crewai_sdlc/config.py) *)
Definition AGENT_LLMS : list (pystr * pystr) :=
  [ (py "orchestrator", py "ollama/gpt-oss:20b");
    (py "requirement_analyst", py "ollama/gpt-oss:20b");
    (py "senior_developer", py "ollama/qwen3-coder:30b");
    (py "code_reviewer", py "ollama/devstral-small-2:24b");
    (py "tech_writer", py "ollama/gpt-oss:20b");
    (py "qa_engineer", py "ollama/qwen3-coder:30b");
    (py "devops_agent", py "ollama/gpt-oss:20b");
    (py "ui_designer", py "ollama/gpt-oss:20b") ].

(** The role-to-key dictionary of the worker. *)
Definition llm_keys : list (pystr * pystr) :=
  [ (py "Requirement Analyst", py "requirement_analyst");
    (py "Senior Developer", py "senior_developer");
    (py "Code Reviewer", py "code_reviewer");
    (py "QA Engineer", py "qa_engineer");
    (py "Tech Writer", py "tech_writer");
    (py "DevOps Agent", py "devops_agent");
    (py "UI Designer", py "ui_designer") ].

(** [l[i]] with Python's negative indices; [None] is IndexError. *)
Definition py_index {A} (l : list A) (i : Z) : option A :=
  let n := Z.of_nat (length l) in
  if (0 <=? i) && (i <? n) then nth_error l (Z.to_nat i)
  else if (- n <=? i) && (i <? 0) then nth_error l (Z.to_nat (n + i))
  else None.

(* ================================================================== *)
(** ** Exceptions *)

Inductive Outcome (A : Type) :=
| Returned (a : A)
| Raised (exc : pystr).
Arguments Returned {A} a.
Arguments Raised {A} exc.

(** Computations over a state [S] that return or raise; the state reached
    when the exception was raised is kept. *)
Definition M (S A : Type) : Type := S -> Outcome A * S.

Definition ret {S A} (a : A) : M S A := fun s => (Returned a, s).

Definition bind {S A B} (m : M S A) (k : A -> M S B) : M S B :=
  fun s =>
    match m s with
    | (Returned a, s') => k a s'
    | (Raised e, s') => (Raised e, s')
    end.

Definition raise {S A} (exc : pystr) : M S A := fun s => (Raised exc, s).

(** A step that changes the state and cannot raise. *)
Definition modify {S} (f : S -> S) : M S unit := fun s => (Returned tt, f s).

Definition gets {S A} (f : S -> A) : M S A := fun s => (Returned (f s), s).

(** [None] is the exception [exc]. *)
Definition or_raise {S A} (exc : pystr) (o : option A) : M S A :=
  match o with
  | Some a => ret a
  | None => raise exc
  end.

Notation "x <- m ;; k" := (bind m (fun x => k))
  (at level 100, m at next level, right associativity).
Notation "m ;;; k" := (bind m (fun _ => k))
  (at level 100, right associativity).

(* ================================================================== *)
(** ** make_task_callback *)

Inductive TaskOutput :=
| with_raw (raw : PyVal)          (* has attribute [raw] *)
| without_raw (repr : pystr).     (* no such attribute; [repr] is [str(obj)] *)

(** The closure returned by [make_task_callback]: its three arguments and
    the cell [task_counter[0]]. *)
Record TaskCallback := mkCallback {
  cb_event_queue : nat;
  cb_phases : list Phase;
  cb_handler : nat;
  task_counter : Z }.

Definition set_counter (n : Z) (cb : TaskCallback) : TaskCallback :=
  mkCallback (cb_event_queue cb) (cb_phases cb) (cb_handler cb) n.

Definition len {A} (l : list A) : Z := Z.of_nat (length l).

(** [content[:8000]] and [len(content)]; both are a TypeError on [None]. *)
Definition slice_8000 (content : PyVal) : option pystr :=
  match content with
  | PyStr s => Some (first_chars (Z.to_nat 8000) s)
  | PyNone => None
  end.

Definition py_len (content : PyVal) : option Z :=
  match content with
  | PyStr s => Some (len s)
  | PyNone => None
  end.

Definition in_world {A} (f : World -> World) : M (A * World) unit :=
  modify (fun s => (fst s, f (snd s))).

(** [task_output.raw if hasattr(task_output, "raw") else str(task_output)] *)
Definition raw_of (task_output : TaskOutput) : PyVal :=
  match task_output with
  | with_raw r => r
  | without_raw s => PyStr s
  end.

(** [extract_code(raw) if p.get("extract") else raw] *)
Definition content_of (p : Phase) (task_output : TaskOutput) : PyVal :=
  if extract p then PyStr (extract_code (raw_of task_output))
  else raw_of task_output.

(** The body of the [try] block of [_on_task_done]. *)
Definition _on_task_done_try (task_output : TaskOutput)
    : M (TaskCallback * World) unit :=
  cb <- gets fst ;;
  let event_queue := cb_event_queue cb in
  let phases := cb_phases cb in
  let idx := task_counter cb in
  (if idx <? len phases then
     p <- or_raise (py "IndexError") (py_index phases idx) ;;
     let content := content_of p task_output in
     c8000 <- or_raise (py "TypeError") (slice_8000 content) ;;
     n <- or_raise (py "TypeError") (py_len content) ;;
     in_world (queue_put event_queue
                 (ev_phase_complete idx (default [] (phase_id p)) (phase p)
                                    (agent p) c8000 n (file p)))
   else ret tt) ;;;
  modify (fun s => (set_counter (task_counter (fst s) + 1) (fst s), snd s)) ;;;
  next_idx <- gets (fun s => task_counter (fst s)) ;;
  in_world (handler_set_phase (cb_handler cb) next_idx) ;;;
  if next_idx <? len phases then
    np <- or_raise (py "IndexError") (py_index phases next_idx) ;;
    in_world (queue_put event_queue
                (ev_phase_start next_idx (default [] (phase_id np)) (phase np)
                                (agent np) (default [] (model np))
                                (icon np) (color np)))
  else ret tt.

(** [_on_task_done]: [except Exception: pass] around the body. *)
Definition _on_task_done (task_output : TaskOutput)
    (s : TaskCallback * World) : TaskCallback * World :=
  snd (_on_task_done_try task_output s).

(** [make_task_callback] *)
Definition make_task_callback (event_queue : nat) (phases : list Phase)
    (handler : nat) : TaskCallback :=
  mkCallback event_queue phases handler 0.

(* ================================================================== *)
(** ** run_pipeline_streaming *)

(** What the crew does while [crew.kickoff()] runs, as far as this module
    can see it: the worker thread prints, or a task finishes and the
    callback is invoked. *)
Inductive CrewAction :=
| crew_write (n : StreamName) (text : pystr)
| crew_task_done (task_output : TaskOutput).

(** The collaborators of one run: the values they return and the points
    where they raise ([Some msg]: raises, with [str(exc) = msg]).  The file
    system is not modelled; persistence is seen through the lines that
    [save_artifact] prints and through its outcome.  The crew is taken to
    print only while [crew.kickoff()] runs. *)
Record Env := mkEnv {
  env_timestamp : pystr;            (* datetime.now(timezone.utc).isoformat() *)
  env_uuid4 : nat -> pystr;         (* str(uuid.uuid4()) for the i-th phase *)
  env_makedirs : option pystr;      (* os.makedirs(output_dir) *)
  env_build : option pystr;         (* build_sdlc_crew(...) *)
  env_kickoff : list CrewAction;    (* what happens inside crew.kickoff() *)
  env_kickoff_raises : option pystr;
  env_saved_line : nat -> pystr;    (* the line save_artifact prints *)
  env_persist_raises : option (nat * pystr);
                                    (* the i-th save_artifact raises; an index
                                       past the last phase: the manifest, the
                                       log or os.listdir raises *)
  env_round1 : Q -> Q;              (* round(x, 1) *)
  env_minutes : Q -> pystr;         (* f"{x / 60:.1f} min" *)
  env_files_count : Z;              (* len(os.listdir(output_dir)) *)
  env_traceback : list pystr }.     (* the pieces traceback.print_exc writes *)

Definition raise_if {S} (o : option pystr) : M S unit :=
  match o with
  | Some msg => raise msg
  | None => ret tt
  end.

(** One pass of the loop that copies [PHASE_DEFS] and adds the identifier
    and the model. *)
Definition assign_phase (env : Env) (i : nat) (pdef : Phase) : option Phase :=
  let llm_key := default (py "requirement_analyst")
                         (dict_get llm_keys (agent pdef)) in
  match dict_get AGENT_LLMS llm_key with
  | None => None                    (* KeyError *)
  | Some m =>
      Some (mkPhase (key pdef) (file pdef) (extract pdef) (phase pdef)
                    (agent pdef) (icon pdef) (color pdef)
                    (Some (env_uuid4 env i)) (Some m))
  end.

Fixpoint assign_phases (env : Env) (i : nat) (defs : list Phase)
    : option (list Phase) :=
  match defs with
  | [] => Some []
  | pdef :: rest =>
      match assign_phase env i pdef with
      | None => None
      | Some p =>
          match assign_phases env (S i) rest with
          | None => None
          | Some ps => Some (p :: ps)
          end
      end
  end.

(** [p[k]] for a key the worker has set; [None] is KeyError. *)
Definition summary (p : Phase) : option PhaseSummary :=
  match phase_id p with
  | Some id => Some (mkSummary id (phase p) (agent p) (icon p) (color p))
  | None => None
  end.

Fixpoint summaries (ps : list Phase) : option (list PhaseSummary) :=
  match ps with
  | [] => Some []
  | p :: rest =>
      match summary p, summaries rest with
      | Some x, Some xs => Some (x :: xs)
      | _, _ => None
      end
  end.

(** The events of [crew.kickoff()], in order. *)
Definition crew_step (thread_id : Z) (a : CrewAction)
    (s : TaskCallback * World) : TaskCallback * World :=
  match a with
  | crew_write n text => (fst s, snd (write n thread_id text (snd s)))
  | crew_task_done out => _on_task_done out s
  end.

Definition kickoff (thread_id : Z) (acts : list CrewAction)
    (s : TaskCallback * World) : TaskCallback * World :=
  fold_left (fun s a => crew_step thread_id a s) acts s.

(** The loop over [enumerate(phases)] that saves the artifacts;
    [save_artifact] prints one line through [sys.stdout]. *)
Fixpoint save_artifacts (env : Env) (thread_id : Z) (i : nat)
    (phases : list Phase) : M World unit :=
  match phases with
  | [] => ret tt
  | p :: rest =>
      raise_if (match env_persist_raises env with
                | Some (j, msg) => if (j =? i)%nat then Some msg else None
                | None => None
                end) ;;;
      modify (fun w => snd (write stdout thread_id (env_saved_line env i) w)) ;;;
      modify (fun w => snd (write stdout thread_id [10%N] w)) ;;;
      save_artifacts env thread_id (S i) rest
  end.

(** The body of the [try] block. *)
Definition pipeline_body (env : Env) (run_id user_requirement : pystr)
    (event_queue : nat) (thread_id : Z) (handler : nat) : M World unit :=
  let timestamp := env_timestamp env in
  pipeline_start <- (fun w => let '(t, c) := time_time (clock w) in
                              (Returned t, set_clock c w)) ;;
  raise_if (env_makedirs env) ;;;
  phases <- or_raise (py "KeyError") (assign_phases env O PHASE_DEFS) ;;
  modify (register stdout thread_id handler) ;;;
  modify (register stderr thread_id handler) ;;;
  sums <- or_raise (py "KeyError") (summaries phases) ;;
  modify (queue_put event_queue
            (ev_pipeline_start run_id timestamp user_requirement sums)) ;;;
  modify (queue_put event_queue
            (ev_status (py "Building CrewAI agents and tasks..."))) ;;;
  let on_task_done := make_task_callback event_queue phases handler in
  raise_if (env_build env) ;;;
  modify (queue_put event_queue
            (ev_status (py "Crew assembled " ++ [8212%N] ++
                        py " starting pipeline..."))) ;;;
  p0 <- or_raise (py "IndexError") (py_index phases 0) ;;
  p0_id <- or_raise (py "KeyError") (phase_id p0) ;;
  p0_model <- or_raise (py "KeyError") (model p0) ;;
  modify (queue_put event_queue
            (ev_phase_start 0 p0_id (phase p0) (agent p0) p0_model
                            (icon p0) (color p0))) ;;;
  modify (fun w => snd (kickoff thread_id (env_kickoff env)
                                (on_task_done, w))) ;;;
  raise_if (env_kickoff_raises env) ;;;
  modify (unregister stdout thread_id) ;;;
  modify (unregister stderr thread_id) ;;;
  save_artifacts env thread_id O phases ;;;
  now <- (fun w => let '(t, c) := time_time (clock w) in
                   (Returned t, set_clock c w)) ;;
  let elapsed := (now - pipeline_start)%Q in
  raise_if (match env_persist_raises env with
            | Some (_, msg) => Some msg
            | None => None
            end) ;;;
  modify (queue_put event_queue
            (ev_pipeline_complete run_id (env_round1 env elapsed)
                                  (env_minutes env elapsed)
                                  (env_files_count env))).

(** [traceback.print_exc(file=_original_stderr)]: the pieces go to the
    real stderr and bypass the interceptor; with no real stderr
    ([file=None]) they go to [sys.stderr], the interceptor.  A failing
    write is not caught here. *)
Fixpoint print_exc (thread_id : Z) (pieces : list pystr) : M World unit :=
  match pieces with
  | [] => ret tt
  | t :: rest =>
      (fun w =>
         let i := _stderr_interceptor w in
         match _original i with
         | Some c =>
             match console_write t c with
             | Some c' =>
                 (Returned tt,
                  set_interceptor stderr
                    (mkInterceptor (Some c') (_handlers i)) w)
             | None => (Raised (py "OSError"), w)
             end
         | None => (Returned tt, snd (write stderr thread_id t w))
         end) ;;;
      print_exc thread_id rest
  end.

(** [with runs_lock: active_runs.pop(run_id, None)] *)
Definition runs_pop (run_id : pystr) (w : World) : World :=
  let w := log [acquire runs_lock] w in
  let w := set_active_runs (delete run_id (active_runs w)) w in
  log [release runs_lock] w.

(** The statements of the [finally] block, in order. *)
Definition finally_steps (run_id : pystr) (event_queue : nat) (thread_id : Z)
    : list (World -> World) :=
  [ unregister stdout thread_id;
    unregister stderr thread_id;
    queue_put event_queue ev_done;
    runs_pop run_id ].

Definition run_steps (steps : list (World -> World)) (w : World) : World :=
  fold_left (fun w f => f w) steps w.

(** The [except Exception as exc] block. *)
Definition except_block (env : Env) (event_queue : nat) (thread_id : Z)
    (exc : pystr) : M World unit :=
  print_exc thread_id (env_traceback env) ;;;
  modify (queue_put event_queue (ev_error exc)).

(** [run_pipeline_streaming], executed by thread [thread_id]; the result
    is [Raised] when the exception handler itself raised. *)
Definition run_pipeline_streaming (env : Env) (run_id user_requirement : pystr)
    (event_queue : nat) (thread_id : Z) (w : World) : Outcome unit * World :=
  let handler := fresh (dom (handlers w)) in
  let '(h, c) := new_handler event_queue (clock w) in
  let w := set_handlers (<[handler := h]> (handlers w)) (set_clock c w) in
  let '(r, w) :=
    match pipeline_body env run_id user_requirement event_queue
                        thread_id handler w with
    | (Returned _, w) => (Returned tt, w)
    | (Raised exc, w) => except_block env event_queue thread_id exc w
    end in
  (r, run_steps (finally_steps run_id event_queue thread_id) w).

(* ================================================================== *)
(** ** The streaming endpoint *)

(** One message of the event stream. *)
Inductive Frame :=
| data_frame (e : Event)     (* f"data: {json.dumps(event)}\n\n" *)
| heartbeat_frame            (* 'data: {"event":"heartbeat"}\n\n' *)
| not_found_frame.           (* 'data: {"event":"error","message":
                                "Run not found or completed"}\n\n' *)

Definition frame_kind (f : Frame) : EventKind :=
  match f with
  | data_frame e => kind e
  | heartbeat_frame => heartbeat
  | not_found_frame => error
  end.

Inductive Response :=
| response_body (frames : list Frame)   (* a complete body *)
| response_stream (eq : nat).           (* the generator over queue [eq] *)

(** [stream(run_id)] up to the construction of the response. *)
Definition stream (run_id : pystr) (w : World) : Response * World :=
  let w := log [acquire runs_lock] w in
  let eq := active_runs w !! run_id in
  let w := log [release runs_lock] w in
  match eq with
  | None => (response_body [not_found_frame], w)
  | Some q => (response_stream q, w)
  end.

(** [eq.get(timeout=120)]: the oldest pending event; [None] is
    [queue.Empty], raised when the queue stayed empty for 120 seconds. *)
Definition queue_get (q : nat) (w : World) : option Event * World :=
  match pending q w with
  | e :: rest => (Some e, set_queues (<[q := rest]> (queues w)) w)
  | [] => (None, w)
  end.

(** One pass of the loop of [generate]: the frame yielded and whether the
    loop goes on. *)
Definition generate_step (q : nat) (w : World) : Frame * bool * World :=
  match queue_get q w with
  | (Some e, w') => (data_frame e, negb (is_kind done e), w')
  | (None, w') => (heartbeat_frame, true, w')
  end.

(** The generator next to its producers: a producer puts an event on the
    queue, or the generator makes one pass of its loop. *)
Inductive Turn :=
| producer_put (e : Event)
| consumer_pass.

Record Generator := mkGenerator {
  gen_running : bool;
  gen_frames : list Frame }.      (* the frames yielded, oldest first *)

Definition generate_turn (q : nat) (t : Turn) (s : Generator * World)
    : Generator * World :=
  let '(g, w) := s in
  match t with
  | producer_put e => (g, queue_put q e w)
  | consumer_pass =>
      if gen_running g then
        let '(f, go_on, w') := generate_step q w in
        (mkGenerator go_on (gen_frames g ++ [f]), w')
      else (g, w)
  end.

Definition generate (q : nat) (sched : list Turn) (w : World)
    : Generator * World :=
  fold_left (fun s t => generate_turn q t s) sched (mkGenerator true [], w).

(* ------------------------------------------------------------------ *)
(** *** The wait of [eq.get(timeout=120)] *)

(** [timeout=120], in seconds. *)
Definition get_timeout : Q := 120.

(** A put that a producer makes at time [put_at]. *)
Record TimedPut := mkTimedPut { put_at : Q; put_event : Event }.

(** One pass of the loop by a generator that calls [eq.get(timeout=120)]
    at time [now], next to producers whose coming puts are [arrivals], in
    the order of their times.  The call returns at once when an event is
    pending.  On an empty queue it blocks: a put made by the end of the
    timeout wakes it and it returns with that event; otherwise it raises
    [queue.Empty] when the timeout has elapsed.  The result is the time
    the pass ends at, the puts still to come and the generator. *)
Definition timed_pass (q : nat) (now : Q) (arrivals : list TimedPut)
    (s : Generator * World) : Q * list TimedPut * (Generator * World) :=
  match pending q (snd s), arrivals with
  | _ :: _, _ => (now, arrivals, generate_turn q consumer_pass s)
  | [], a :: rest =>
      if Qle_bool (put_at a) (now + get_timeout)
      then (if Qle_bool (put_at a) now then now else put_at a, rest,
            generate_turn q consumer_pass
              (generate_turn q (producer_put (put_event a)) s))
      else ((now + get_timeout)%Q, arrivals,
            generate_turn q consumer_pass s)
  | [], [] => ((now + get_timeout)%Q, [], generate_turn q consumer_pass s)
  end.

(** The passes of the loop from time [now]; [delays] gives, for each
    pass, the time that goes by before the loop calls [eq.get] (the
    client reads the frame yielded).  After the [break] the loop makes no
    pass. *)
Fixpoint generate_timed (delays : list Q) (q : nat) (now : Q)
    (arrivals : list TimedPut) (s : Generator * World)
    : Q * list TimedPut * (Generator * World) :=
  match delays with
  | [] => (now, arrivals, s)
  | d :: delays' =>
      if gen_running (fst s)
      then let '(now', arrivals', s') :=
             timed_pass q (now + d)%Q arrivals s in
           generate_timed delays' q now' arrivals' s'
      else (now, arrivals, s)
  end.

(* ------------------------------------------------------------------ *)
(** *** The end of a run seen from both threads *)

(** The worker is in its [finally] block with [todo] left to execute; the
    stream thread is in [generate]. *)
Record Ending := mkEnding {
  end_todo : list (World -> World);
  end_gen : Generator;
  end_world : World }.

Inductive Thread := worker_thread | stream_thread.

Definition ending_turn (q : nat) (t : Thread) (s : Ending) : Ending :=
  match t with
  | worker_thread =>
      match end_todo s with
      | f :: rest => mkEnding rest (end_gen s) (f (end_world s))
      | [] => s
      end
  | stream_thread =>
      let '(g, w) := generate_turn q consumer_pass (end_gen s, end_world s) in
      mkEnding (end_todo s) g w
  end.

Definition ending (q : nat) (sched : list Thread) (s : Ending) : Ending :=
  fold_left (fun s t => ending_turn q t s) sched s.

(* ================================================================== *)
(** ** Vocabulary of the statements and concrete runs *)

(** The characters the table replaces. *)
Definition is_box_glyph (c : N) : bool :=
  existsb (fun '(old, _) => (c =? old)%N) glyph_table.

(** What the six replacements do to one character. *)
Definition subst_glyph (c : N) : N :=
  fold_left (fun c '(old, new) => if (c =? old)%N then new else c)
            glyph_table c.

(** The event a flush puts on the queue for a buffer [buf]. *)
Definition flush_event (h : PipelineHandler) (buf : list pystr) : Event :=
  ev_agent_output (current_phase_index h)
                  (last_chars (Z.to_nat 4000) (concat buf)).

(** [process] as the specification words it: the flush test follows the
    append and does not depend on it. *)
Definition process_as_specified (text : pystr) (s : HCtx) : HCtx :=
  let clean := _clean text in
  let h := self s in
  let buf := if truthy (strip clean) then chunk_buffer h ++ [clean]
             else chunk_buffer h in
  let '(now, c') := time_time (clk s) in
  let s' := mkHCtx (mkHandler (event_queue h) (current_phase_index h)
                              buf (last_push h))
                   c' (emitted s) in
  if Qltb (1 # 4) (now - last_push h) || (4 <=? length buf)%nat
  then _flush s'
  else s'.

(** A run of [process] calls, in order. *)
Definition process_all (texts : list pystr) (s : HCtx) : HCtx :=
  fold_left (fun s t => process t s) texts s.

(** The cleaned fragments that the handler accepts: those that are not
    blank. *)
Definition accepted (texts : list pystr) : list pystr :=
  List.filter (fun c => truthy (strip c)) (map _clean texts).

(** A clock that reads 0 s, then 0.1 s, then 10 s at every later read. *)
Definition slow_clock : Clock :=
  mkClock (fun n => match n with
                    | O => 0
                    | S O => 1 # 10
                    | _ => 10
                    end)%Q O.

(** A handler created on queue 0 at the first reading of that clock. *)
Definition fresh_ctx : HCtx :=
  let '(h, c) := new_handler O slow_clock in mkHCtx h c [].

(** The same handler after the write of "a" 0.1 s later: one fragment is
    pending and nothing was flushed. *)
Definition one_pending : HCtx := process (py "a") fresh_ctx.

(** The context in which a method of handler [h] runs in world [w], and
    the one it leaves. *)
Definition method_result (m : HCtx -> HCtx) (h : PipelineHandler) (w : World)
    : HCtx :=
  m (mkHCtx h (clock w) []).

(** The text sent to the console by [write]. *)
Definition forwarded (n : StreamName) (text : pystr) (w : World) : World :=
  let i := interceptor n w in
  set_interceptor n
    (mkInterceptor (pass_through text (_original i)) (_handlers i)) w.

Definition is_router_lock (l : Lock) : bool :=
  match l with router_lock _ => true | _ => false end.

Fixpoint drop_lock (l : Lock) (held : list Lock) : list Lock :=
  match held with
  | [] => []
  | l' :: r => if bool_decide (l' = l) then r else l' :: drop_lock l r
  end.

(** Whether, along a trace, some handler's lock is taken while a router
    lock is held, that is, whether a handler method ([process],
    [flush_remaining]) runs inside the router's critical section.  [held]
    are the locks held at the start. *)
Fixpoint downstream_inside_router (held : list Lock) (t : list LockEvent)
    : bool :=
  match t with
  | [] => false
  | acquire l :: r =>
      match l with
      | handler_lock _ =>
          existsb is_router_lock held
          || downstream_inside_router (l :: held) r
      | _ => downstream_inside_router (l :: held) r
      end
  | release l :: r => downstream_inside_router (drop_lock l held) r
  end.

(** The lock operations an operation adds to the trace. *)
Definition new_trace (w w' : World) : list LockEvent :=
  skipn (length (lock_trace w)) (lock_trace w').

Definition quiet_console : Console := mkConsole [] O false false.

(** A process with nothing registered and no run. *)
Definition idle_world (c : Clock) : World :=
  mkWorld c ∅ ∅ (mkInterceptor (Some quiet_console) ∅)
          (mkInterceptor (Some quiet_console) ∅) ∅ [].

(** Thread 7 has registered handler 0, which holds one fragment. *)
Definition one_registered : World :=
  register stdout 7 O
    (set_handlers {[ O := self one_pending ]} (idle_world (clk one_pending))).

(** The events carried by the data frames of a response. *)
Definition delivered (fs : list Frame) : list Event :=
  flat_map (fun f => match f with data_frame e => [e] | _ => [] end) fs.

(** The events the producers put during a schedule. *)
Definition puts (sched : list Turn) : list Event :=
  flat_map (fun t => match t with producer_put e => [e] | _ => [] end) sched.

(** The generator is looping and has delivered no [done], or it has
    stopped and its last frame is the only [done] it delivered. *)
Definition stops_at_done (g : Generator) : Prop :=
  (gen_running g = true /\
   Forall (fun e => kind e <> done) (delivered (gen_frames g))) \/
  (gen_running g = false /\
   exists pre e, gen_frames g = pre ++ [data_frame e] /\ kind e = done /\
                 Forall (fun e => kind e <> done) (delivered pre)).

Definition generate_from (q : nat) (sched : list Turn) (s : Generator * World)
    : Generator * World :=
  fold_left (fun s t => generate_turn q t s) sched s.

(** The loop as the specification words it, over the events waiting in
    the queue: a pass yields the event received, oldest first, and the
    loop stops when that event is [done]; a pass whose wait times out
    with no event yields a heartbeat and the loop continues; after it
    has stopped the loop yields nothing. *)
Record StreamState := mkStreamState {
  looping : bool;
  yielded : list Frame;
  waiting : list Event }.

Definition turn_as_specified (t : Turn) (s : StreamState) : StreamState :=
  match t with
  | producer_put e => mkStreamState (looping s) (yielded s) (waiting s ++ [e])
  | consumer_pass =>
      if looping s then
        match waiting s with
        | e :: rest =>
            mkStreamState (negb (bool_decide (kind e = done)))
                          (yielded s ++ [data_frame e]) rest
        | [] => mkStreamState true (yielded s ++ [heartbeat_frame]) []
        end
      else s
  end.

Definition run_as_specified (sched : list Turn) (s : StreamState)
    : StreamState :=
  fold_left (fun s t => turn_as_specified t s) sched s.

Definition stream_as_specified (waiting0 : list Event) (sched : list Turn)
    : StreamState :=
  run_as_specified sched (mkStreamState true [] waiting0).

Definition phase_complete_event (idx : Z) (p : Phase) (c : pystr) : Event :=
  ev_phase_complete idx (default [] (phase_id p)) (phase p) (agent p)
                    (first_chars (Z.to_nat 8000) c) (len c) (file p).

Definition phase_start_event (idx : Z) (p : Phase) : Event :=
  ev_phase_start idx (default [] (phase_id p)) (phase p) (agent p)
                 (default [] (model p)) (icon p) (color p).

(** The world a callback leaves when nothing raises. *)
Definition after_task_done (cb : TaskCallback) (complete : list Event)
    (w : World) : World :=
  let idx := task_counter cb in
  let w1 := queue_put_all (cb_event_queue cb) complete w in
  let w2 := handler_set_phase (cb_handler cb) (idx + 1) w1 in
  if idx + 1 <? len (cb_phases cb) then
    match py_index (cb_phases cb) (idx + 1) with
    | Some np => queue_put (cb_event_queue cb)
                           (phase_start_event (idx + 1) np) w2
    | None => w2
    end
  else w2.

(** The first stage of a run completes: the callback of a run over
    [PHASE_DEFS] on queue 0, with handler 0 holding one fragment. *)
Definition first_callback : TaskCallback := make_task_callback O PHASE_DEFS O.

Definition first_output : TaskOutput := with_raw (PyStr (py "spec")).

Definition is_task_done (a : CrewAction) : bool :=
  match a with crew_task_done _ => true | _ => false end.

(** Number of stages completed during the actions. *)
Definition stages_done (acts : list CrewAction) : Z :=
  len (List.filter is_task_done acts).

(** The task outputs are strings, so no callback raises. *)
Definition string_output (a : CrewAction) : Prop :=
  match a with
  | crew_task_done out => raw_of out <> PyNone
  | crew_write _ _ => True
  end.

(** The seven stages of a run over [PHASE_DEFS], the worker printing one
    line after the third. *)
Definition seven_stages : list CrewAction :=
  [ crew_task_done first_output; crew_task_done first_output;
    crew_task_done first_output; crew_write stdout (py "line");
    crew_task_done first_output; crew_task_done first_output;
    crew_task_done first_output; crew_task_done first_output ].

(** The phases of a run: [PHASE_DEFS] with identifiers and models. *)
Definition worker_phases (env : Env) : list Phase :=
  default [] (assign_phases env O PHASE_DEFS).

(** The first failure of the collaborators, in the order of the body. *)
Definition first_failure (env : Env) : option pystr :=
  match env_makedirs env with
  | Some m => Some m
  | None =>
      match env_build env with
      | Some m => Some m
      | None =>
          match env_kickoff_raises env with
          | Some m => Some m
          | None =>
              match env_persist_raises env with
              | Some (_, m) => Some m
              | None => None
              end
          end
      end
  end.

(** The two [unregister] calls, as the body and the [finally] block make
    them. *)
Definition unregistered (tid : Z) (w : World) : World :=
  unregister stderr tid (unregister stdout tid w).

Definition is_agent_output (e : Event) : Prop := kind e = agent_output.

(** Events that end nothing: neither [error] nor [done]. *)
Definition benign (e : Event) : Prop := kind e <> error /\ kind e <> done.

(** Queue [q] has only grown between two worlds, by events that satisfy
    [P]. *)
Definition extends (q : nat) (P : Event -> Prop) (w w' : World) : Prop :=
  exists evs, pending q w' = pending q w ++ evs /\ Forall P evs.

(** The registration table of an interceptor. *)
Definition registration (n : StreamName) (w : World) : gmap Z nat :=
  _handlers (interceptor n w).

(** A run accepted by [start_pipeline]: identifier "run-1", queue 0, in
    a process whose clock stands still. *)
Definition started_world : World :=
  set_active_runs {[ py "run-1" := O ]}
                  (idle_world (mkClock (fun _ => 0%Q) O)).

(** The crew prints "boom" and then fails. *)
Definition failing_env : Env :=
  mkEnv (py "2026-01-01T00:00:00+00:00") (fun _ => py "id") None None
        [crew_write stdout (py "boom")] (Some (py "model crashed"))
        (fun _ => py "saved") None (fun x => x) (fun _ => py "0.0 min") 9
        [py "Traceback"].

Definition failed_run : Outcome unit * World :=
  run_pipeline_streaming failing_env (py "run-1") (py "X") O 7 started_world.

(** The stream thread makes one pass after the worker has put [done] and
    before the worker removes the registry entry. *)
Definition done_before_removal : Ending :=
  ending O [worker_thread; worker_thread; worker_thread; stream_thread]
         (mkEnding (finally_steps (py "run-1") O 7)
                   (mkGenerator true []) started_world).

(* ================================================================== *)
(** ** Vocabulary of the further properties *)

(** A call of one of the public methods of a handler. *)
Inductive HandlerCall :=
| call_process (text : pystr)
| call_set_phase (index : Z)
| call_flush_remaining.

Definition run_call (c : HandlerCall) (s : HCtx) : HCtx :=
  match c with
  | call_process text => process text s
  | call_set_phase index => set_phase index s
  | call_flush_remaining => flush_remaining s
  end.

(** A sequence of calls on one handler, in order. *)
Definition run_calls (cs : list HandlerCall) (s : HCtx) : HCtx :=
  fold_left (fun s c => run_call c s) cs s.

(** A fragment as [process] accepts it: not blank, and free of the
    table's glyphs. *)
Definition clean_fragment (f : pystr) : Prop :=
  strip f <> [] /\ forallb (fun c => negb (is_box_glyph c)) f = true.

(** The state of the buffer between two calls: fewer than 4 fragments,
    each one as [process] accepts it. *)
Definition well_buffered (h : PipelineHandler) : Prop :=
  (length (chunk_buffer h) < 4)%nat /\ Forall clean_fragment (chunk_buffer h).

(** An [agent_output] event as the browser can get it: its text has
    between 1 and 4000 characters, none of them a glyph of the table. *)
Definition bounded_output (e : Event) : Prop :=
  exists i t, e = ev_agent_output i t /\ (1 <= length t <= 4000)%nat /\
              forallb (fun c => negb (is_box_glyph c)) t = true.

(** A handler created at the first reading of [slow_clock] receives two
    writes, a change of phase, three more writes and the final flush. *)
Definition busy_calls : list HandlerCall :=
  [ call_process (py "a"); call_process (py "b"); call_set_phase 1;
    call_process (py "c"); call_process (py " "); call_process (py "d");
    call_flush_remaining ].

(** Two handlers that no thread has registered: handler 0 is new, handler
    1 holds one fragment; both put on queue 0. *)
Definition two_handlers : World :=
  set_handlers {[ O := self fresh_ctx; 1%nat := self one_pending ]}
               (idle_world (clk one_pending)).

(** One call of [write]: the stream, the calling thread, the text. *)
Record WriteCall := mkWrite {
  wc_stream : StreamName; wc_thread : Z; wc_text : pystr }.

(** Calls of [write] by any threads, in the order they happen. *)
Definition run_writes (ws : list WriteCall) (w : World) : World :=
  fold_left (fun w c => snd (write (wc_stream c) (wc_thread c) (wc_text c) w))
            ws w.

(** The texts written by thread [tid], in order. *)
Definition written_by (tid : Z) (ws : list WriteCall) : list pystr :=
  map wc_text (List.filter (fun c => bool_decide (wc_thread c = tid)) ws).

(** Thread 7 has registered a new handler on queue 0 with both streams;
    no other thread is registered. *)
Definition one_worker : World :=
  register stderr 7 O
    (register stdout 7 O
       (set_handlers {[ O := self fresh_ctx ]} (idle_world (clk fresh_ctx)))).

(** Thread 7 writes to both streams, thread 8 in between. *)
Definition mixed_writes : list WriteCall :=
  [ mkWrite stdout 7 (py "a"); mkWrite stdout 8 (py "zzz");
    mkWrite stderr 7 (py "b") ].

(** The events of a queue that are not console text. *)
Definition control (evs : list Event) : list Event :=
  List.filter (fun e => negb (bool_decide (kind e = agent_output))) evs.

(** The [phase_start] event for index [idx], if [idx] indexes a phase. *)
Definition start_of (phases : list Phase) (idx : Z) : list Event :=
  match py_index phases idx with
  | Some np => [phase_start_event idx np]
  | None => []
  end.

(** What one completed stage contributes, seen from the queue: the
    control events put and the counter left, for a counter [idx]. *)
Definition stage_control (phases : list Phase) (idx : Z) (out : TaskOutput)
    : list Event * Z :=
  match py_index phases idx with
  | Some p =>
      match content_of p out with
      | PyStr c => (phase_complete_event idx p c :: start_of phases (idx + 1),
                    idx + 1)
      | PyNone => ([], idx)
      end
  | None => ([], idx + 1)
  end.

(** The same for the actions of the crew, in order. *)
Fixpoint crew_control (phases : list Phase) (idx : Z) (acts : list CrewAction)
    : list Event * Z :=
  match acts with
  | [] => ([], idx)
  | crew_write _ _ :: rest => crew_control phases idx rest
  | crew_task_done out :: rest =>
      let '(evs, idx') := stage_control phases idx out in
      let '(evs', idx'') := crew_control phases idx' rest in
      (evs ++ evs', idx'')
  end.

(** The phase indices carried by the [phase_complete] events. *)
Definition completed_indices (evs : list Event) : list Z :=
  flat_map (fun e => match e with
                     | ev_phase_complete i _ _ _ _ _ _ => [i]
                     | _ => []
                     end) evs.

Definition zrange (a : Z) (n : nat) : list Z :=
  map (fun k => a + Z.of_nat k) (seq O n).

(** The kind of an event with the phase index it carries, if any. *)
Definition tag (e : Event) : EventKind * option Z :=
  (kind e,
   match e with
   | ev_phase_start i _ _ _ _ _ _ => Some i
   | ev_agent_output i _ => Some i
   | ev_phase_complete i _ _ _ _ _ _ => Some i
   | _ => None
   end).

(** The control events of stage [i] of a run over [n] phases. *)
Definition stage_tags (n : Z) (i : Z) : list (EventKind * option Z) :=
  (phase_complete, Some i)
  :: (if i + 1 <? n then [(phase_start, Some (i + 1))] else []).

(** The control events of a whole run over [n] phases, in order. *)
Definition lifecycle (n : nat) : list (EventKind * option Z) :=
  [(pipeline_start, None); (status, None); (status, None);
   (phase_start, Some 0)]
  ++ flat_map (stage_tags (Z.of_nat n)) (zrange 0 n)
  ++ [(pipeline_complete, None); (done, None)].

(** Queue [q] has grown between two worlds by events whose control
    events are [ctl]. *)
Definition grows (q : nat) (ctl : list Event) (w w' : World) : Prop :=
  exists evs, pending q w' = pending q w ++ evs /\ control evs = ctl.

(** No collaborator fails and the crew completes the seven stages. *)
Definition working_env : Env :=
  mkEnv (py "2026-01-01T00:00:00+00:00") (fun _ => py "id") None None
        seven_stages None (fun _ => py "saved") None (fun x => x)
        (fun _ => py "0.0 min") 9 [py "Traceback"].

(** The output directory cannot be made. *)
Definition no_directory_env : Env :=
  mkEnv (py "2026-01-01T00:00:00+00:00") (fun _ => py "id")
        (Some (py "Permission denied")) None seven_stages None
        (fun _ => py "saved") None (fun x => x) (fun _ => py "0.0 min") 9
        [py "Traceback"].

(** The answer of [start_pipeline]. *)
Inductive StartResponse :=
| started (run_id : pystr)       (* 200, {"run_id": run_id} *)
| requirement_required.          (* 400, {"error": "Requirement is required"} *)

(** The thread that [start_pipeline] starts: the arguments of its target,
    [run_pipeline_streaming]. *)
Record WorkerThread := mkWorker {
  wt_run_id : pystr; wt_requirement : pystr; wt_queue : nat }.

(** The queue objects referenced from the world. *)
Definition live_queues (w : World) : gset nat :=
  dom (queues w) ∪ map_img (active_runs w)
  ∪ map_img (event_queue <$> handlers w).

(** [start_pipeline].  [uuid4] is the value of [str(uuid.uuid4())];
    [requirement_field] is the value of the key "requirement" in the
    JSON body, if the body has it. *)
Definition start_pipeline (uuid4 : pystr) (requirement_field : option pystr)
    (w : World) : StartResponse * option WorkerThread * World :=
  let requirement := strip (default [] requirement_field) in
  if negb (truthy requirement) then (requirement_required, None, w)
  else
    let run_id := uuid4 in
    let eq := fresh (live_queues w) in
    let w := set_queues (<[eq := []]> (queues w)) w in
    let w := log [acquire runs_lock] w in
    let w := set_active_runs (<[run_id := eq]> (active_runs w)) w in
    let w := log [release runs_lock] w in
    (started run_id, Some (mkWorker run_id requirement eq), w).

(** The number of passes the generator is given in a schedule. *)
Definition passes (sched : list Turn) : nat :=
  length (List.filter (fun t => match t with consumer_pass => true | _ => false end)
                      sched).

(** Two passes of the generator around one [status] event; no [done]. *)
Definition waiting_schedule : list Turn :=
  [ consumer_pass; producer_put (ev_status (py "Creating SDLC agents..."));
    consumer_pass ].

(** The fence of a code block. *)
Definition fence : pystr := [96; 96; 96]%N.

(** No backtick occurs in the text. *)
Definition no_backtick (s : pystr) : bool :=
  forallb (fun c => negb (c =? 96)%N) s.

(** A response made of a sentence, a tagged block and a closing word. *)
Definition fenced_response : PyVal :=
  PyStr (py "Here: " ++ fence ++ py "python" ++ [10%N] ++ py " x = 1 "
         ++ fence ++ py " done").

(** The lock order of the module: a lock is taken with no lock held, or a
    handler's lock with just a router's lock held. *)
Definition may_acquire (held : list Lock) (l : Lock) : bool :=
  match held, l with
  | [], _ => true
  | [router_lock _], handler_lock _ => true
  | _, _ => false
  end.

(** The locks held after the operations [t], innermost first, starting
    with [held]; [None] when an acquisition is against the order or a
    release is not of the lock taken last. *)
Fixpoint held_after (held : list Lock) (t : list LockEvent)
    : option (list Lock) :=
  match t with
  | [] => Some held
  | acquire l :: t' =>
      if may_acquire held l then held_after (l :: held) t' else None
  | release l :: t' =>
      match held with
      | l' :: rest =>
          if bool_decide (l = l') then held_after rest t' else None
      | [] => None
      end
  end.

(** Between two worlds the locks were taken in order and all released. *)
Definition ordered (w w' : World) : Prop :=
  exists t, lock_trace w' = lock_trace w ++ t /\ held_after [] t = Some [].

(** A call of a method of an interceptor or of a handler. *)
Inductive ApiCall :=
| api_write (c : WriteCall)
| api_register (n : StreamName) (thread_id : Z) (handler : nat)
| api_unregister (n : StreamName) (thread_id : Z)
| api_handler (handler : nat) (c : HandlerCall).

Definition run_api (c : ApiCall) (w : World) : World :=
  match c with
  | api_write c => snd (write (wc_stream c) (wc_thread c) (wc_text c) w)
  | api_register n tid hid => register n tid hid w
  | api_unregister n tid => unregister n tid w
  | api_handler hid (call_process text) => handler_process hid text w
  | api_handler hid (call_set_phase index) => handler_set_phase hid index w
  | api_handler hid call_flush_remaining => handler_flush_remaining hid w
  end.

(** Calls by any threads, in the order they happen. *)
Definition run_apis (cs : list ApiCall) (w : World) : World :=
  fold_left (fun w c => run_api c w) cs w.

(** Every run of [m] leaves a state related by [R] to the one it started
    in, whether it returns or raises. *)
Definition preserved {S A : Type} (R : S -> S -> Prop) (m : M S A) : Prop :=
  forall s, R s (snd (m s)).

(* ================================================================== *)
(** * Properties *)

(** ** Strings *)

Lemma join_empty_sep (parts : list pystr) : join [] parts = concat parts.
Proof.
  induction parts as [|p ps IH]; [reflexivity|].
  destruct ps as [|p' ps'].
  - simpl. now rewrite app_nil_r.
  - change (join [] (p :: p' :: ps')) with (p ++ [] ++ join [] (p' :: ps')).
    rewrite IH. reflexivity.
Qed.

Lemma last_chars_suffix (n : nat) (s : pystr) :
  firstn (length s - n) s ++ last_chars n s = s.
Proof. apply firstn_skipn. Qed.

Lemma last_chars_length (n : nat) (s : pystr) :
  length (last_chars n s) = Nat.min n (length s).
Proof. unfold last_chars. rewrite length_skipn. lia. Qed.

Lemma last_chars_short (n : nat) (s : pystr) :
  (length s <= n)%nat -> last_chars n s = s.
Proof.
  intros H. unfold last_chars.
  replace (length s - n)%nat with O by lia. reflexivity.
Qed.

Lemma Qltb_lt (x y : Q) : Qltb x y = true <-> (x < y)%Q.
Proof.
  unfold Qltb. rewrite negb_true_iff.
  split; intros H.
  - apply Qnot_le_lt. intros Hle. apply Qle_bool_iff in Hle. congruence.
  - apply not_true_is_false. intros Hle. apply Qle_bool_iff in Hle.
    apply (Qlt_not_le _ _ H Hle).
Qed.

(* ------------------------------------------------------------------ *)
(** ** [_clean] *)

Lemma fold_replace_map (tbl : list (N * N)) (s : pystr) :
  fold_left (fun t '(old, new) => replace old new t) tbl s =
  map (fun c => fold_left (fun c '(old, new) =>
                             if (c =? old)%N then new else c) tbl c) s.
Proof.
  revert s. induction tbl as [|[old new] tbl IH]; intros s; simpl.
  - now rewrite map_id.
  - rewrite IH. unfold replace. rewrite map_map. reflexivity.
Qed.

Lemma clean_unfold (text : pystr) :
  _clean text = map subst_glyph (sub_sgr O text).
Proof. unfold _clean. apply fold_replace_map. Qed.

Ltac split_glyph c :=
  repeat match goal with
         | |- context [(c =? ?k)%N] =>
             destruct (N.eqb_spec c k) as [->|?];
             [vm_compute; reflexivity|cbn [negb andb orb]]
         end.

Lemma subst_glyph_not_glyph (c : N) : is_box_glyph (subst_glyph c) = false.
Proof.
  unfold subst_glyph, is_box_glyph, glyph_table. cbn [fold_left existsb].
  split_glyph c.
  repeat match goal with
         | H : c <> ?k |- _ =>
             apply N.eqb_neq in H; rewrite ?H; clear H
         end.
  reflexivity.
Qed.

Lemma subst_glyph_other (c : N) : is_box_glyph c = false -> subst_glyph c = c.
Proof.
  unfold subst_glyph, is_box_glyph, glyph_table. cbn [fold_left existsb].
  intros H.
  repeat (apply orb_false_elim in H as [? H]).
  repeat match goal with
         | Hx : (c =? _)%N = false |- _ => rewrite Hx; clear Hx; cbv iota
         end.
  reflexivity.
Qed.

(** No character of the table survives the cleaning. *)
Lemma clean_no_glyph (text : pystr) :
  forallb (fun c => negb (is_box_glyph c)) (_clean text) = true.
Proof.
  rewrite clean_unfold. apply forallb_forall. intros c Hc.
  apply in_map_iff in Hc as (c0 & <- & _).
  now rewrite subst_glyph_not_glyph.
Qed.

(** A text without the escape character only has its glyphs replaced. *)
Lemma sub_sgr_no_esc (s : pystr) :
  forallb (fun c => negb (c =? ESC)%N) s = true -> sub_sgr O s = s.
Proof.
  induction s as [|c r IH]; [reflexivity|].
  cbn [forallb]. intros H. apply andb_prop in H as [Hc Hr].
  cbn [sub_sgr].
  assert (Hm : match_sgr (c :: r) = None).
  { unfold match_sgr. destruct c as [|p]; [reflexivity|].
    unfold ESC in Hc.
    destruct (N.eqb_spec (N.pos p) 27) as [E|E]; [discriminate|].
    repeat (destruct p as [p|p|]; try reflexivity); congruence. }
  rewrite Hm. f_equal. now apply IH.
Qed.

Lemma span_params_app (ps rest : pystr) (c : N) :
  forallb is_sgr_param ps = true -> is_sgr_param c = false ->
  span_params (ps ++ c :: rest) = length ps.
Proof.
  induction ps as [|p ps IH]; simpl; intros Hps Hc.
  - now rewrite Hc.
  - apply andb_prop in Hps as [Hp Hps]. rewrite Hp. f_equal. now apply IH.
Qed.

Lemma sub_sgr_skip (k : nat) (a b : pystr) :
  length a = k -> sub_sgr k (a ++ b) = sub_sgr O b.
Proof.
  revert a. induction k as [|k IH]; intros a Ha.
  - destruct a; [reflexivity|discriminate].
  - destruct a as [|x a]; [discriminate|]. simpl. apply IH.
    simpl in Ha. lia.
Qed.

(** A colour sequence ESC [ params m is dropped where the scan meets it. *)
Lemma sub_sgr_sequence (ps rest : pystr) :
  forallb is_sgr_param ps = true ->
  sub_sgr O ([27; 91]%N ++ ps ++ [109]%N ++ rest) = sub_sgr O rest.
Proof.
  intros Hps.
  assert (Hm : match_sgr ([27; 91]%N ++ ps ++ [109]%N ++ rest)
               = Some (3 + length ps)%nat).
  { unfold match_sgr. cbn [app].
    rewrite (span_params_app ps rest 109%N Hps eq_refl).
    change (ps ++ 109%N :: rest) with (ps ++ [109%N] ++ rest).
    rewrite skipn_app, skipn_all, Nat.sub_diag. reflexivity. }
  change ([27; 91]%N ++ ps ++ [109]%N ++ rest)
    with (27%N :: ([91%N] ++ ps ++ [109]%N ++ rest)) in *.
  cbn [sub_sgr]. rewrite Hm.
  replace (3 + length ps - 1)%nat with (length ([91%N] ++ ps ++ [109%N]))
    by (rewrite !length_app; simpl; lia).
  replace ([91%N] ++ ps ++ [109%N] ++ rest)
    with (([91%N] ++ ps ++ [109%N]) ++ rest)
    by (rewrite <- !app_assoc; reflexivity).
  now apply sub_sgr_skip.
Qed.

Lemma sub_sgr_prefix (a rest : pystr) :
  forallb (fun c => negb (c =? ESC)%N) a = true ->
  sub_sgr O (a ++ 27%N :: rest) = a ++ sub_sgr O (27%N :: rest).
Proof.
  induction a as [|c r IH]; [reflexivity|].
  intros H. simpl in H. apply andb_prop in H as [Hc Hr].
  change ((c :: r) ++ 27%N :: rest) with (c :: (r ++ 27%N :: rest)).
  cbn [sub_sgr].
  assert (Hm : match_sgr (c :: r ++ 27%N :: rest) = None).
  { unfold match_sgr. destruct c as [|p]; [reflexivity|].
    unfold ESC in Hc.
    destruct (N.eqb_spec (N.pos p) 27) as [E|E]; [discriminate|].
    repeat (destruct p as [p|p|]; try reflexivity); congruence. }
  rewrite Hm. cbn [app]. f_equal. now apply IH.
Qed.

(* ------------------------------------------------------------------ *)
(** ** PipelineHandler *)

Lemma flush_empty (s : HCtx) : chunk_buffer (self s) = [] -> _flush s = s.
Proof. intros H. unfold _flush. now rewrite H. Qed.

Lemma flush_nonempty (s : HCtx) :
  chunk_buffer (self s) <> [] ->
  _flush s =
  mkHCtx (mkHandler (event_queue (self s)) (current_phase_index (self s)) []
                    (readings (clk s) (ticks (clk s))))
         (mkClock (readings (clk s)) (S (ticks (clk s))))
         (emitted s ++ [flush_event (self s) (chunk_buffer (self s))]).
Proof.
  intros H. unfold _flush, flush_event.
  destruct (chunk_buffer (self s)) as [|f fs] eqn:E; [congruence|].
  cbn [truthy negb time_time]. rewrite join_empty_sep. reflexivity.
Qed.

Lemma flush_buffer_empty (s : HCtx) : chunk_buffer (self (_flush s)) = [].
Proof.
  destruct (chunk_buffer (self s)) as [|f fs] eqn:E.
  - now rewrite flush_empty.
  - rewrite flush_nonempty by congruence. reflexivity.
Qed.

(** What a flush adds to the queue: nothing, or the one event. *)
Lemma flush_emitted (s : HCtx) :
  emitted (_flush s) =
  emitted s ++ match chunk_buffer (self s) with
               | [] => []
               | _ :: _ => [flush_event (self s) (chunk_buffer (self s))]
               end.
Proof.
  destruct (chunk_buffer (self s)) as [|f fs] eqn:E.
  - rewrite flush_empty by assumption. now rewrite app_nil_r.
  - rewrite flush_nonempty by congruence. cbn [emitted]. now rewrite E.
Qed.

Lemma flush_phase_index (s : HCtx) :
  current_phase_index (self (_flush s)) = current_phase_index (self s).
Proof.
  destruct (chunk_buffer (self s)) as [|f fs] eqn:E.
  - now rewrite flush_empty.
  - rewrite flush_nonempty by congruence. reflexivity.
Qed.

Lemma flush_event_queue (s : HCtx) :
  event_queue (self (_flush s)) = event_queue (self s).
Proof.
  destruct (chunk_buffer (self s)) as [|f fs] eqn:E.
  - now rewrite flush_empty.
  - rewrite flush_nonempty by congruence. reflexivity.
Qed.

(** [process] without the early return: it is subsumed by the test on the
    cleaned text. *)
Lemma process_unfold (text : pystr) (s : HCtx) :
  process text s =
  if truthy (strip (_clean text)) then
    let h := self s in
    let buf := chunk_buffer h ++ [_clean text] in
    let s' := mkHCtx (mkHandler (event_queue h) (current_phase_index h)
                                buf (last_push h))
                     (mkClock (readings (clk s)) (S (ticks (clk s))))
                     (emitted s) in
    if Qltb (1 # 4) (readings (clk s) (ticks (clk s)) - last_push h)
       || (4 <=? length buf)%nat
    then _flush s' else s'
  else s.
Proof.
  unfold process. destruct text as [|c r]; [reflexivity|].
  cbn [truthy negb]. reflexivity.
Qed.

Lemma process_phase_index (text : pystr) (s : HCtx) :
  current_phase_index (self (process text s)) = current_phase_index (self s).
Proof.
  rewrite process_unfold.
  destruct (truthy (strip (_clean text))); [|reflexivity].
  cbv zeta.
  destruct (_ || _); [rewrite flush_phase_index|]; reflexivity.
Qed.

Lemma process_event_queue (text : pystr) (s : HCtx) :
  event_queue (self (process text s)) = event_queue (self s).
Proof.
  rewrite process_unfold.
  destruct (truthy (strip (_clean text))); [|reflexivity].
  cbv zeta.
  destruct (_ || _); [rewrite flush_event_queue|]; reflexivity.
Qed.

(** One [process] call: the texts flushed so far and the buffer together
    hold what was accepted, in order. *)
Lemma process_conserves (text : pystr) (s : HCtx) :
  exists combs : list pystr,
    emitted (process text s) =
      emitted s ++ map (fun c => ev_agent_output (current_phase_index (self s))
                                   (last_chars (Z.to_nat 4000) c)) combs /\
    concat combs ++ concat (chunk_buffer (self (process text s))) =
      concat (chunk_buffer (self s)) ++ concat (accepted [text]).
Proof.
  rewrite process_unfold. unfold accepted. cbn [map List.filter].
  destruct (truthy (strip (_clean text))) eqn:Hs.
  - cbv zeta.
    destruct (_ || _).
    + exists [concat (chunk_buffer (self s) ++ [_clean text])].
      rewrite flush_emitted, flush_buffer_empty. cbn [self chunk_buffer emitted].
      destruct (chunk_buffer (self s) ++ [_clean text]) as [|f fs] eqn:E.
      { now destruct (chunk_buffer (self s)). }
      split; [reflexivity|].
      rewrite <- E. rewrite concat_app. cbn [concat map].
      rewrite !app_nil_r. reflexivity.
    + exists []. cbn [self chunk_buffer emitted map concat].
      rewrite concat_app. cbn [concat]. rewrite !app_nil_r.
      split; reflexivity.
  - exists []. cbn [map concat]. now rewrite !app_nil_r.
Qed.

Lemma accepted_cons (t : pystr) (ts : list pystr) :
  accepted (t :: ts) = accepted [t] ++ accepted ts.
Proof.
  unfold accepted. cbn [map List.filter].
  destruct (truthy (strip (_clean t))); reflexivity.
Qed.

Lemma process_all_conserves (texts : list pystr) (s : HCtx) :
  exists combs : list pystr,
    emitted (process_all texts s) =
      emitted s ++ map (fun c => ev_agent_output (current_phase_index (self s))
                                   (last_chars (Z.to_nat 4000) c)) combs /\
    concat combs ++ concat (chunk_buffer (self (process_all texts s))) =
      concat (chunk_buffer (self s)) ++ concat (accepted texts).
Proof.
  revert s. induction texts as [|t ts IH]; intros s.
  - exists []. cbn. now rewrite !app_nil_r.
  - change (process_all (t :: ts) s) with (process_all ts (process t s)).
    destruct (process_conserves t s) as (c1 & E1 & B1).
    destruct (IH (process t s)) as (c2 & E2 & B2).
    exists (c1 ++ c2). split.
    + rewrite E2, E1, process_phase_index, map_app, app_assoc. reflexivity.
    + rewrite accepted_cons, !concat_app, <- app_assoc, B2, !app_assoc, B1.
      reflexivity.
Qed.

(** C4.  A flush on an empty buffer changes nothing; on a non-empty buffer
    it empties the buffer, stores the time read, and puts exactly one
    [agent_output] event with the current phase index and the last 4000
    characters of the fragments concatenated in order.  A second flush
    right after the first adds nothing, so two flushes in a row put at
    most one event; [flush_remaining] is that flush. *)
Theorem flush_once_then_noop (s : HCtx) :
  let h := self s in
  let combined := concat (chunk_buffer h) in
  _flush s =
    match chunk_buffer h with
    | [] => s
    | _ :: _ =>
        mkHCtx (mkHandler (event_queue h) (current_phase_index h) []
                          (readings (clk s) (ticks (clk s))))
               (mkClock (readings (clk s)) (S (ticks (clk s))))
               (emitted s ++
                [ev_agent_output (current_phase_index h)
                                 (last_chars (Z.to_nat 4000) combined)])
    end /\
  firstn (length combined - 4000) combined
    ++ last_chars (Z.to_nat 4000) combined = combined /\
  length (last_chars (Z.to_nat 4000) combined)
    = Nat.min 4000 (length combined) /\
  _flush (_flush s) = _flush s /\
  (exists es, emitted (_flush (_flush s)) = emitted s ++ es /\
              (length es <= 1)%nat) /\
  flush_remaining s = _flush s.
Proof.
  cbv zeta. repeat split.
  - destruct (chunk_buffer (self s)) as [|f fs] eqn:E.
    + now apply flush_empty.
    + rewrite flush_nonempty by congruence. unfold flush_event.
      now rewrite E.
  - apply (last_chars_suffix (Z.to_nat 4000)).
  - apply (last_chars_length (Z.to_nat 4000)).
  - apply flush_empty, flush_buffer_empty.
  - rewrite (flush_empty (_flush s)) by apply flush_buffer_empty.
    rewrite flush_emitted.
    destruct (chunk_buffer (self s)); eexists; split; try reflexivity;
      simpl; lia.
Qed.

(** C5.  With a non-empty buffer, [set_phase n] puts exactly one
    [agent_output] event, tagged with the phase index the handler had
    before the call (so with [n] only if [n] is that same index), empties
    the buffer, and leaves the handler with phase index [n]. *)
Theorem set_phase_tags_previous (s : HCtx) (n : Z) :
  chunk_buffer (self s) <> [] ->
  let prev := current_phase_index (self s) in
  let s' := set_phase n s in
  emitted s' =
    emitted s ++ [ev_agent_output prev
                    (last_chars (Z.to_nat 4000)
                                (concat (chunk_buffer (self s))))] /\
  (forall i t, In (ev_agent_output i t)
                  (skipn (length (emitted s)) (emitted s')) ->
               i = prev /\ (i = n -> n = prev)) /\
  current_phase_index (self s') = n /\
  chunk_buffer (self s') = [] /\
  event_queue (self s') = event_queue (self s).
Proof.
  intros Hbuf. cbv zeta. unfold set_phase.
  rewrite (flush_nonempty s Hbuf). cbn [self emitted current_phase_index
    chunk_buffer event_queue]. unfold flush_event.
  repeat split.
  - rewrite skipn_app, skipn_all, Nat.sub_diag in H. cbn in H.
    destruct H as [H|[]]. now inversion H.
  - intros ->. rewrite skipn_app, skipn_all, Nat.sub_diag in H. cbn in H.
    destruct H as [H|[]]. now inversion H.
Qed.

Lemma set_phase_tags_previous_witness :
  chunk_buffer (self one_pending) <> [] /\
  emitted (set_phase 1 one_pending) = [ev_agent_output 0 (py "a")] /\
  current_phase_index (self (set_phase 1 one_pending)) = 1.
Proof.
  assert (H : chunk_buffer (self one_pending) <> []) by (vm_compute; congruence).
  split; [exact H|].
  destruct (set_phase_tags_previous one_pending 1 H) as (E & _ & I & _).
  split; [exact E|exact I].
Defined.

(** C3 as stated fails: a blank text that arrives 10 s after the last
    flush, with a fragment pending, triggers no flush, although more than
    250 ms have elapsed.  And an escape sequence that does not end in [m]
    (here ESC [ 2 K, erase line) is not stripped. *)
Lemma process_blank_text_no_flush :
  (1 # 4 < readings (clk one_pending) (ticks (clk one_pending))
           - last_push (self one_pending))%Q /\
  chunk_buffer (self one_pending) = [py "a"] /\
  process (py " ") one_pending = one_pending /\
  emitted (process_as_specified (py " ") one_pending)
    = [ev_agent_output 0 (py "a")] /\
  _clean (ESC :: py "[2K") = ESC :: py "[2K".
Proof.
  split; [vm_compute; reflexivity|].
  split; [reflexivity|].
  split; [reflexivity|].
  split; reflexivity.
Qed.

(** C3, amended.  [process] replaces the table's glyphs (the four
    corners by [+], the horizontal bar by [-], the vertical bar by [|],
    any other character by itself) in the text left by the removal of the
    colour sequences (a sequence ESC [ params m met by the scan is
    dropped, a text without ESC keeps its characters), and no glyph of
    the table remains.  A cleaned text that is blank after
    trimming changes nothing.  Otherwise the cleaned text is appended to
    the buffer and, in that same call, the buffer is flushed exactly when
    more than 1/4 s has passed since the last flush or the buffer now
    holds at least 4 fragments. *)
Theorem process_appends_then_flushes (text : pystr) (s : HCtx) :
  let h := self s in
  let clean := _clean text in
  let now := readings (clk s) (ticks (clk s)) in
  let buf := chunk_buffer h ++ [clean] in
  clean = map subst_glyph (sub_sgr O text) /\
  map subst_glyph [9581; 9584; 9582; 9583; 9472; 9474]%N = py "++++-|" /\
  (forall c, is_box_glyph c = false -> subst_glyph c = c) /\
  forallb (fun c => negb (is_box_glyph c)) clean = true /\
  (forallb (fun c => negb (c =? ESC)%N) text = true ->
   clean = map subst_glyph text) /\
  (forall a ps rest,
     forallb (fun c => negb (c =? ESC)%N) a = true ->
     forallb is_sgr_param ps = true ->
     _clean (a ++ [27; 91]%N ++ ps ++ [109]%N ++ rest)
       = map subst_glyph a ++ _clean rest) /\
  match strip clean with
  | [] => process text s = s
  | _ :: _ =>
      if Qltb (1 # 4) (now - last_push h) || (4 <=? length buf)%nat
      then
        self (process text s) =
          mkHandler (event_queue h) (current_phase_index h) []
                    (readings (clk s) (S (ticks (clk s)))) /\
        emitted (process text s) =
          emitted s ++ [ev_agent_output (current_phase_index h)
                          (last_chars (Z.to_nat 4000) (concat buf))] /\
        ticks (clk (process text s)) = S (S (ticks (clk s)))
      else
        self (process text s) =
          mkHandler (event_queue h) (current_phase_index h) buf (last_push h) /\
        emitted (process text s) = emitted s /\
        ticks (clk (process text s)) = S (ticks (clk s))
  end.
Proof.
  cbv zeta. split; [apply clean_unfold|].
  split; [reflexivity|].
  split; [apply subst_glyph_other|].
  split; [apply clean_no_glyph|].
  split; [intros H; now rewrite clean_unfold, (sub_sgr_no_esc _ H)|].
  split.
  { intros a ps rest Ha Hps. rewrite !clean_unfold.
    change (a ++ [27; 91]%N ++ ps ++ [109]%N ++ rest)
      with (a ++ 27%N :: ([91%N] ++ ps ++ [109]%N ++ rest)).
    rewrite (sub_sgr_prefix _ _ Ha).
    change (27%N :: ([91%N] ++ ps ++ [109]%N ++ rest))
      with ([27; 91]%N ++ ps ++ [109]%N ++ rest).
    rewrite (sub_sgr_sequence _ _ Hps), map_app. reflexivity. }
  rewrite process_unfold.
  destruct (strip (_clean text)) as [|c r] eqn:Hs; [reflexivity|].
  cbn [truthy]. cbv zeta.
  destruct (_ || _).
  - rewrite flush_nonempty
      by (cbn [self chunk_buffer]; now destruct (chunk_buffer (self s))).
    cbn [self emitted clk ticks readings chunk_buffer event_queue
         current_phase_index]. unfold flush_event.
    repeat split.
  - repeat split.
Qed.

(** C6 as stated fails: one accepted character written to a new handler
    stays in the buffer, and no event carries it. *)
Lemma buffered_text_not_enqueued :
  emitted (process_all [py "a"] fresh_ctx) = [] /\
  concat (accepted [py "a"]) = py "a" /\
  chunk_buffer (self (process_all [py "a"] fresh_ctx)) = [py "a"].
Proof. repeat split. Qed.

(** C6, amended.  After any run of [process] calls, the texts flushed
    (before the cut to 4000 characters) followed by the text still in the
    buffer are the text that was in the buffer at the start followed by
    the accepted cleaned fragments, in the order written; after a final
    flush the flushed texts alone are that text. *)
Theorem flushed_and_buffered_are_written (texts : list pystr) (s : HCtx) :
  let s' := process_all texts s in
  let event_of := fun c => ev_agent_output (current_phase_index (self s))
                             (last_chars (Z.to_nat 4000) c) in
  (exists combs : list pystr,
     emitted s' = emitted s ++ map event_of combs /\
     concat combs ++ concat (chunk_buffer (self s')) =
       concat (chunk_buffer (self s)) ++ concat (accepted texts)) /\
  (exists combs : list pystr,
     emitted (flush_remaining s') = emitted s ++ map event_of combs /\
     chunk_buffer (self (flush_remaining s')) = [] /\
     concat combs =
       concat (chunk_buffer (self s)) ++ concat (accepted texts)).
Proof.
  cbv zeta.
  destruct (process_all_conserves texts s) as (combs & E & B).
  split; [exists combs; split; assumption|].
  unfold flush_remaining. rewrite flush_emitted, flush_buffer_empty.
  destruct (chunk_buffer (self (process_all texts s))) as [|f fs] eqn:Hb.
  - exists combs. rewrite app_nil_r. repeat split; try assumption.
    rewrite <- B. cbn [concat]. now rewrite app_nil_r.
  - exists (combs ++ [concat (f :: fs)]). repeat split.
    + rewrite E, map_app, <- app_assoc. unfold flush_event. cbn [map].
      assert (Hi : current_phase_index (self (process_all texts s))
                   = current_phase_index (self s)).
      { clear. revert s. induction texts as [|t ts IH]; intros s;
          [reflexivity|].
        change (process_all (t :: ts) s) with (process_all ts (process t s)).
        now rewrite IH, process_phase_index. }
      now rewrite Hi.
    + rewrite concat_app. cbn [concat]. rewrite app_nil_r. exact B.
Qed.

(* ------------------------------------------------------------------ *)
(** ** The world *)

Ltac wsimpl :=
  cbn [clock queues handlers _stdout_interceptor _stderr_interceptor
       active_runs lock_trace set_clock set_queues set_handlers
       set_interceptor set_active_runs log interceptor
       _original _handlers fst snd] in *.

Lemma pending_queue_put (q' q : nat) (e : Event) (w : World) :
  pending q' (queue_put q e w) =
  if decide (q' = q) then pending q' w ++ [e] else pending q' w.
Proof.
  unfold pending at 1, queue_put. wsimpl.
  destruct (decide (q' = q)) as [->|Hne].
  - now rewrite lookup_insert_eq.
  - now rewrite lookup_insert_ne by congruence.
Qed.

Lemma queue_put_all_fields (q : nat) (es : list Event) (w : World) :
  clock (queue_put_all q es w) = clock w /\
  handlers (queue_put_all q es w) = handlers w /\
  _stdout_interceptor (queue_put_all q es w) = _stdout_interceptor w /\
  _stderr_interceptor (queue_put_all q es w) = _stderr_interceptor w /\
  active_runs (queue_put_all q es w) = active_runs w /\
  lock_trace (queue_put_all q es w) = lock_trace w.
Proof.
  revert w. induction es as [|e es IH]; intros w; [repeat split|].
  change (queue_put_all q (e :: es) w)
    with (queue_put_all q es (queue_put q e w)).
  destruct (IH (queue_put q e w)) as (-> & -> & -> & -> & -> & ->).
  repeat split.
Qed.

Lemma pending_queue_put_all (q' q : nat) (es : list Event) (w : World) :
  pending q' (queue_put_all q es w) =
  if decide (q' = q) then pending q' w ++ es else pending q' w.
Proof.
  revert w. induction es as [|e es IH]; intros w.
  - cbn. destruct (decide (q' = q)); now rewrite ?app_nil_r.
  - change (queue_put_all q (e :: es) w)
      with (queue_put_all q es (queue_put q e w)).
    rewrite IH, pending_queue_put.
    destruct (decide (q' = q)); [now rewrite <- app_assoc|reflexivity].
Qed.

Lemma pending_log (q : nat) (l : list LockEvent) (w : World) :
  pending q (log l w) = pending q w.
Proof. reflexivity. Qed.

Lemma pending_set_interceptor (q : nat) (n : StreamName)
    (i : OutputInterceptor) (w : World) :
  pending q (set_interceptor n i w) = pending q w.
Proof. destruct n; reflexivity. Qed.

Lemma locked_call_missing (hid : nat) (m : HCtx -> HCtx) (w : World) :
  handlers w !! hid = None -> locked_call hid m w = w.
Proof. intros H. unfold locked_call. now rewrite H. Qed.

(** A locked method call changes the handler, the clock, the handler's
    queue and the lock trace, and nothing else. *)
Lemma locked_call_fields (hid : nat) (m : HCtx -> HCtx) (w : World)
    (h : PipelineHandler) :
  handlers w !! hid = Some h ->
  let s := method_result m h w in
  let w' := locked_call hid m w in
  clock w' = clk s /\
  handlers w' = <[hid := self s]> (handlers w) /\
  (forall q, pending q w' =
             if decide (q = event_queue h) then pending q w ++ emitted s
             else pending q w) /\
  _stdout_interceptor w' = _stdout_interceptor w /\
  _stderr_interceptor w' = _stderr_interceptor w /\
  active_runs w' = active_runs w /\
  lock_trace w' = lock_trace w ++
                  [acquire (handler_lock hid); release (handler_lock hid)].
Proof.
  intros H. cbv zeta. unfold locked_call, method_result. rewrite H.
  set (s := m (mkHCtx h (clock (log [acquire (handler_lock hid)] w)) [])).
  set (w0 := set_handlers _ (set_clock _ (log _ w))).
  pose proof (queue_put_all_fields (event_queue h) (emitted s) w0)
    as (Hc & Hh & Ho & He & Ha & Ht).
  assert (Hp : forall q, pending q (log [release (handler_lock hid)]
                           (queue_put_all (event_queue h) (emitted s) w0)) =
                         if decide (q = event_queue h)
                         then pending q w ++ emitted s else pending q w).
  { intros q. rewrite pending_log, pending_queue_put_all. reflexivity. }
  split; [cbn [log clock]; rewrite Hc; reflexivity|].
  split; [cbn [log handlers]; rewrite Hh; reflexivity|].
  split; [exact Hp|].
  split; [cbn [log _stdout_interceptor]; rewrite Ho; reflexivity|].
  split; [cbn [log _stderr_interceptor]; rewrite He; reflexivity|].
  split; [cbn [log active_runs]; rewrite Ha; reflexivity|].
  cbn [log lock_trace]. rewrite Ht. subst w0. cbn [log lock_trace set_handlers
    set_clock]. now rewrite <- app_assoc.
Qed.

(* ------------------------------------------------------------------ *)
(** ** OutputInterceptor *)

Lemma log_log (l1 l2 : list LockEvent) (w : World) :
  log l2 (log l1 w) = log (l1 ++ l2) w.
Proof. unfold log. cbn. now rewrite <- app_assoc. Qed.

Lemma handler_process_empty (hid : nat) (w : World) :
  handler_process hid [] w = w.
Proof. reflexivity. Qed.

Lemma handler_process_nonempty (hid : nat) (text : pystr) (w : World) :
  text <> [] -> handler_process hid text w = locked_call hid (process text) w.
Proof. intros H. unfold handler_process. now destruct text. Qed.

Lemma locked_call_interceptor (n : StreamName) (hid : nat)
    (m : HCtx -> HCtx) (w : World) :
  interceptor n (locked_call hid m w) = interceptor n w.
Proof.
  destruct (handlers w !! hid) as [h|] eqn:Hh.
  - destruct (locked_call_fields hid m w h Hh) as (_ & _ & _ & Ho & He & _).
    destruct n; assumption.
  - now rewrite locked_call_missing.
Qed.

Lemma handler_process_interceptor (n : StreamName) (hid : nat)
    (text : pystr) (w : World) :
  interceptor n (handler_process hid text w) = interceptor n w.
Proof.
  unfold handler_process. destruct (negb (truthy text)); [reflexivity|].
  apply locked_call_interceptor.
Qed.

(** The pass-through never fails: a console that raises is left as it
    was, part of the way or wholly. *)
Lemma pass_through_swallows (text : pystr) (c : Console) :
  exists c',
    pass_through text (Some c) = Some c' /\
    written c' = (if write_raises c then written c else written c ++ [text]) /\
    flush_count c' = (if write_raises c || flush_raises c then flush_count c
                      else S (flush_count c)) /\
    write_raises c' = write_raises c /\
    flush_raises c' = flush_raises c.
Proof.
  unfold pass_through, console_write, console_flush.
  destruct c as [wr fc [|] [|]]; cbn; eexists; repeat split.
Qed.

Lemma write_unfold (n : StreamName) (tid : Z) (text : pystr) (w : World) :
  write n tid text w =
  (len text,
   let w1 := if truthy text
             then log [acquire (router_lock n); release (router_lock n)]
                      (forwarded n text w)
             else forwarded n text w in
   match _handlers (interceptor n w) !! tid with
   | Some hid => handler_process hid text w1
   | None => w1
   end).
Proof.
  unfold write, forwarded.
  destruct text as [|c r].
  - cbn [truthy negb]. f_equal. now destruct (_ !! tid).
  - cbn [truthy negb]. cbv zeta. rewrite log_log. cbn [app].
    f_equal.
    assert (E : interceptor n
                  (log [acquire (router_lock n)]
                     (set_interceptor n
                        (mkInterceptor
                           (pass_through (c :: r) (_original (interceptor n w)))
                           (_handlers (interceptor n w))) w))
                = mkInterceptor
                    (pass_through (c :: r) (_original (interceptor n w)))
                    (_handlers (interceptor n w))).
    { destruct n; reflexivity. }
    rewrite E. cbn [_handlers]. reflexivity.
Qed.

(** C2.  [write] returns the length of the text.  It first hands the text
    to the real console, where a raising [write] or [flush] is swallowed
    (the pass-through always yields a console, unchanged where the
    operation raised); then the text goes to the [process] method of the
    handler registered for the calling thread, if there is one, and to
    that handler only.  For a thread without a handler nothing but the
    console and the lock trace (one lookup under the lock) changes. *)
Theorem write_passes_through_then_routes (n : StreamName) (tid : Z)
    (text : pystr) (w : World) :
  let i := interceptor n w in
  let w1 := if truthy text
            then log [acquire (router_lock n); release (router_lock n)]
                     (forwarded n text w)
            else forwarded n text w in
  let w' := snd (write n tid text w) in
  fst (write n tid text w) = len text /\
  _original (interceptor n w') = pass_through text (_original i) /\
  (forall c, _original i = Some c ->
     exists c', pass_through text (Some c) = Some c' /\
       written c' = (if write_raises c then written c
                     else written c ++ [text]) /\
       write_raises c' = write_raises c /\
       flush_raises c' = flush_raises c) /\
  match _handlers i !! tid with
  | Some hid =>
      w' = handler_process hid text w1 /\
      (forall hid', hid' <> hid -> handlers w' !! hid' = handlers w !! hid')
  | None =>
      w' = w1 /\
      queues w' = queues w /\ handlers w' = handlers w /\
      clock w' = clock w /\ active_runs w' = active_runs w /\
      lock_trace w' =
        lock_trace w ++
        (if truthy text
         then [acquire (router_lock n); release (router_lock n)] else [])
  end.
Proof.
  cbv zeta. rewrite write_unfold. cbn [fst snd].
  split; [reflexivity|].
  assert (Hf : forall l, interceptor n (log l (forwarded n text w))
                         = mkInterceptor
                             (pass_through text (_original (interceptor n w)))
                             (_handlers (interceptor n w))).
  { intros l. unfold forwarded. destruct n; reflexivity. }
  assert (Hf0 : interceptor n (forwarded n text w)
                = mkInterceptor
                    (pass_through text (_original (interceptor n w)))
                    (_handlers (interceptor n w))).
  { unfold forwarded. destruct n; reflexivity. }
  split.
  { destruct (_handlers (interceptor n w) !! tid) as [hid|] eqn:Hh.
    - rewrite handler_process_interceptor.
      destruct (truthy text); [now rewrite Hf|now rewrite Hf0].
    - destruct (truthy text); [now rewrite Hf|now rewrite Hf0]. }
  split.
  { intros c _. destruct (pass_through_swallows text c)
      as (c' & E & Hw & _ & Hwr & Hfr).
    exists c'. repeat split; assumption. }
  destruct (_handlers (interceptor n w) !! tid) as [hid|] eqn:Hh.
  - split; [reflexivity|].
    intros hid' Hne.
    destruct text as [|c r]; cbn [truthy].
    + rewrite handler_process_empty. unfold forwarded.
      destruct n; reflexivity.
    + rewrite handler_process_nonempty by congruence.
      assert (Hsame : handlers (log [acquire (router_lock n);
                                     release (router_lock n)]
                                    (forwarded n (c :: r) w)) = handlers w).
      { unfold forwarded. destruct n; reflexivity. }
      destruct (handlers w !! hid) as [h|] eqn:Hhid.
      * assert (Hl : handlers (log [acquire (router_lock n);
                                    release (router_lock n)]
                                   (forwarded n (c :: r) w)) !! hid = Some h)
          by (now rewrite Hsame).
        destruct (locked_call_fields hid (process (c :: r)) _ h Hl)
          as (_ & Hhs & _).
        rewrite Hhs, Hsame. now rewrite lookup_insert_ne by congruence.
      * rewrite locked_call_missing by (now rewrite Hsame).
        now rewrite Hsame.
  - split; [reflexivity|].
    unfold forwarded.
    destruct (truthy text), n; cbn; rewrite ?app_nil_r; repeat split.
Qed.

(* ------------------------------------------------------------------ *)
(** ** Lock discipline of the interceptor *)

Lemma new_trace_app (w w' : World) (t : list LockEvent) :
  lock_trace w' = lock_trace w ++ t -> new_trace w w' = t.
Proof.
  intros H. unfold new_trace.
  now rewrite H, skipn_app, skipn_all, Nat.sub_diag.
Qed.

Lemma write_trace (n : StreamName) (tid : Z) (text : pystr) (w : World) :
  exists t,
    lock_trace (snd (write n tid text w)) = lock_trace w ++ t /\
    downstream_inside_router [] t = false.
Proof.
  rewrite write_unfold. cbn [snd].
  assert (Hfw : lock_trace (forwarded n text w) = lock_trace w)
    by (unfold forwarded; destruct n; reflexivity).
  destruct text as [|c r]; cbn [truthy].
  - exists []. rewrite app_nil_r. split; [|reflexivity].
    destruct (_ !! tid); [rewrite handler_process_empty|]; exact Hfw.
  - destruct (_handlers (interceptor n w) !! tid) as [hid|].
    + rewrite handler_process_nonempty by congruence.
      set (w1 := log _ (forwarded n (c :: r) w)).
      assert (H1 : lock_trace w1 = lock_trace w ++
                     [acquire (router_lock n); release (router_lock n)])
        by (subst w1; cbn [log lock_trace]; now rewrite Hfw).
      destruct (handlers w1 !! hid) as [h|] eqn:Hh.
      * destruct (locked_call_fields hid (process (c :: r)) w1 h Hh)
          as (_ & _ & _ & _ & _ & _ & Ht).
        eexists. rewrite Ht, H1, <- app_assoc. split; [reflexivity|].
        destruct n; reflexivity.
      * rewrite locked_call_missing by assumption.
        eexists. split; [exact H1|].
        destruct n; reflexivity.
    + eexists. cbn [log lock_trace]. rewrite Hfw. split; [reflexivity|].
      destruct n; reflexivity.
Qed.

(** [unregister] of a thread that has a handler: the handler's final
    flush takes the handler's lock between the acquisition and the release
    of the router's lock. *)
Lemma unregister_trace (n : StreamName) (tid : Z) (w : World) (hid : nat)
    (h : PipelineHandler) :
  _handlers (interceptor n w) !! tid = Some hid ->
  handlers w !! hid = Some h ->
  lock_trace (unregister n tid w) =
  lock_trace w ++ [acquire (router_lock n); acquire (handler_lock hid);
                   release (handler_lock hid); release (router_lock n)].
Proof.
  intros Hreg Hh. unfold unregister.
  assert (E : _handlers (interceptor n (log [acquire (router_lock n)] w)) !! tid
              = Some hid) by (destruct n; exact Hreg).
  rewrite E. unfold handler_flush_remaining.
  set (w1 := set_interceptor n _ (log [acquire (router_lock n)] w)).
  assert (Hh1 : handlers w1 !! hid = Some h) by (subst w1; destruct n; exact Hh).
  destruct (locked_call_fields hid flush_remaining w1 h Hh1)
    as (_ & _ & _ & _ & _ & _ & Ht).
  cbn [log lock_trace]. rewrite Ht.
  assert (H1 : lock_trace w1 = lock_trace w ++ [acquire (router_lock n)])
    by (subst w1; destruct n; reflexivity).
  rewrite H1, <- !app_assoc. reflexivity.
Qed.

(** C9 fails on [unregister]: with a handler registered for the thread,
    the handler's final flush runs while the router's lock is held;
    [write] on the same world releases the lock before it calls
    [process]. *)
Lemma unregister_flushes_inside_router_lock :
  new_trace one_registered (unregister stdout 7 one_registered) =
    [acquire (router_lock stdout); acquire (handler_lock O);
     release (handler_lock O); release (router_lock stdout)] /\
  downstream_inside_router []
    (new_trace one_registered (unregister stdout 7 one_registered)) = true /\
  new_trace one_registered (snd (write stdout 7 (py "b") one_registered)) =
    [acquire (router_lock stdout); release (router_lock stdout);
     acquire (handler_lock O); release (handler_lock O)] /\
  pending O (unregister stdout 7 one_registered)
    = [ev_agent_output 0 (py "a")].
Proof.
  assert (Hreg : _handlers (interceptor stdout one_registered) !! 7 = Some O)
    by (vm_compute; reflexivity).
  assert (Hh : handlers one_registered !! O = Some (self one_pending))
    by (vm_compute; reflexivity).
  pose proof (unregister_trace stdout 7 one_registered O _ Hreg Hh) as Ht.
  rewrite (new_trace_app _ _ _ Ht).
  split; [reflexivity|]. split; [reflexivity|].
  split; vm_compute; reflexivity.
Qed.

(* ------------------------------------------------------------------ *)
(** ** The streaming endpoint *)

Lemma delivered_app (a b : list Frame) :
  delivered (a ++ b) = delivered a ++ delivered b.
Proof. unfold delivered. apply flat_map_app. Qed.

Lemma generate_step_event (q : nat) (w : World) (e : Event) (rest : list Event) :
  pending q w = e :: rest ->
  exists w', generate_step q w = (data_frame e, negb (is_kind done e), w') /\
             pending q w' = rest /\
             (forall q', q' <> q -> pending q' w' = pending q' w).
Proof.
  intros H. unfold generate_step, queue_get. rewrite H.
  eexists. split; [reflexivity|]. unfold pending. cbn [set_queues queues].
  split; [now rewrite lookup_insert_eq|].
  intros q' Hne. now rewrite lookup_insert_ne by congruence.
Qed.

Lemma generate_step_timeout (q : nat) (w : World) :
  pending q w = [] -> generate_step q w = (heartbeat_frame, true, w).
Proof. intros H. unfold generate_step, queue_get. now rewrite H. Qed.

Lemma generate_from_invariant (q : nat) (sched : list Turn) (g0 : Generator)
    (w0 : World) :
  stops_at_done g0 ->
  let '(g, w) := generate_from q sched (g0, w0) in
  stops_at_done g /\
  exists fs, gen_frames g = gen_frames g0 ++ fs /\
             pending q w0 ++ puts sched = delivered fs ++ pending q w.
Proof.
  revert g0 w0. induction sched as [|t sched IH]; intros g0 w0 Hinv.
  - cbn. split; [assumption|]. exists []. now rewrite !app_nil_r.
  - change (generate_from q (t :: sched) (g0, w0))
      with (generate_from q sched (generate_turn q t (g0, w0))).
    destruct t as [e|].
    + cbn [generate_turn].
      specialize (IH g0 (queue_put q e w0) Hinv).
      destruct (generate_from q sched (g0, queue_put q e w0)) as [g w].
      destruct IH as (Hs & fs & Hf & Hp). split; [assumption|].
      exists fs. split; [assumption|].
      rewrite pending_queue_put in Hp.
      destruct (decide (q = q)); [|congruence].
      change (puts (producer_put e :: sched)) with ([e] ++ puts sched).
      rewrite app_assoc. exact Hp.
    + cbn [generate_turn].
      destruct (gen_running g0) eqn:Hrun.
      * destruct (pending q w0) as [|e rest] eqn:Hpend.
        -- rewrite (generate_step_timeout q w0 Hpend).
           assert (Hinv' : stops_at_done
                             (mkGenerator true (gen_frames g0 ++ [heartbeat_frame]))).
           { left. split; [reflexivity|]. cbn [gen_frames].
             rewrite delivered_app. cbn. rewrite app_nil_r.
             destruct Hinv as [[_ H]|[H _]]; [assumption|congruence]. }
           specialize (IH _ w0 Hinv').
           destruct (generate_from q sched _) as [g w].
           destruct IH as (Hs & fs & Hf & Hp). split; [assumption|].
           exists (heartbeat_frame :: fs). cbn [gen_frames] in Hf.
           split; [now rewrite Hf, <- app_assoc|].
           rewrite Hpend in Hp. exact Hp.
        -- destruct (generate_step_event q w0 e rest Hpend) as (w1 & E & Hp1 & _).
           rewrite E.
           assert (Hnd : Forall (fun e => kind e <> done)
                                (delivered (gen_frames g0))).
           { destruct Hinv as [[_ H]|[H _]]; [assumption|congruence]. }
           assert (Hinv' : stops_at_done
                             (mkGenerator (negb (is_kind done e))
                                          (gen_frames g0 ++ [data_frame e]))).
           { unfold is_kind. destruct (decide (kind e = done)) as [Hd|Hd].
             - right. rewrite bool_decide_eq_true_2 by assumption.
               split; [reflexivity|]. exists (gen_frames g0), e.
               repeat split; assumption.
             - left. rewrite bool_decide_eq_false_2 by assumption.
               split; [reflexivity|]. cbn [gen_frames].
               rewrite delivered_app. apply Forall_app. split; [assumption|].
               cbn. constructor; [assumption|constructor]. }
           specialize (IH _ w1 Hinv').
           destruct (generate_from q sched _) as [g w].
           destruct IH as (Hs & fs & Hf & Hp). split; [assumption|].
           exists (data_frame e :: fs). cbn [gen_frames] in Hf.
           split; [now rewrite Hf, <- app_assoc|].
           change (delivered (data_frame e :: fs)) with (e :: delivered fs).
           change (puts (consumer_pass :: sched)) with (puts sched).
           cbn [app]. rewrite <- Hp, Hp1. reflexivity.
      * specialize (IH g0 w0 Hinv).
        destruct (generate_from q sched (g0, w0)) as [g w].
        destruct IH as (Hs & fs & Hf & Hp). split; [assumption|].
        exists fs. split; assumption.
Qed.

Lemma generate_turn_pass (q : nat) (g : Generator) (w : World) :
  gen_running g = true ->
  generate_turn q consumer_pass (g, w) =
  (mkGenerator (snd (fst (generate_step q w)))
               (gen_frames g ++ [fst (fst (generate_step q w))]),
   snd (generate_step q w)).
Proof.
  intros H. cbn [generate_turn]. rewrite H.
  now destruct (generate_step q w) as [[f go_on] w1].
Qed.

Lemma generate_turn_stopped (q : nat) (g : Generator) (w : World) :
  gen_running g = false -> generate_turn q consumer_pass (g, w) = (g, w).
Proof. intros H. cbn [generate_turn]. now rewrite H. Qed.

Lemma generate_from_as_specified (q : nat) (sched : list Turn)
    (g0 : Generator) (w0 : World) :
  let s := run_as_specified sched
             (mkStreamState (gen_running g0) (gen_frames g0) (pending q w0)) in
  gen_running (fst (generate_from q sched (g0, w0))) = looping s /\
  gen_frames (fst (generate_from q sched (g0, w0))) = yielded s /\
  pending q (snd (generate_from q sched (g0, w0))) = waiting s.
Proof.
  cbv zeta. revert g0 w0.
  induction sched as [|t sched IH]; intros g0 w0; [repeat split|].
  change (generate_from q (t :: sched) (g0, w0))
    with (generate_from q sched (generate_turn q t (g0, w0))).
  change (run_as_specified (t :: sched) ?s)
    with (run_as_specified sched (turn_as_specified t s)).
  destruct t as [e|].
  - cbn [generate_turn turn_as_specified looping yielded waiting].
    specialize (IH g0 (queue_put q e w0)).
    rewrite pending_queue_put in IH.
    destruct (decide (q = q)); [exact IH|congruence].
  - cbn [turn_as_specified looping yielded waiting].
    destruct (gen_running g0) eqn:Hrun.
    + rewrite generate_turn_pass by assumption.
      destruct (pending q w0) as [|e rest] eqn:Hp.
      * rewrite (generate_step_timeout q w0 Hp). cbn [fst snd].
        specialize (IH (mkGenerator true (gen_frames g0 ++ [heartbeat_frame]))
                       w0).
        cbn [gen_running gen_frames] in IH. now rewrite Hp in IH.
      * destruct (generate_step_event q w0 e rest Hp) as (w1 & E & Hp1 & _).
        rewrite E. cbn [fst snd].
        specialize (IH (mkGenerator (negb (is_kind done e))
                                    (gen_frames g0 ++ [data_frame e])) w1).
        cbn [gen_running gen_frames] in IH. now rewrite Hp1 in IH.
    + rewrite generate_turn_stopped by assumption.
      specialize (IH g0 w0). now rewrite Hrun in IH.
Qed.

Lemma timed_pass_pending (q : nat) (now : Q) (arrivals : list TimedPut)
    (g : Generator) (w : World) (e : Event) (rest : list Event) :
  gen_running g = true -> pending q w = e :: rest ->
  exists w1,
    timed_pass q now arrivals (g, w)
    = (now, arrivals,
       (mkGenerator (negb (bool_decide (kind e = done)))
                    (gen_frames g ++ [data_frame e]), w1)) /\
    pending q w1 = rest.
Proof.
  intros Hrun Hp. unfold timed_pass. cbn [snd]. rewrite Hp.
  rewrite generate_turn_pass by assumption.
  destruct (generate_step_event q w e rest Hp) as (w1 & E & Hp1 & _).
  rewrite E. cbn [fst snd]. exists w1. split; [reflexivity|assumption].
Qed.

Lemma timed_pass_woken (q : nat) (now : Q) (a : TimedPut)
    (rest : list TimedPut) (g : Generator) (w : World) :
  gen_running g = true -> pending q w = [] ->
  (put_at a <= now + 120)%Q ->
  exists w1,
    timed_pass q now (a :: rest) (g, w)
    = (if Qle_bool (put_at a) now then now else put_at a, rest,
       (mkGenerator (negb (bool_decide (kind (put_event a) = done)))
                    (gen_frames g ++ [data_frame (put_event a)]), w1)) /\
    pending q w1 = [].
Proof.
  intros Hrun Hp Hle. unfold timed_pass. cbn [snd]. rewrite Hp.
  apply Qle_bool_iff in Hle. unfold get_timeout. rewrite Hle.
  cbn [generate_turn].
  assert (Hp' : pending q (queue_put q (put_event a) w) = [put_event a]).
  { rewrite pending_queue_put, Hp.
    destruct (decide (q = q)); [reflexivity|congruence]. }
  rewrite Hrun.
  destruct (generate_step_event q _ _ _ Hp') as (w1 & E & Hp1 & _).
  rewrite E. exists w1. split; [reflexivity|assumption].
Qed.

Lemma timed_pass_timeout (q : nat) (now : Q) (arrivals : list TimedPut)
    (g : Generator) (w : World) :
  gen_running g = true -> pending q w = [] ->
  Forall (fun a => (now + 120 < put_at a)%Q) arrivals ->
  timed_pass q now arrivals (g, w)
  = ((now + 120)%Q, arrivals,
     (mkGenerator true (gen_frames g ++ [heartbeat_frame]), w)).
Proof.
  intros Hrun Hp Hlate. unfold timed_pass. cbn [snd]. rewrite Hp.
  assert (Hpass : generate_turn q consumer_pass (g, w)
                  = (mkGenerator true (gen_frames g ++ [heartbeat_frame]), w)).
  { rewrite generate_turn_pass by assumption.
    now rewrite (generate_step_timeout q w Hp). }
  destruct arrivals as [|a rest]; [now rewrite Hpass|].
  apply Forall_cons in Hlate as [Ha _].
  destruct (Qle_bool (put_at a) (now + get_timeout)) eqn:E.
  - apply Qle_bool_iff in E. exfalso. apply (Qlt_not_le _ _ Ha). exact E.
  - now rewrite Hpass.
Qed.

Lemma generate_timed_schedule (delays : list Q) (q : nat) (now : Q)
    (arrivals : list TimedPut) (s : Generator * World) :
  exists sched,
    snd (generate_timed delays q now arrivals s) = generate_from q sched s /\
    map put_event arrivals
    = puts sched ++
      map put_event (snd (fst (generate_timed delays q now arrivals s))).
Proof.
  revert now arrivals s. induction delays as [|d ds IH]; intros now arrivals s.
  - exists []. split; reflexivity.
  - cbn [generate_timed]. destruct (gen_running (fst s)) eqn:Hrun;
      [|exists []; split; reflexivity].
    unfold timed_pass.
    destruct (pending q (snd s)) as [|e0 rest0].
    + destruct arrivals as [|a rest].
      * destruct (IH (now + d + get_timeout)%Q []
                     (generate_turn q consumer_pass s)) as (sc & E & P).
        exists (consumer_pass :: sc). split; [exact E|exact P].
      * destruct (Qle_bool (put_at a) (now + d + get_timeout)).
        -- destruct (IH (if Qle_bool (put_at a) (now + d)
                         then (now + d)%Q else put_at a)
                        rest
                        (generate_turn q consumer_pass
                           (generate_turn q (producer_put (put_event a)) s)))
             as (sc & E & P).
           exists (producer_put (put_event a) :: consumer_pass :: sc).
           split; [exact E|]. cbn [map]. rewrite P. reflexivity.
        -- destruct (IH (now + d + get_timeout)%Q (a :: rest)
                        (generate_turn q consumer_pass s)) as (sc & E & P).
           exists (consumer_pass :: sc). split; [exact E|exact P].
    + destruct (IH (now + d)%Q arrivals (generate_turn q consumer_pass s))
        as (sc & E & P).
      exists (consumer_pass :: sc). split; [exact E|exact P].
Qed.

(** C8.  Without a registry entry for the run, the response is the one
    synthetic [error] frame.  With an entry, the response is the generator
    over the run's queue: a pass that finds an event yields it, removes it
    from the head of the queue and goes on unless its kind is [done]; a
    pass that times out on an empty queue yields a heartbeat and goes on.
    Every pass of the loop while it runs is such a pass and appends the
    frame it yields; after the [break] a pass does nothing.  Along any
    schedule of producer puts and generator passes, the generator is the
    loop as the specification words it; the events delivered followed by
    the events still pending are the events that were pending followed by
    those put, in that order, and the generator has stopped exactly if its
    last frame delivered a [done], the only one delivered.  In time: the
    pass does not block when an event is pending; on an empty queue it
    ends with the event of a put made within 120 seconds, at the time of
    the put (at once if the put was made before); when no put is made
    within 120 seconds it ends after 120 seconds with a heartbeat, the
    loop still running; and the passes made in time, whatever time goes
    by between them, are a run of the generator along a schedule that
    puts the events in the order of their times. *)
Theorem stream_delivers_fifo_until_done (run_id : pystr) (w : World)
    (sched : list Turn) :
  match active_runs w !! run_id with
  | None =>
      fst (stream run_id w) = response_body [not_found_frame] /\
      frame_kind not_found_frame = error
  | Some q =>
      fst (stream run_id w) = response_stream q /\
      (forall w0 e rest, pending q w0 = e :: rest ->
         exists w1,
           generate_step q w0
             = (data_frame e, negb (bool_decide (kind e = done)), w1) /\
           pending q w1 = rest) /\
      (forall w0, pending q w0 = [] ->
         generate_step q w0 = (heartbeat_frame, true, w0)) /\
      (let '(g, w') := generate q sched w in
       pending q w ++ puts sched = delivered (gen_frames g) ++ pending q w' /\
       stops_at_done g) /\
      (forall g w0,
         generate_turn q consumer_pass (g, w0) =
         if gen_running g
         then (mkGenerator (snd (fst (generate_step q w0)))
                 (gen_frames g ++ [fst (fst (generate_step q w0))]),
               snd (generate_step q w0))
         else (g, w0)) /\
      (gen_running (fst (generate q sched w))
         = looping (stream_as_specified (pending q w) sched) /\
       gen_frames (fst (generate q sched w))
         = yielded (stream_as_specified (pending q w) sched) /\
       pending q (snd (generate q sched w))
         = waiting (stream_as_specified (pending q w) sched)) /\
      (forall now arrivals g w0 e rest,
         gen_running g = true -> pending q w0 = e :: rest ->
         exists w1,
           timed_pass q now arrivals (g, w0)
           = (now, arrivals,
              (mkGenerator (negb (bool_decide (kind e = done)))
                           (gen_frames g ++ [data_frame e]), w1)) /\
           pending q w1 = rest) /\
      (forall now a later g w0,
         gen_running g = true -> pending q w0 = [] ->
         (put_at a <= now + 120)%Q ->
         exists w1,
           timed_pass q now (a :: later) (g, w0)
           = (if Qle_bool (put_at a) now then now else put_at a, later,
              (mkGenerator (negb (bool_decide (kind (put_event a) = done)))
                           (gen_frames g ++ [data_frame (put_event a)]),
               w1)) /\
           pending q w1 = []) /\
      (forall now arrivals g w0,
         gen_running g = true -> pending q w0 = [] ->
         Forall (fun a => (now + 120 < put_at a)%Q) arrivals ->
         timed_pass q now arrivals (g, w0)
         = ((now + 120)%Q, arrivals,
            (mkGenerator true (gen_frames g ++ [heartbeat_frame]), w0))) /\
      (forall delays now arrivals,
         exists sched',
           snd (generate_timed delays q now arrivals (mkGenerator true [], w))
           = generate q sched' w /\
           map put_event arrivals
           = puts sched' ++
             map put_event
               (snd (fst (generate_timed delays q now arrivals
                            (mkGenerator true [], w)))))
  end.
Proof.
  unfold stream. cbn [log active_runs].
  destruct (active_runs w !! run_id) as [q|].
  - split; [reflexivity|].
    split.
    { intros w0 e rest H.
      destruct (generate_step_event q w0 e rest H) as (w1 & E & Hp & _).
      exists w1. split; assumption. }
    split; [apply generate_step_timeout|].
    split.
    { assert (H0 : stops_at_done (mkGenerator true [])).
      { left. split; [reflexivity|constructor]. }
      pose proof (generate_from_invariant q sched _ w H0) as H.
      unfold generate. unfold generate_from in H.
      destruct (fold_left _ sched _) as [g w'].
      destruct H as (Hs & fs & Hf & Hp). cbn [gen_frames app] in Hf.
      subst fs. split; assumption. }
    split.
    { intros g w0. destruct (gen_running g) eqn:Hrun;
        [now apply generate_turn_pass|now apply generate_turn_stopped]. }
    split.
    { exact (generate_from_as_specified q sched (mkGenerator true []) w). }
    split; [intros; now apply timed_pass_pending|].
    split; [intros; now apply timed_pass_woken|].
    split; [intros; now apply timed_pass_timeout|].
    intros delays now arrivals. apply generate_timed_schedule.
  - split; reflexivity.
Qed.

(* ------------------------------------------------------------------ *)
(** ** The task callback *)

Lemma py_index_in_range {A} (l : list A) (i : Z) :
  0 <= i < len l -> exists x, py_index l i = Some x.
Proof.
  intros H. unfold py_index, len in *.
  replace ((0 <=? i) && (i <? Z.of_nat (length l))) with true
    by (symmetry; apply andb_true_intro; split;
        [apply Z.leb_le|apply Z.ltb_lt]; lia).
  destruct (nth_error l (Z.to_nat i)) as [x|] eqn:E; [now exists x|].
  apply nth_error_None in E. lia.
Qed.

Lemma py_index_some_range {A} (l : list A) (i : Z) (x : A) :
  0 <= i -> py_index l i = Some x -> i < len l.
Proof.
  intros H0 H. unfold py_index, len in *.
  destruct (Z.ltb_spec i (Z.of_nat (length l))) as [Hlt|Hge]; [assumption|].
  rewrite andb_false_r in H.
  replace (i <? 0) with false in H by (symmetry; apply Z.ltb_ge; lia).
  rewrite andb_false_r in H. discriminate.
Qed.

(** Unfolds the monad's operations. *)
Ltac run_monad :=
  repeat progress (cbv beta iota zeta delta
                       [bind gets modify in_world ret or_raise raise raise_if];
                   cbn [fst snd]).

Lemma on_task_done_string (out : TaskOutput) (cb : TaskCallback) (w : World)
    (p : Phase) (c : pystr) :
  0 <= task_counter cb ->
  py_index (cb_phases cb) (task_counter cb) = Some p ->
  content_of p out = PyStr c ->
  _on_task_done out (cb, w) =
  (set_counter (task_counter cb + 1) cb,
   after_task_done cb [phase_complete_event (task_counter cb) p c] w).
Proof.
  intros H0 Hp Hc.
  pose proof (py_index_some_range _ _ _ H0 Hp) as Hlt.
  apply Z.ltb_lt in Hlt.
  unfold _on_task_done, _on_task_done_try, after_task_done.
  run_monad.
  cbn [fst snd]. rewrite Hlt, Hp. cbn [fst snd]. rewrite Hc.
  cbn [slice_8000 py_len fst snd set_counter task_counter cb_phases
       cb_event_queue cb_handler queue_put_all fold_left].
  destruct (task_counter cb + 1 <? len (cb_phases cb)); [|reflexivity].
  destruct (py_index (cb_phases cb) (task_counter cb + 1)); reflexivity.
Qed.

Lemma on_task_done_past_end (out : TaskOutput) (cb : TaskCallback) (w : World) :
  len (cb_phases cb) <= task_counter cb ->
  _on_task_done out (cb, w) =
  (set_counter (task_counter cb + 1) cb, after_task_done cb [] w).
Proof.
  intros Hge.
  assert (H1 : (task_counter cb <? len (cb_phases cb)) = false)
    by (apply Z.ltb_ge; lia).
  assert (H2 : (task_counter cb + 1 <? len (cb_phases cb)) = false)
    by (apply Z.ltb_ge; lia).
  unfold _on_task_done, _on_task_done_try, after_task_done.
  run_monad.
  cbn [fst snd]. rewrite H1. cbn [fst snd set_counter task_counter
    cb_phases cb_event_queue cb_handler queue_put_all fold_left].
  rewrite H2. reflexivity.
Qed.

(** A content that is [None] raises before anything is done; the
    exception is dropped and the callback returns. *)
Lemma on_task_done_none (out : TaskOutput) (cb : TaskCallback) (w : World)
    (p : Phase) :
  0 <= task_counter cb ->
  py_index (cb_phases cb) (task_counter cb) = Some p ->
  content_of p out = PyNone ->
  _on_task_done_try out (cb, w) = (Raised (py "TypeError"), (cb, w)) /\
  _on_task_done out (cb, w) = (cb, w).
Proof.
  intros H0 Hp Hc.
  pose proof (py_index_some_range _ _ _ H0 Hp) as Hlt.
  apply Z.ltb_lt in Hlt.
  unfold _on_task_done, _on_task_done_try.
  run_monad.
  cbn [fst snd]. rewrite Hlt, Hp. cbn [fst snd]. rewrite Hc.
  cbn [slice_8000 fst snd]. split; reflexivity.
Qed.

Lemma set_phase_result (n : Z) (s : HCtx) :
  emitted (set_phase n s) =
    emitted s ++ match chunk_buffer (self s) with
                 | [] => []
                 | _ :: _ => [flush_event (self s) (chunk_buffer (self s))]
                 end /\
  current_phase_index (self (set_phase n s)) = n /\
  chunk_buffer (self (set_phase n s)) = [] /\
  event_queue (self (set_phase n s)) = event_queue (self s).
Proof.
  unfold set_phase. cbn [self emitted current_phase_index chunk_buffer
    event_queue].
  rewrite flush_emitted, flush_buffer_empty, flush_event_queue.
  repeat split.
Qed.

(** What [handler.set_phase(n)] does to the world. *)
Lemma handler_set_phase_fields (hid : nat) (n : Z) (w : World)
    (h : PipelineHandler) :
  handlers w !! hid = Some h ->
  let w' := handler_set_phase hid n w in
  (exists h', handlers w' !! hid = Some h' /\ current_phase_index h' = n /\
              chunk_buffer h' = [] /\ event_queue h' = event_queue h) /\
  (forall hid', hid' <> hid -> handlers w' !! hid' = handlers w !! hid') /\
  (forall q, pending q w' =
             if decide (q = event_queue h)
             then pending q w ++ match chunk_buffer h with
                                 | [] => []
                                 | _ :: _ => [flush_event h (chunk_buffer h)]
                                 end
             else pending q w) /\
  _stdout_interceptor w' = _stdout_interceptor w /\
  _stderr_interceptor w' = _stderr_interceptor w /\
  active_runs w' = active_runs w.
Proof.
  intros Hh. cbv zeta. unfold handler_set_phase.
  destruct (locked_call_fields hid (set_phase n) w h Hh)
    as (_ & Hhs & Hp & Ho & He & Ha & _).
  destruct (set_phase_result n (mkHCtx h (clock w) [])) as (Em & Hi & Hb & Hq).
  unfold method_result in *. cbn [self emitted app] in *.
  split.
  { eexists. rewrite Hhs, lookup_insert_eq. repeat split; assumption. }
  split.
  { intros hid' Hne. rewrite Hhs. now rewrite lookup_insert_ne by congruence. }
  split.
  { intros q. rewrite (Hp q), Em. reflexivity. }
  repeat split; assumption.
Qed.

(** C7.  When a stage of the run completes (the counter [idx] indexes a
    phase), the callback puts a [phase_complete] event for [idx] whose
    content is cut to the first 8000 characters and whose length field is
    that of the whole content, adds one to its counter, calls [set_phase]
    with the new value (which flushes what the handler still holds), and
    puts a [phase_start] event exactly when the new value indexes a phase,
    so none after the last phase.  A content that makes the construction
    of the event raise leaves the callback returning with nothing
    changed. *)
Theorem task_done_emits_complete_then_start (out : TaskOutput)
    (cb : TaskCallback) (w : World) (p : Phase) (h : PipelineHandler) :
  0 <= task_counter cb ->
  py_index (cb_phases cb) (task_counter cb) = Some p ->
  handlers w !! cb_handler cb = Some h ->
  event_queue h = cb_event_queue cb ->
  let idx := task_counter cb in
  let q := cb_event_queue cb in
  match content_of p out with
  | PyNone =>
      fst (_on_task_done_try out (cb, w)) = Raised (py "TypeError") /\
      _on_task_done out (cb, w) = (cb, w)
  | PyStr c =>
      let cb' := fst (_on_task_done out (cb, w)) in
      let w' := snd (_on_task_done out (cb, w)) in
      let complete :=
        ev_phase_complete idx (default [] (phase_id p)) (phase p) (agent p)
                          (firstn (Z.to_nat 8000) c) (len c) (file p) in
      let flushed := match chunk_buffer h with
                     | [] => []
                     | _ :: _ => [flush_event h (chunk_buffer h)]
                     end in
      task_counter cb' = idx + 1 /\
      (exists h', handlers w' !! cb_handler cb = Some h' /\
                  current_phase_index h' = idx + 1 /\ chunk_buffer h' = []) /\
      (length (firstn (Z.to_nat 8000) c) <= Z.to_nat 8000)%nat /\
      if idx + 1 <? len (cb_phases cb)
      then exists np,
             py_index (cb_phases cb) (idx + 1) = Some np /\
             pending q w' = pending q w ++ [complete] ++ flushed
                              ++ [phase_start_event (idx + 1) np]
      else pending q w' = pending q w ++ [complete] ++ flushed
  end.
Proof.
  intros H0 Hp Hh Hq. cbv zeta.
  destruct (content_of p out) as [c|] eqn:Hc.
  2:{ destruct (on_task_done_none out cb w p H0 Hp Hc) as [E1 E2].
      rewrite E1. split; [reflexivity|assumption]. }
  rewrite (on_task_done_string out cb w p c H0 Hp Hc). cbn [fst snd].
  split; [reflexivity|].
  unfold after_task_done. cbn [queue_put_all fold_left].
  set (w1 := queue_put (cb_event_queue cb) _ w).
  assert (Hh1 : handlers w1 !! cb_handler cb = Some h) by exact Hh.
  destruct (handler_set_phase_fields (cb_handler cb) (task_counter cb + 1)
              w1 h Hh1) as ((h' & Hh' & Hi & Hb & _) & _ & Hpend & _).
  specialize (Hpend (cb_event_queue cb)). rewrite Hq in Hpend.
  destruct (decide (cb_event_queue cb = cb_event_queue cb)); [|congruence].
  assert (Hp1 : pending (cb_event_queue cb) w1 =
                pending (cb_event_queue cb) w
                  ++ [phase_complete_event (task_counter cb) p c]).
  { subst w1. rewrite pending_queue_put.
    destruct (decide (cb_event_queue cb = cb_event_queue cb)); congruence. }
  rewrite Hp1 in Hpend.
  set (w2 := handler_set_phase _ _ w1) in *.
  split.
  { exists h'.
    destruct (task_counter cb + 1 <? len (cb_phases cb));
      [destruct (py_index (cb_phases cb) (task_counter cb + 1))|];
      repeat split; assumption. }
  split; [apply firstn_le_length|].
  destruct (Z.ltb_spec (task_counter cb + 1) (len (cb_phases cb))) as [Hlt|Hge].
  - destruct (py_index_in_range (cb_phases cb) (task_counter cb + 1))
      as [np Hnp]; [lia|].
    exists np. split; [assumption|]. rewrite Hnp.
    rewrite pending_queue_put.
    destruct (decide (cb_event_queue cb = cb_event_queue cb)); [|congruence].
    rewrite Hpend, <- !app_assoc. reflexivity.
  - rewrite Hpend, <- !app_assoc. reflexivity.
Qed.

Lemma task_done_emits_complete_then_start_witness :
  task_counter (fst (_on_task_done first_output
                       (first_callback, one_registered))) = 1 /\
  exists np,
    pending O (snd (_on_task_done first_output
                      (first_callback, one_registered))) =
    [ev_phase_complete 0 [] (py "requirement_analysis")
                       (py "Requirement Analyst") (py "spec") 4
                       (py "01_specification.md");
     ev_agent_output 0 (py "a");
     phase_start_event 1 np].
Proof.
  assert (H0 : 0 <= task_counter first_callback) by (cbn; lia).
  assert (Hp : py_index (cb_phases first_callback) (task_counter first_callback)
               = nth_error PHASE_DEFS O) by reflexivity.
  assert (Hh : handlers one_registered !! cb_handler first_callback
               = Some (self one_pending)) by (vm_compute; reflexivity).
  assert (Hq : event_queue (self one_pending) = cb_event_queue first_callback)
    by reflexivity.
  pose proof (task_done_emits_complete_then_start first_output first_callback
                one_registered _ _ H0 Hp Hh Hq) as H.
  cbv zeta in H.
  change (content_of _ first_output) with (PyStr (py "spec")) in H.
  destruct H as (Hc & _ & _ & Hs).
  split; [exact Hc|].
  change (task_counter first_callback + 1 <? len (cb_phases first_callback))
    with true in Hs.
  destruct Hs as (np & _ & Hpend). exists np.
  refine (eq_trans Hpend _).
  change (pending (cb_event_queue first_callback) one_registered)
    with (@nil Event).
  reflexivity.
Defined.

(* ------------------------------------------------------------------ *)
(** ** The phase index along a run of the crew *)

Lemma content_of_string (p : Phase) (out : TaskOutput) :
  raw_of out <> PyNone -> exists c, content_of p out = PyStr c.
Proof.
  intros H. unfold content_of. destruct (extract p); [eauto|].
  destruct (raw_of out); [eauto|congruence].
Qed.










(* ------------------------------------------------------------------ *)
(** ** The worker *)

Lemma assign_phases_ok (env : Env) :
  assign_phases env O PHASE_DEFS = Some (worker_phases env).
Proof. vm_compute. reflexivity. Qed.

Lemma worker_summaries_ok (env : Env) :
  summaries (worker_phases env)
  = Some (default [] (summaries (worker_phases env))).
Proof. vm_compute. reflexivity. Qed.

Lemma worker_first_phase (env : Env) :
  exists p0 id m,
    py_index (worker_phases env) 0 = Some p0 /\
    phase_id p0 = Some id /\ model p0 = Some m.
Proof. do 3 eexists. vm_compute. repeat split. Qed.

Lemma agent_output_benign (e : Event) : is_agent_output e -> benign e.
Proof. unfold is_agent_output, benign. intros ->. split; discriminate. Qed.

Lemma extends_refl (q : nat) (P : Event -> Prop) (w : World) :
  extends q P w w.
Proof. exists []. now rewrite app_nil_r. Qed.

Lemma extends_same (q : nat) (P : Event -> Prop) (w x x' : World) :
  pending q x' = pending q x -> extends q P w x -> extends q P w x'.
Proof. intros E (evs & H & HP). exists evs. now rewrite E. Qed.

Lemma extends_trans (q : nat) (P : Event -> Prop) (w x y : World) :
  extends q P w x -> extends q P x y -> extends q P w y.
Proof.
  intros (e1 & H1 & P1) (e2 & H2 & P2). exists (e1 ++ e2).
  rewrite H2, H1, <- app_assoc. split; [reflexivity|].
  apply Forall_app. now split.
Qed.

Lemma extends_put (q q' : nat) (P : Event -> Prop) (e : Event) (w x : World) :
  P e -> extends q P w x -> extends q P w (queue_put q' e x).
Proof.
  intros He Hx. apply (extends_trans q P w x); [assumption|].
  unfold extends. rewrite pending_queue_put.
  destruct (decide (q = q')).
  - exists [e]. split; [reflexivity|]. now constructor.
  - exists []. now rewrite app_nil_r.
Qed.

Lemma extends_put_all (q q' : nat) (P : Event -> Prop) (es : list Event)
    (w x : World) :
  Forall P es -> extends q P w x -> extends q P w (queue_put_all q' es x).
Proof.
  intros He Hx. apply (extends_trans q P w x); [assumption|].
  unfold extends. rewrite pending_queue_put_all.
  destruct (decide (q = q')).
  - now exists es.
  - exists []. now rewrite app_nil_r.
Qed.

(** The events put by the methods of a handler. *)
Lemma flush_puts (s : HCtx) :
  exists es, emitted (_flush s) = emitted s ++ es /\
             Forall is_agent_output es /\ (length es <= 1)%nat /\
             (chunk_buffer (self s) = [] -> es = []).
Proof.
  rewrite flush_emitted.
  destruct (chunk_buffer (self s)); eexists; split; try reflexivity.
  - repeat split; [constructor|simpl; lia].
  - repeat split; [repeat constructor|simpl; lia|discriminate].
Qed.

Lemma process_puts (text : pystr) (s : HCtx) :
  exists es, emitted (process text s) = emitted s ++ es /\
             Forall is_agent_output es.
Proof.
  destruct (process_conserves text s) as (combs & E & _).
  eexists. split; [exact E|].
  apply List.Forall_forall. intros e He.
  apply in_map_iff in He as (c & <- & _). reflexivity.
Qed.

Lemma set_phase_puts (n : Z) (s : HCtx) :
  exists es, emitted (set_phase n s) = emitted s ++ es /\
             Forall is_agent_output es.
Proof.
  destruct (set_phase_result n s) as (E & _).
  eexists. split; [exact E|].
  destruct (chunk_buffer (self s)); repeat constructor.
Qed.

Lemma extends_locked_call (q : nat) (P : Event -> Prop) (hid : nat)
    (m : HCtx -> HCtx) (w x : World) :
  (forall s, exists es, emitted (m s) = emitted s ++ es /\ Forall P es) ->
  extends q P w x -> extends q P w (locked_call hid m x).
Proof.
  intros Hm Hx. apply (extends_trans q P w x); [assumption|].
  destruct (handlers x !! hid) as [h|] eqn:Hh.
  - destruct (locked_call_fields hid m x h Hh) as (_ & _ & Hp & _).
    unfold extends. rewrite (Hp q). unfold method_result.
    destruct (Hm (mkHCtx h (clock x) [])) as (es & E & HP).
    cbn [emitted app] in E. rewrite E.
    destruct (decide (q = event_queue h)).
    + now exists es.
    + exists []. now rewrite app_nil_r.
  - rewrite locked_call_missing by assumption. apply extends_refl.
Qed.

Lemma extends_set_phase (q : nat) (hid : nat) (n : Z) (w x : World) :
  extends q benign w x -> extends q benign w (handler_set_phase hid n x).
Proof.
  apply extends_locked_call. intros s.
  destruct (set_phase_puts n s) as (es & E & HP). exists es.
  split; [assumption|].
  eapply List.Forall_impl; [|eassumption]. apply agent_output_benign.
Qed.

Lemma extends_process (q : nat) (P : Event -> Prop) (hid : nat)
    (text : pystr) (w x : World) :
  (forall e, is_agent_output e -> P e) ->
  extends q P w x -> extends q P w (handler_process hid text x).
Proof.
  intros HP. unfold handler_process.
  destruct (negb (truthy text)); [auto|].
  apply extends_locked_call. intros s.
  destruct (process_puts text s) as (es & E & Hes). exists es.
  split; [assumption|]. eapply List.Forall_impl; eassumption.
Qed.

Lemma extends_flush_remaining (q : nat) (P : Event -> Prop) (hid : nat)
    (w x : World) :
  (forall e, is_agent_output e -> P e) ->
  extends q P w x -> extends q P w (handler_flush_remaining hid x).
Proof.
  intros HP. apply extends_locked_call. intros s.
  destruct (flush_puts s) as (es & E & Hes & _). exists es.
  split; [assumption|]. eapply List.Forall_impl; eassumption.
Qed.

Lemma pending_forwarded (q : nat) (n : StreamName) (text : pystr) (w : World) :
  pending q (forwarded n text w) = pending q w.
Proof. unfold forwarded. apply pending_set_interceptor. Qed.

Lemma extends_write (q : nat) (P : Event -> Prop) (n : StreamName) (tid : Z)
    (text : pystr) (w x : World) :
  (forall e, is_agent_output e -> P e) ->
  extends q P w x -> extends q P w (snd (write n tid text x)).
Proof.
  intros HP Hx. rewrite write_unfold. cbn [snd].
  assert (H1 : extends q P w
                 (if truthy text
                  then log [acquire (router_lock n); release (router_lock n)]
                           (forwarded n text x)
                  else forwarded n text x)).
  { apply (extends_same q P w x); [|assumption].
    destruct (truthy text); [rewrite pending_log|]; apply pending_forwarded. }
  destruct (_handlers (interceptor n x) !! tid); [|assumption].
  now apply extends_process.
Qed.

Lemma extends_register (q : nat) (P : Event -> Prop) (n : StreamName)
    (tid : Z) (hid : nat) (w x : World) :
  extends q P w x -> extends q P w (register n tid hid x).
Proof.
  apply extends_same. unfold register.
  now rewrite pending_log, pending_set_interceptor, pending_log.
Qed.

Lemma extends_unregister (q : nat) (P : Event -> Prop) (n : StreamName)
    (tid : Z) (w x : World) :
  (forall e, is_agent_output e -> P e) ->
  extends q P w x -> extends q P w (unregister n tid x).
Proof.
  intros HP Hx. unfold unregister.
  apply (extends_same q P w _ _ (pending_log _ _ _)).
  destruct (_handlers _ !! tid).
  - apply extends_flush_remaining; [assumption|].
    apply (extends_same q P w x); [|assumption].
    now rewrite pending_set_interceptor, pending_log.
  - apply (extends_same q P w x); [|assumption].
    now rewrite pending_set_interceptor, pending_log.
Qed.

Lemma registration_put_all (n : StreamName) (q : nat) (es : list Event)
    (w : World) :
  registration n (queue_put_all q es w) = registration n w.
Proof.
  unfold registration.
  destruct (queue_put_all_fields q es w) as (_ & _ & Ho & He & _).
  destruct n; cbn [interceptor]; congruence.
Qed.

Lemma registration_put (n : StreamName) (q : nat) (e : Event) (w : World) :
  registration n (queue_put q e w) = registration n w.
Proof. destruct n; reflexivity. Qed.

Lemma registration_locked_call (n : StreamName) (hid : nat)
    (m : HCtx -> HCtx) (w : World) :
  registration n (locked_call hid m w) = registration n w.
Proof. unfold registration. now rewrite locked_call_interceptor. Qed.

Lemma registration_write (n' n : StreamName) (tid : Z) (text : pystr)
    (w : World) :
  registration n' (snd (write n tid text w)) = registration n' w.
Proof.
  rewrite write_unfold. cbn [snd].
  assert (H1 : registration n'
                 (if truthy text
                  then log [acquire (router_lock n); release (router_lock n)]
                           (forwarded n text w)
                  else forwarded n text w) = registration n' w).
  { unfold registration, forwarded. destruct (truthy text), n, n'; reflexivity. }
  destruct (_handlers (interceptor n w) !! tid); [|assumption].
  unfold handler_process. destruct (negb (truthy text)); [assumption|].
  now rewrite registration_locked_call.
Qed.

Lemma registration_register (n' n : StreamName) (tid : Z) (hid : nat)
    (w : World) :
  registration n' (register n tid hid w) =
  if decide (n = n') then <[tid := hid]> (registration n' w)
  else registration n' w.
Proof. unfold registration, register. destruct n, n'; reflexivity. Qed.

Lemma registration_unregister (n' n : StreamName) (tid : Z) (w : World) :
  registration n' (unregister n tid w) =
  if decide (n = n') then delete tid (registration n' w)
  else registration n' w.
Proof.
  unfold unregister.
  set (w1 := set_interceptor n _ (log [acquire (router_lock n)] w)).
  assert (H1 : registration n' w1 =
               if decide (n = n') then delete tid (registration n' w)
               else registration n' w).
  { subst w1. unfold registration. destruct n, n'; reflexivity. }
  rewrite <- H1.
  destruct (_handlers _ !! tid).
  - unfold handler_flush_remaining.
    transitivity (registration n' (locked_call n0 flush_remaining w1));
      [destruct n'; reflexivity|apply registration_locked_call].
  - destruct n'; reflexivity.
Qed.

(** The world a callback leaves, whether or not it raised: unchanged, or
    the [phase_complete] put (if any), the handler moved to the next
    phase, and the [phase_start] put (if any). *)
Lemma on_task_done_shape (out : TaskOutput) (cb : TaskCallback) (w : World) :
  snd (_on_task_done out (cb, w)) = w \/
  exists es1 es2 n,
    snd (_on_task_done out (cb, w)) =
      queue_put_all (cb_event_queue cb) es2
        (handler_set_phase (cb_handler cb) n
           (queue_put_all (cb_event_queue cb) es1 w)) /\
    Forall benign es1 /\ Forall benign es2.
Proof.
  unfold _on_task_done, _on_task_done_try. run_monad.
  assert (Hb1 : forall i a b c d e f,
            benign (ev_phase_complete i a b c d e f))
    by (intros; split; discriminate).
  assert (Hb2 : forall i a b c d e f, benign (ev_phase_start i a b c d e f))
    by (intros; split; discriminate).
  destruct (task_counter cb <? len (cb_phases cb)).
  - destruct (py_index (cb_phases cb) (task_counter cb)) as [p|];
      [|now left].
    cbn [fst snd].
    destruct (slice_8000 (content_of p out)) as [c8|]; [|now left].
    cbn [fst snd].
    destruct (py_len (content_of p out)) as [n|]; [|now left].
    cbn [fst snd set_counter task_counter].
    right.
    destruct (task_counter cb + 1 <? len (cb_phases cb)).
    + destruct (py_index (cb_phases cb) (task_counter cb + 1)) as [np|].
      * eexists [_], [_], _. cbn [queue_put_all fold_left snd].
        split; [reflexivity|]. split; repeat constructor; discriminate.
      * eexists [_], [], _. cbn [queue_put_all fold_left snd].
        split; [reflexivity|]. split; repeat constructor; discriminate.
    + eexists [_], [], _. cbn [queue_put_all fold_left snd].
      split; [reflexivity|]. split; repeat constructor; discriminate.
  - cbn [fst snd set_counter task_counter]. right.
    destruct (task_counter cb + 1 <? len (cb_phases cb)).
    + destruct (py_index (cb_phases cb) (task_counter cb + 1)) as [np|].
      * eexists [], [_], _. cbn [queue_put_all fold_left snd].
        split; [reflexivity|]. split; repeat constructor; discriminate.
      * eexists [], [], _. cbn [queue_put_all fold_left snd].
        split; [reflexivity|]. split; constructor.
    + eexists [], [], _. cbn [queue_put_all fold_left snd].
      split; [reflexivity|]. split; constructor.
Qed.

Lemma crew_step_extends (q : nat) (tid : Z) (a : CrewAction)
    (cb : TaskCallback) (w x : World) :
  extends q benign w x ->
  extends q benign w (snd (crew_step tid a (cb, x))) /\
  forall n, registration n (snd (crew_step tid a (cb, x))) = registration n x.
Proof.
  intros Hx. destruct a as [n text|out]; cbn [crew_step fst snd].
  - split; [apply extends_write; [apply agent_output_benign|assumption]|].
    intros n'. apply registration_write.
  - destruct (on_task_done_shape out cb x) as [->|(es1 & es2 & n & -> & H1 & H2)].
    + split; [assumption|reflexivity].
    + split.
      * apply extends_put_all; [assumption|].
        apply extends_set_phase. now apply extends_put_all.
      * intros n'. rewrite registration_put_all.
        unfold handler_set_phase.
        now rewrite registration_locked_call, registration_put_all.
Qed.

Lemma kickoff_extends (q : nat) (tid : Z) (acts : list CrewAction)
    (cb : TaskCallback) (w x : World) :
  extends q benign w x ->
  extends q benign w (snd (kickoff tid acts (cb, x))) /\
  forall n, registration n (snd (kickoff tid acts (cb, x))) = registration n x.
Proof.
  revert cb x. induction acts as [|a acts IH]; intros cb x Hx.
  - split; [assumption|reflexivity].
  - change (kickoff tid (a :: acts) (cb, x))
      with (kickoff tid acts (crew_step tid a (cb, x))).
    destruct (crew_step_extends q tid a cb w x Hx) as [H1 R1].
    destruct (crew_step tid a (cb, x)) as [cb1 x1]. cbn [snd] in *.
    destruct (IH cb1 x1 H1) as [H2 R2].
    split; [assumption|]. intros n. now rewrite R2, R1.
Qed.

(** Saving the artifacts prints through the interceptor; the outcome is
    the failure the environment dictates, if any. *)
Lemma save_artifacts_extends (q : nat) (env : Env) (tid : Z) (i : nat)
    (phases : list Phase) (w x : World) :
  extends q benign w x ->
  extends q benign w (snd (save_artifacts env tid i phases x)) /\
  (forall n, registration n (snd (save_artifacts env tid i phases x))
             = registration n x) /\
  match fst (save_artifacts env tid i phases x) with
  | Returned _ => True
  | Raised m => exists j, env_persist_raises env = Some (j, m)
  end.
Proof.
  revert i x. induction phases as [|p ps IH]; intros i x Hx.
  - cbn. repeat split; assumption.
  - cbn [save_artifacts]. run_monad.
    destruct (env_persist_raises env) as [[j m]|] eqn:Ep.
    + destruct (j =? i)%nat.
      * cbn [fst snd]. repeat split; [assumption|]. now exists j.
      * cbn [fst snd].
        set (x1 := snd (write stdout tid [10%N] _)).
        assert (H1 : extends q benign w x1)
          by (subst x1; do 2 (apply extends_write;
                                [apply agent_output_benign|]); assumption).
        destruct (IH (S i) x1 H1) as (H2 & R2 & O2).
        destruct (save_artifacts env tid (S i) ps x1) as [[u|e] x2];
          cbn [fst snd] in *.
        -- repeat split; [assumption|].
           intros n. rewrite R2. subst x1.
           now rewrite !registration_write.
        -- repeat split; [assumption| |assumption].
           intros n. rewrite R2. subst x1.
           now rewrite !registration_write.
    + cbn [fst snd].
      set (x1 := snd (write stdout tid [10%N] _)).
      assert (H1 : extends q benign w x1)
        by (subst x1; do 2 (apply extends_write;
                              [apply agent_output_benign|]); assumption).
      destruct (IH (S i) x1 H1) as (H2 & R2 & O2).
      destruct (save_artifacts env tid (S i) ps x1) as [[u|e] x2];
        cbn [fst snd] in *.
      * repeat split; [assumption|].
        intros n. rewrite R2. subst x1. now rewrite !registration_write.
      * repeat split; [assumption| |assumption].
        intros n. rewrite R2. subst x1. now rewrite !registration_write.
Qed.

Lemma print_exc_extends (q : nat) (tid : Z) (pieces : list pystr)
    (w x : World) :
  extends q benign w x ->
  extends q benign w (snd (print_exc tid pieces x)) /\
  forall n, registration n (snd (print_exc tid pieces x)) = registration n x.
Proof.
  revert x. induction pieces as [|t rest IH]; intros x Hx.
  - split; [assumption|reflexivity].
  - cbn [print_exc]. run_monad.
    destruct (_original (_stderr_interceptor x)) as [c|] eqn:Ho.
    + destruct (console_write t c) as [c'|].
      * cbn [fst snd].
        set (x1 := set_interceptor stderr _ x).
        assert (H1 : extends q benign w x1)
          by (apply (extends_same q benign w x); [reflexivity|assumption]).
        destruct (IH x1 H1) as [H2 R2].
        destruct (print_exc tid rest x1) as [[u|e] x2]; cbn [fst snd] in *;
          (split; [assumption|]); intros n; rewrite R2;
          destruct n; reflexivity.
      * cbn [fst snd]. split; [assumption|reflexivity].
    + cbn [fst snd].
      set (x1 := snd (write stderr tid t x)).
      assert (H1 : extends q benign w x1)
        by (apply extends_write; [apply agent_output_benign|assumption]).
      destruct (IH x1 H1) as [H2 R2].
      destruct (print_exc tid rest x1) as [[u|e] x2]; cbn [fst snd] in *;
        (split; [assumption|]); intros n; rewrite R2;
        apply registration_write.
Qed.

(** What [unregister] does to the queues and to the heap of handlers. *)
Lemma unregister_effect (n : StreamName) (tid : Z) (x : World) :
  match registration n x !! tid with
  | Some hid =>
      match handlers x !! hid with
      | Some h =>
          let s := flush_remaining (mkHCtx h (clock x) []) in
          handlers (unregister n tid x) = <[hid := self s]> (handlers x) /\
          forall q, pending q (unregister n tid x) =
                    if decide (q = event_queue h)
                    then pending q x ++ emitted s else pending q x
      | None =>
          handlers (unregister n tid x) = handlers x /\
          forall q, pending q (unregister n tid x) = pending q x
      end
  | None =>
      handlers (unregister n tid x) = handlers x /\
      forall q, pending q (unregister n tid x) = pending q x
  end.
Proof.
  unfold registration, unregister.
  set (x1 := set_interceptor n _ (log [acquire (router_lock n)] x)).
  assert (Hh : handlers x1 = handlers x) by (subst x1; destruct n; reflexivity).
  assert (Hc : clock x1 = clock x) by (subst x1; destruct n; reflexivity).
  assert (Hp : forall q, pending q x1 = pending q x)
    by (intros q; subst x1; destruct n; reflexivity).
  assert (Hr : _handlers (interceptor n (log [acquire (router_lock n)] x))
               = _handlers (interceptor n x)) by (destruct n; reflexivity).
  rewrite Hr.
  destruct (_handlers (interceptor n x) !! tid) as [hid|].
  - unfold handler_flush_remaining.
    destruct (handlers x !! hid) as [h|] eqn:Hhid.
    + assert (Hh1 : handlers x1 !! hid = Some h) by (now rewrite Hh).
      destruct (locked_call_fields hid flush_remaining x1 h Hh1)
        as (_ & Hhs & Hpend & _).
      unfold method_result in *. rewrite Hc in *.
      cbv zeta. split.
      * cbn [log handlers]. now rewrite Hhs, Hh.
      * intros q. rewrite pending_log, (Hpend q), (Hp q). reflexivity.
    + rewrite locked_call_missing by (now rewrite Hh).
      split; [exact Hh|]. intros q. now rewrite pending_log.
  - split; [exact Hh|]. intros q. now rewrite pending_log.
Qed.

(** The two [unregister] calls put at most one event: the handler is the
    same object in both tables, and the second flush finds its buffer
    empty. *)
Lemma unregistered_posts (q : nat) (tid : Z) (x : World) :
  registration stdout x !! tid = registration stderr x !! tid ->
  exists post,
    pending q (unregistered tid x) = pending q x ++ post /\
    Forall is_agent_output post /\ (length post <= 1)%nat.
Proof.
  intros Hsame. unfold unregistered.
  pose proof (unregister_effect stdout tid x) as H1.
  pose proof (unregister_effect stderr tid (unregister stdout tid x)) as H2.
  rewrite (registration_unregister stderr stdout tid x) in H2.
  destruct (decide (stdout = stderr)) as [?|_]; [discriminate|].
  rewrite <- Hsame in H2.
  destruct (registration stdout x !! tid) as [hid|].
  - destruct (handlers x !! hid) as [h|] eqn:Hh.
    + cbv zeta in H1. destruct H1 as [Hh1 Hp1].
      rewrite Hh1, lookup_insert_eq in H2. cbv zeta in H2.
      destruct H2 as [_ Hp2].
      destruct (flush_puts (mkHCtx h (clock x) [])) as (es & E & Hao & Hlen & _).
      unfold flush_remaining in *. cbn [emitted app] in E.
      rewrite (flush_emitted (mkHCtx _ _ [])) in Hp2.
      cbn [self emitted app] in Hp2.
      rewrite flush_buffer_empty in Hp2.
      rewrite (Hp2 q), (Hp1 q), E.
      rewrite flush_event_queue. cbn [self].
      destruct (decide (q = event_queue h)).
      * exists es. rewrite app_nil_r. repeat split; assumption.
      * exists []. rewrite app_nil_r. repeat split; [constructor|simpl; lia].
    + destruct H1 as [Hh1 Hp1]. rewrite Hh1, Hh in H2.
      destruct H2 as [_ Hp2].
      exists []. rewrite (Hp2 q), (Hp1 q), app_nil_r.
      repeat split; [constructor|simpl; lia].
  - destruct H1 as [Hh1 Hp1]. destruct H2 as [_ Hp2].
    exists []. rewrite (Hp2 q), (Hp1 q), app_nil_r.
    repeat split; [constructor|simpl; lia].
Qed.

Lemma unregistered_registration (n : StreamName) (tid : Z) (x : World) :
  registration n (unregistered tid x) !! tid = None.
Proof.
  unfold unregistered.
  rewrite (registration_unregister n stderr), (registration_unregister _ stdout).
  destruct n.
  - destruct (decide (stderr = stdout)); [discriminate|].
    destruct (decide (stdout = stdout)); [|congruence].
    apply lookup_delete_eq.
  - destruct (decide (stderr = stderr)); [|congruence].
    apply lookup_delete_eq.
Qed.

(** The body of the worker, whatever the collaborators do: it only adds
    events that are neither [error] nor [done] to the queue, it leaves the
    thread with the same entry (or none) in both registration tables, and
    it raises exactly the first failure of the collaborators. *)
Lemma pipeline_body_facts (q : nat) (env : Env) (run_id req : pystr) (tid : Z)
    (hid : nat) (w x : World) :
  extends q benign w x ->
  registration stdout x !! tid = registration stderr x !! tid ->
  extends q benign w (snd (pipeline_body env run_id req q tid hid x)) /\
  registration stdout (snd (pipeline_body env run_id req q tid hid x)) !! tid
    = registration stderr (snd (pipeline_body env run_id req q tid hid x)) !! tid /\
  fst (pipeline_body env run_id req q tid hid x)
    = match first_failure env with
      | Some m => Raised m
      | None => Returned tt
      end.
Proof.
  intros Hx Hreg.
  destruct (worker_first_phase env) as (p0 & id & m & Hp0 & Hid & Hm).
  unfold pipeline_body. run_monad. rewrite assign_phases_ok. run_monad.
  rewrite worker_summaries_ok. run_monad. rewrite Hp0. run_monad.
  rewrite Hid, Hm. run_monad. unfold first_failure, time_time. cbn [fst snd].
  set (x0 := set_clock _ x).
  assert (H0 : extends q benign w x0)
    by (apply (extends_same q benign w x); [reflexivity|assumption]).
  assert (R0 : forall n, registration n x0 = registration n x)
    by (intros n; destruct n; reflexivity).
  destruct (env_makedirs env) as [e|].
  { cbn [fst snd]. repeat split; [assumption|]. now rewrite !R0. }
  cbn [fst snd].
  set (x1 := queue_put q (ev_status _) (queue_put q (ev_pipeline_start _ _ _ _) _)).
  assert (H1 : extends q benign w x1).
  { subst x1. do 2 (apply extends_put; [split; discriminate|]).
    do 2 apply extends_register. assumption. }
  assert (R1 : forall n, registration n x1 !! tid = Some hid).
  { intros n. subst x1. rewrite !registration_put.
    rewrite (registration_register n stderr), (registration_register _ stdout).
    destruct n.
    - destruct (decide (stderr = stdout)); [discriminate|].
      destruct (decide (stdout = stdout)); [|congruence].
      apply lookup_insert_eq.
    - destruct (decide (stderr = stderr)); [|congruence].
      apply lookup_insert_eq. }
  destruct (env_build env) as [e|].
  { cbn [fst snd]. repeat split; [assumption|]. now rewrite !R1. }
  cbn [fst snd].
  set (x2 := snd (kickoff tid (env_kickoff env) _)).
  assert (H2 : extends q benign w x2 /\
               forall n, registration n x2 !! tid = Some hid).
  { subst x2.
    match goal with
    | |- context [kickoff tid ?acts (?cb, ?y)] =>
        destruct (kickoff_extends q tid acts cb w y) as [Ha Hb]
    end.
    - do 2 (apply extends_put; [split; discriminate|]). assumption.
    - split; [assumption|]. intros n. rewrite Hb, !registration_put.
      apply R1. }
  destruct H2 as [H2 R2].
  destruct (env_kickoff_raises env) as [e|].
  { cbn [fst snd]. repeat split; [assumption|]. now rewrite !R2. }
  cbn [fst snd].
  change (unregister stderr tid (unregister stdout tid x2))
    with (unregistered tid x2).
  assert (H3 : extends q benign w (unregistered tid x2)).
  { unfold unregistered.
    do 2 (apply extends_unregister; [apply agent_output_benign|]).
    assumption. }
  destruct (save_artifacts_extends q env tid O (worker_phases env) w _ H3)
    as (H4 & R4 & O4).
  assert (R4' : forall n,
            registration n (snd (save_artifacts env tid 0 (worker_phases env)
                                   (unregistered tid x2))) !! tid = None).
  { intros n. rewrite R4. apply unregistered_registration. }
  destruct (save_artifacts env tid 0 (worker_phases env) (unregistered tid x2))
    as [[u|e] x4]; cbn [fst snd] in *.
  - destruct (env_persist_raises env) as [[j e]|].
    + cbn [fst snd]. repeat split.
      * apply (extends_same q benign w x4); [reflexivity|assumption].
      * transitivity (@None nat); [|symmetry];
          [rewrite <- (R4' stdout)|rewrite <- (R4' stderr)]; reflexivity.
    + cbn [fst snd]. repeat split.
      * apply extends_put; [split; discriminate|].
        apply (extends_same q benign w x4); [reflexivity|assumption].
      * rewrite !registration_put.
        transitivity (@None nat); [|symmetry];
          [rewrite <- (R4' stdout)|rewrite <- (R4' stderr)]; reflexivity.
  - destruct O4 as [j ->]. repeat split; [assumption|].
    now rewrite !R4'.
Qed.

Lemma finally_facts (run_id : pystr) (q : nat) (tid : Z) (y : World) :
  registration stdout y !! tid = registration stderr y !! tid ->
  let w' := run_steps (finally_steps run_id q tid) y in
  registration stdout w' !! tid = None /\
  registration stderr w' !! tid = None /\
  active_runs w' !! run_id = None /\
  exists post,
    pending q w' = pending q y ++ post ++ [ev_done] /\
    Forall is_agent_output post /\ (length post <= 1)%nat.
Proof.
  intros Hreg. cbv zeta.
  change (run_steps (finally_steps run_id q tid) y)
    with (runs_pop run_id (queue_put q ev_done (unregistered tid y))).
  split; [exact (unregistered_registration stdout tid y)|].
  split; [exact (unregistered_registration stderr tid y)|].
  split; [apply lookup_delete_eq|].
  destruct (unregistered_posts q tid y Hreg) as (post & Hp & Hao & Hlen).
  exists post. split; [|split; assumption].
  change (pending q (runs_pop run_id (queue_put q ev_done (unregistered tid y))))
    with (pending q (queue_put q ev_done (unregistered tid y))).
  rewrite pending_queue_put.
  destruct (decide (q = q)); [|congruence].
  now rewrite Hp, <- app_assoc.
Qed.

Lemma benign_not_done (evs : list Event) :
  Forall benign evs -> Forall (fun e => kind e <> done) evs.
Proof. apply List.Forall_impl. now intros e [_ H]. Qed.

Lemma benign_not_error (evs : list Event) :
  Forall benign evs -> Forall (fun e => kind e <> error) evs.
Proof. apply List.Forall_impl. now intros e [H _]. Qed.

Lemma agent_outputs_benign (evs : list Event) :
  Forall is_agent_output evs -> Forall benign evs.
Proof. apply List.Forall_impl. apply agent_output_benign. Qed.

(** C1, amended.  Whatever the body does and wherever it raises, when
    the worker ends the thread is in neither registration table, the run
    is not in the registry, and [done] is the last event on the run's
    queue and the only [done] the worker put.  When no collaborator
    fails, the worker puts no [error] event.  When one fails with message
    [msg] and the exception handler completes, the worker puts exactly
    one [error] event, carrying [msg]; between it and [done] there is at
    most one event, the [agent_output] of the handler's final flush. *)
Theorem worker_always_cleans_up (env : Env) (run_id user_requirement : pystr)
    (q : nat) (tid : Z) (w : World) :
  registration stdout w !! tid = registration stderr w !! tid ->
  let r := fst (run_pipeline_streaming env run_id user_requirement q tid w) in
  let w' := snd (run_pipeline_streaming env run_id user_requirement q tid w) in
  registration stdout w' !! tid = None /\
  registration stderr w' !! tid = None /\
  active_runs w' !! run_id = None /\
  exists evs,
    pending q w' = pending q w ++ evs ++ [ev_done] /\
    Forall (fun e => kind e <> done) evs /\
    match first_failure env with
    | None => r = Returned tt /\ Forall (fun e => kind e <> error) evs
    | Some msg =>
        r = Returned tt ->
        exists pre post,
          evs = pre ++ [ev_error msg] ++ post /\
          Forall (fun e => kind e <> error) pre /\
          Forall is_agent_output post /\ (length post <= 1)%nat
    end.
Proof.
  intros Hreg. cbv zeta. unfold run_pipeline_streaming.
  unfold new_handler, time_time. cbn [fst snd].
  set (hid := fresh (dom (handlers w))).
  set (x := set_handlers _ (set_clock _ w)).
  assert (Hx : extends q benign x x) by apply extends_refl.
  assert (Hpx : pending q x = pending q w) by reflexivity.
  assert (Rx : registration stdout x !! tid = registration stderr x !! tid)
    by exact Hreg.
  destruct (pipeline_body_facts q env run_id user_requirement tid hid x x Hx Rx)
    as (Hb & Rb & Ob).
  destruct (pipeline_body env run_id user_requirement q tid hid x)
    as [[u|e] xb]; cbn [fst snd] in *.
  - destruct (first_failure env) as [m|]; [discriminate|].
    destruct (finally_facts run_id q tid xb Rb)
      as (F1 & F2 & F3 & post & Hp & Hao & Hlen).
    cbv zeta in *.
    split; [assumption|]. split; [assumption|]. split; [assumption|].
    destruct Hb as (evs & Hevs & Hben).
    exists (evs ++ post). split.
    { rewrite Hp, Hevs, Hpx, <- !app_assoc. reflexivity. }
    split.
    { apply Forall_app. split; [now apply benign_not_done|].
      now apply benign_not_done, agent_outputs_benign. }
    split; [reflexivity|].
    apply Forall_app. split; [now apply benign_not_error|].
    now apply benign_not_error, agent_outputs_benign.
  - destruct (first_failure env) as [m|]; [|discriminate].
    assert (m = e) by congruence. subst m.
    unfold except_block. run_monad.
    destruct (print_exc_extends q tid (env_traceback env) x xb Hb) as [He Re].
    destruct (print_exc tid (env_traceback env) xb) as [[u|e'] xp];
      cbn [fst snd] in *.
    + set (y := queue_put q (ev_error e) xp).
      assert (Ry : registration stdout y !! tid = registration stderr y !! tid).
      { subst y. rewrite !registration_put, !Re. exact Rb. }
      destruct (finally_facts run_id q tid y Ry)
        as (F1 & F2 & F3 & post & Hp & Hao & Hlen).
      cbv zeta in *.
      split; [assumption|]. split; [assumption|]. split; [assumption|].
      destruct He as (evs & Hevs & Hben).
      exists (evs ++ [ev_error e] ++ post). split.
      { rewrite Hp. subst y. rewrite pending_queue_put.
        destruct (decide (q = q)); [|congruence].
        rewrite Hevs, Hpx, <- !app_assoc. reflexivity. }
      split.
      { apply Forall_app. split; [now apply benign_not_done|].
        apply Forall_app. split; [repeat constructor; discriminate|].
        now apply benign_not_done, agent_outputs_benign. }
      intros _. exists evs, post.
      split; [reflexivity|]. split; [now apply benign_not_error|].
      split; assumption.
    + assert (Ry : registration stdout xp !! tid = registration stderr xp !! tid)
        by (rewrite !Re; exact Rb).
      destruct (finally_facts run_id q tid xp Ry)
        as (F1 & F2 & F3 & post & Hp & Hao & Hlen).
      cbv zeta in *.
      split; [assumption|]. split; [assumption|]. split; [assumption|].
      destruct He as (evs & Hevs & Hben).
      exists (evs ++ post). split.
      { rewrite Hp, Hevs, Hpx, <- !app_assoc. reflexivity. }
      split.
      { apply Forall_app. split; [now apply benign_not_done|].
        now apply benign_not_done, agent_outputs_benign. }
      intros H. discriminate H.
Qed.

(** Running only the worker through an ending executes the [finally]
    block as [run_steps] does. *)
Lemma ending_worker_alone (q : nat) (steps : list (World -> World))
    (g : Generator) (w : World) :
  end_world (ending q (map (fun _ => worker_thread) steps)
                    (mkEnding steps g w)) = run_steps steps w.
Proof.
  revert w. induction steps as [|f steps IH]; intros w; [reflexivity|].
  cbn [map]. unfold ending, run_steps in *. cbn [fold_left ending_turn end_todo
    end_gen end_world]. apply IH.
Qed.

(** C1 as stated fails twice.  After a failure of the crew the queue ends
    with [error], the [agent_output] of the final flush, [done]: the
    [error] event is not the one before [done].  And the stream can
    deliver [done] and stop while the registry still holds the run. *)
Lemma error_then_output_then_done :
  fst failed_run = Returned tt /\
  first_failure failing_env = Some (py "model crashed") /\
  skipn 4 (pending O (snd failed_run)) =
    [ev_error (py "model crashed"); ev_agent_output 0 (py "boom"); ev_done] /\
  gen_frames (end_gen done_before_removal) = [data_frame ev_done] /\
  gen_running (end_gen done_before_removal) = false /\
  active_runs (end_world done_before_removal) !! py "run-1" = Some O.
Proof. vm_compute. repeat split. Qed.

Lemma worker_always_cleans_up_witness :
  registration stdout started_world !! 7
    = registration stderr started_world !! 7 /\
  active_runs (snd failed_run) !! py "run-1" = None /\
  exists evs pre post,
    pending O (snd failed_run) = evs ++ [ev_done] /\
    evs = pre ++ [ev_error (py "model crashed")] ++ post /\
    (length post <= 1)%nat.
Proof.
  assert (H : registration stdout started_world !! 7
              = registration stderr started_world !! 7) by reflexivity.
  split; [exact H|].
  destruct (worker_always_cleans_up failing_env (py "run-1") (py "X") O 7
              started_world H) as (_ & _ & Ha & evs & Hp & _ & Hm).
  split; [exact Ha|].
  change (first_failure failing_env) with (Some (py "model crashed")) in Hm.
  destruct (Hm eq_refl) as (pre & post & He & _ & _ & Hl).
  exists evs, pre, post. repeat split; assumption.
Defined.

(* ================================================================== *)
(** * Further properties *)

(** ** The buffer of a handler *)

Lemma strip_nonempty_nonempty (f : pystr) : strip f <> [] -> f <> [].
Proof. intros H ->. now apply H. Qed.

Lemma concat_nonempty (fs : list pystr) :
  fs <> [] -> Forall clean_fragment fs -> concat fs <> [].
Proof.
  destruct fs as [|f fs]; [congruence|]. intros _ H.
  inversion H as [|? ? [Hf _] _]; subst.
  cbn [concat]. destruct f; [now elim Hf|discriminate].
Qed.

Lemma last_chars_bounds (s : pystr) :
  s <> [] -> (1 <= length (last_chars (Z.to_nat 4000) s) <= 4000)%nat.
Proof.
  intros H. rewrite last_chars_length.
  destruct s; [congruence|]. cbn [length].
  change (Z.to_nat 4000) with 4000%nat. lia.
Qed.

Lemma concat_no_glyph (fs : list pystr) :
  Forall clean_fragment fs ->
  forallb (fun c => negb (is_box_glyph c)) (concat fs) = true.
Proof.
  induction 1 as [|f fs [_ Hf] _ IH]; [reflexivity|].
  cbn [concat]. rewrite forallb_app, Hf, IH. reflexivity.
Qed.

Lemma last_chars_no_glyph (n : nat) (s : pystr) :
  forallb (fun c => negb (is_box_glyph c)) s = true ->
  forallb (fun c => negb (is_box_glyph c)) (last_chars n s) = true.
Proof.
  intros H. rewrite <- (last_chars_suffix n s), forallb_app in H.
  now apply andb_prop in H as [_ H].
Qed.

Lemma flush_bounded (s : HCtx) :
  Forall clean_fragment (chunk_buffer (self s)) ->
  exists es, emitted (_flush s) = emitted s ++ es /\ Forall bounded_output es /\
             well_buffered (self (_flush s)).
Proof.
  intros Hw. rewrite flush_emitted.
  assert (Hwb : well_buffered (self (_flush s))).
  { unfold well_buffered. rewrite flush_buffer_empty.
    split; [simpl; lia|constructor]. }
  destruct (chunk_buffer (self s)) as [|f fs] eqn:E.
  - exists []. repeat split; [constructor|apply Hwb|apply Hwb].
  - eexists. split; [reflexivity|]. split; [|exact Hwb].
    constructor; [|constructor]. unfold flush_event. do 2 eexists.
    split; [reflexivity|]. split.
    + apply last_chars_bounds.
      apply concat_nonempty; [discriminate|assumption].
    + apply last_chars_no_glyph, concat_no_glyph. assumption.
Qed.

Lemma clean_fragment_clean (text : pystr) :
  truthy (strip (_clean text)) = true -> clean_fragment (_clean text).
Proof.
  intros H. split; [|apply clean_no_glyph].
  destruct (strip (_clean text)); [discriminate|discriminate].
Qed.

Lemma run_call_bounded (c : HandlerCall) (s : HCtx) :
  well_buffered (self s) ->
  exists es, emitted (run_call c s) = emitted s ++ es /\
             Forall bounded_output es /\ well_buffered (self (run_call c s)).
Proof.
  intros [Hlen Hfr]. destruct c as [text|n|]; cbn [run_call].
  - rewrite process_unfold.
    destruct (truthy (strip (_clean text))) eqn:Ht.
    + cbv zeta.
      set (s' := mkHCtx _ _ (emitted s)).
      assert (Hfr' : Forall clean_fragment (chunk_buffer (self s'))).
      { subst s'. cbn [self chunk_buffer]. apply Forall_app.
        split; [assumption|].
        constructor; [now apply clean_fragment_clean|constructor]. }
      destruct (Qltb _ _ || (4 <=? _)%nat) eqn:Hc.
      * destruct (flush_bounded s' Hfr') as (es & E & Hb & Hw).
        exists es. repeat split; try assumption; apply Hw.
      * exists []. rewrite app_nil_r. split; [reflexivity|].
        split; [constructor|]. split; [|assumption].
        apply orb_false_elim in Hc as [_ Hc].
        apply Nat.leb_gt in Hc. exact Hc.
    + exists []. rewrite app_nil_r.
      repeat split; [constructor|assumption|assumption].
  - unfold set_phase. destruct (flush_bounded s Hfr) as (es & E & Hb & Hw).
    exists es. cbn [emitted self]. split; [assumption|]. split; [assumption|].
    unfold well_buffered. cbn [chunk_buffer]. exact Hw.
  - unfold flush_remaining. destruct (flush_bounded s Hfr) as (es & E & Hb & Hw).
    exists es. repeat split; try assumption; apply Hw.
Qed.

Lemma run_calls_bounded (cs : list HandlerCall) (s : HCtx) :
  well_buffered (self s) ->
  well_buffered (self (run_calls cs s)) /\
  exists es, emitted (run_calls cs s) = emitted s ++ es /\
             Forall bounded_output es.
Proof.
  revert s. induction cs as [|c cs IH]; intros s Hw.
  - split; [assumption|]. exists []. now rewrite app_nil_r.
  - change (run_calls (c :: cs) s) with (run_calls cs (run_call c s)).
    destruct (run_call_bounded c s Hw) as (e1 & E1 & B1 & W1).
    destruct (IH _ W1) as (W2 & e2 & E2 & B2).
    split; [assumption|]. exists (e1 ++ e2).
    rewrite E2, E1, <- app_assoc. split; [reflexivity|].
    apply Forall_app. now split.
Qed.

(** X1.  Whatever methods are called on a handler, in whatever order and
    at whatever times, between two calls its buffer holds fewer than 4
    fragments, none of them blank and none with a glyph of the table: the
    count threshold of [process] bounds what a handler keeps. *)
Theorem handler_buffer_stays_small (cs : list HandlerCall) (s : HCtx) :
  well_buffered (self s) -> well_buffered (self (run_calls cs s)).
Proof. intros Hw. apply (run_calls_bounded cs s Hw). Qed.

Lemma handler_buffer_stays_small_witness :
  well_buffered (self fresh_ctx) /\
  well_buffered (self (run_calls busy_calls fresh_ctx)).
Proof.
  split; [split; [simpl; lia|constructor]|].
  apply (handler_buffer_stays_small busy_calls fresh_ctx).
  split; [simpl; lia|constructor].
Defined.

(** X2.  Whatever methods are called on a handler, every event it puts on
    its queue is an [agent_output] whose text is not empty, has at most
    4000 characters and holds no glyph of the table. *)
Theorem agent_output_text_bounded (cs : list HandlerCall) (s : HCtx) :
  well_buffered (self s) ->
  exists es, emitted (run_calls cs s) = emitted s ++ es /\
             Forall bounded_output es.
Proof. intros Hw. apply (run_calls_bounded cs s Hw). Qed.

Lemma agent_output_text_bounded_witness :
  well_buffered (self fresh_ctx) /\
  exists es, emitted (run_calls busy_calls fresh_ctx)
             = emitted fresh_ctx ++ es /\
             Forall bounded_output es.
Proof.
  split; [split; [simpl; lia|constructor]|].
  apply (agent_output_text_bounded busy_calls fresh_ctx).
  split; [simpl; lia|constructor].
Defined.

(** ** Cleaning *)

Lemma sub_sgr_length (k : nat) (s : pystr) :
  (length (sub_sgr k s) <= length s)%nat.
Proof.
  revert k. induction s as [|c r IH]; intros k; [simpl; lia|].
  cbn [sub_sgr length]. destruct k as [|k].
  - destruct (match_sgr (c :: r)) as [n|].
    + specialize (IH (n - 1)%nat). lia.
    + cbn [length]. specialize (IH O). lia.
  - specialize (IH k). lia.
Qed.

(** The characters kept by the removal of the colour sequences are
    characters of the text, in their order. *)
Lemma sub_sgr_sublist (k : nat) (s : pystr) : sublist (sub_sgr k s) s.
Proof.
  revert k. induction s as [|c r IH]; intros k; [constructor|].
  cbn [sub_sgr]. destruct k as [|k].
  - destruct (match_sgr (c :: r)) as [n|].
    + apply sublist_cons, IH.
    + apply sublist_skip, IH.
  - apply sublist_cons, IH.
Qed.

(** X3.  Cleaning only deletes characters and replaces glyphs of the
    table: the result is never longer than the text, it is a subsequence
    of the text with the glyphs replaced one for one, and a text with no
    escape character and no glyph of the table comes back unchanged. *)
Theorem clean_never_grows (text : pystr) :
  (length (_clean text) <= length text)%nat /\
  (exists kept, sublist kept text /\ _clean text = map subst_glyph kept) /\
  (forallb (fun c => negb (c =? ESC)%N && negb (is_box_glyph c)) text = true ->
   _clean text = text).
Proof.
  rewrite clean_unfold. split.
  { rewrite length_map. apply sub_sgr_length. }
  split.
  { exists (sub_sgr O text). split; [apply sub_sgr_sublist|reflexivity]. }
  intros H.
  assert (H1 : forallb (fun c => negb (c =? ESC)%N) text = true).
  { apply forallb_forall. intros c Hc.
    rewrite forallb_forall in H. specialize (H c Hc).
    now apply andb_prop in H as [? _]. }
  rewrite (sub_sgr_no_esc _ H1).
  rewrite <- (map_id text) at 2. apply map_ext_in. intros c Hc.
  rewrite forallb_forall in H. specialize (H c Hc).
  apply andb_prop in H as [_ H]. apply negb_true_iff in H.
  now apply subst_glyph_other.
Qed.

(** ** Registration and unregistration *)

Lemma register_fields (n : StreamName) (tid : Z) (hid : nat) (w : World) :
  handlers (register n tid hid w) = handlers w /\
  queues (register n tid hid w) = queues w /\
  clock (register n tid hid w) = clock w /\
  active_runs (register n tid hid w) = active_runs w /\
  _original (interceptor n (register n tid hid w)) = _original (interceptor n w).
Proof. unfold register. destruct n; repeat split. Qed.

(** X4.  A second registration for a thread replaces the first without
    a flush, and the unregistration flushes the handler registered last
    only: the replaced handler is left as it was, buffer included, and
    its queue receives nothing (unless the two share the queue). *)
Theorem replaced_handler_never_flushed (n : StreamName) (tid : Z)
    (h1 h2 : nat) (w : World) (a : PipelineHandler) :
  h1 <> h2 ->
  handlers w !! h1 = Some a ->
  let w' := unregister n tid (register n tid h2 (register n tid h1 w)) in
  registration n w' !! tid = None /\
  handlers w' !! h1 = Some a /\
  ((forall b, handlers w !! h2 = Some b -> event_queue b <> event_queue a) ->
   pending (event_queue a) w' = pending (event_queue a) w).
Proof.
  intros Hne Ha. cbv zeta.
  set (x := register n tid h2 (register n tid h1 w)).
  assert (Hr : registration n x = <[tid := h2]> (registration n w)).
  { subst x. rewrite !registration_register.
    destruct (decide (n = n)); [|congruence]. apply insert_insert_eq. }
  assert (Hh : handlers x = handlers w).
  { subst x.
    destruct (register_fields n tid h2 (register n tid h1 w)) as (-> & _).
    now destruct (register_fields n tid h1 w) as (-> & _). }
  assert (Hq : forall q, pending q x = pending q w).
  { intros q. subst x. unfold pending.
    destruct (register_fields n tid h2 (register n tid h1 w)) as (_ & -> & _).
    now destruct (register_fields n tid h1 w) as (_ & -> & _). }
  split.
  { rewrite registration_unregister, Hr.
    destruct (decide (n = n)); [|congruence]. apply lookup_delete_eq. }
  pose proof (unregister_effect n tid x) as He.
  rewrite Hr, lookup_insert_eq, Hh in He.
  destruct (handlers w !! h2) as [b|] eqn:Hb.
  - cbv zeta in He. destruct He as [He Hp]. split.
    + rewrite He, lookup_insert_ne by congruence. exact Ha.
    + intros Hd. rewrite Hp, Hq.
      destruct (decide (event_queue a = event_queue b)) as [E|]; [|reflexivity].
      exfalso. apply (Hd b eq_refl). congruence.
  - destruct He as [He Hp]. split; [now rewrite He|].
    intros _. now rewrite Hp, Hq.
Qed.

Lemma replaced_handler_never_flushed_witness :
  1%nat <> 0%nat /\
  handlers two_handlers !! 1%nat = Some (self one_pending) /\
  handlers (unregister stdout 7 (register stdout 7 O
              (register stdout 7 1%nat two_handlers))) !! 1%nat
  = Some (self one_pending).
Proof.
  split; [discriminate|]. split; [reflexivity|].
  apply (replaced_handler_never_flushed stdout 7 1%nat O two_handlers
           (self one_pending)); [discriminate|reflexivity].
Defined.

(** X5.  Registration followed by unregistration: the thread's entry is gone,
    the other entries are as before, and what the handler had buffered
    is on its queue as one event. *)
Theorem unregister_after_register_flushes (n : StreamName) (tid : Z)
    (hid : nat) (w : World) (h : PipelineHandler) :
  handlers w !! hid = Some h ->
  let w' := unregister n tid (register n tid hid w) in
  registration n w' = delete tid (registration n w) /\
  (exists h', handlers w' !! hid = Some h' /\ chunk_buffer h' = [] /\
              current_phase_index h' = current_phase_index h) /\
  pending (event_queue h) w' =
    pending (event_queue h) w ++
    match chunk_buffer h with
    | [] => []
    | _ :: _ => [flush_event h (chunk_buffer h)]
    end /\
  (forall q, q <> event_queue h -> pending q w' = pending q w).
Proof.
  intros Hh. cbv zeta.
  split.
  { rewrite registration_unregister, registration_register.
    destruct (decide (n = n)); [|congruence]. apply delete_insert_eq. }
  pose proof (unregister_effect n tid (register n tid hid w)) as He.
  rewrite registration_register in He.
  destruct (decide (n = n)); [|congruence].
  rewrite lookup_insert_eq in He.
  destruct (register_fields n tid hid w) as (Hhs & Hqs & Hc & _).
  rewrite Hhs, Hh in He. cbv zeta in He. destruct He as [Hh' Hp].
  rewrite Hc in *. unfold flush_remaining in *.
  rewrite flush_emitted in Hp. cbn [emitted self app] in Hp.
  split.
  { eexists. rewrite Hh', lookup_insert_eq. split; [reflexivity|].
    rewrite flush_buffer_empty, flush_phase_index. split; reflexivity. }
  assert (Hpr : forall q, pending q (register n tid hid w) = pending q w)
    by (intros q; unfold pending; now rewrite Hqs).
  split.
  - rewrite (Hp (event_queue h)), Hpr.
    destruct (decide (event_queue h = event_queue h)); [reflexivity|congruence].
  - intros q Hne. rewrite (Hp q), Hpr.
    destruct (decide (q = event_queue h)); [congruence|reflexivity].
Qed.

Lemma unregister_after_register_flushes_witness :
  handlers two_handlers !! 1%nat = Some (self one_pending) /\
  pending O (unregister stdout 7 (register stdout 7 1%nat two_handlers))
  = pending O two_handlers ++ [flush_event (self one_pending) [py "a"]].
Proof.
  split; [reflexivity|].
  apply (unregister_after_register_flushes stdout 7 1%nat two_handlers
           (self one_pending)).
  reflexivity.
Defined.

(** ** Isolation of the queues *)

(** What [write] does to the heap of handlers and to the queues. *)
Lemma write_effect (n : StreamName) (tid : Z) (text : pystr) (w : World) :
  let w' := snd (write n tid text w) in
  (forall n', registration n' w' = registration n' w) /\
  match registration n w !! tid with
  | Some hid =>
      match handlers w !! hid with
      | Some h =>
          let s := process text (mkHCtx h (clock w) []) in
          handlers w' = <[hid := self s]> (handlers w) /\
          forall q, pending q w' =
                    if decide (q = event_queue h)
                    then pending q w ++ emitted s else pending q w
      | None => handlers w' = handlers w /\
                forall q, pending q w' = pending q w
      end
  | None => handlers w' = handlers w /\ forall q, pending q w' = pending q w
  end.
Proof.
  cbv zeta. split; [intros n'; apply registration_write|].
  rewrite write_unfold. cbn [snd]. unfold registration.
  set (w1 := if truthy text then _ else _).
  assert (Hh : handlers w1 = handlers w)
    by (subst w1; unfold forwarded; destruct (truthy text), n; reflexivity).
  assert (Hc : clock w1 = clock w)
    by (subst w1; unfold forwarded; destruct (truthy text), n; reflexivity).
  assert (Hp : forall q, pending q w1 = pending q w)
    by (intros q; subst w1; unfold forwarded; destruct (truthy text), n;
        reflexivity).
  destruct (_handlers (interceptor n w) !! tid) as [hid|]; [|now split].
  destruct (handlers w !! hid) as [h|] eqn:Hhid.
  - cbv zeta. destruct text as [|c r].
    + rewrite handler_process_empty. cbn [process truthy negb self emitted].
      split; [now rewrite Hh, insert_id|].
      intros q. rewrite Hp, app_nil_r. now destruct (decide _).
    + rewrite handler_process_nonempty by discriminate.
      assert (Hh1 : handlers w1 !! hid = Some h) by (now rewrite Hh).
      destruct (locked_call_fields hid (process (c :: r)) w1 h Hh1)
        as (_ & Hhs & Hpend & _).
      unfold method_result in *. rewrite Hc in *.
      split; [now rewrite Hhs, Hh|].
      intros q. rewrite (Hpend q), Hp. reflexivity.
  - unfold handler_process. destruct (negb (truthy text)); [now split|].
    rewrite locked_call_missing by (now rewrite Hh). now split.
Qed.

Lemma written_by_cons (tid : Z) (c : WriteCall) (ws : list WriteCall) :
  written_by tid (c :: ws) =
  (if bool_decide (wc_thread c = tid) then [wc_text c] else [])
  ++ written_by tid ws.
Proof.
  unfold written_by. cbn [List.filter].
  destruct (bool_decide (wc_thread c = tid)); reflexivity.
Qed.

(** X6.  While a thread is the only one registered with a handler, and
    the handler the only one on its queue, the writes of all threads to
    both streams put on that queue the text written by this thread and no
    other: the flushed texts followed by the buffer are what the handler
    had buffered followed by what the thread wrote and [process] accepted,
    in order, and every event carries the handler's phase index. *)
Theorem queue_receives_only_own_thread (ws : list WriteCall) (w : World)
    (tid : Z) (hid : nat) (h : PipelineHandler) :
  handlers w !! hid = Some h ->
  (forall n t, registration n w !! t = Some hid <-> t = tid) ->
  (forall hid' h', handlers w !! hid' = Some h' ->
                   event_queue h' = event_queue h -> hid' = hid) ->
  exists h' combs,
    handlers (run_writes ws w) !! hid = Some h' /\
    pending (event_queue h) (run_writes ws w) =
      pending (event_queue h) w ++
      map (fun c => ev_agent_output (current_phase_index h)
                      (last_chars (Z.to_nat 4000) c)) combs /\
    concat combs ++ concat (chunk_buffer h') =
      concat (chunk_buffer h) ++ concat (accepted (written_by tid ws)).
Proof.
  revert w h. induction ws as [|c ws IH]; intros w h Hh Hreg Hq.
  - exists h, []. cbn. rewrite !app_nil_r. repeat split. assumption.
  - change (run_writes (c :: ws) w)
      with (run_writes ws (snd (write (wc_stream c) (wc_thread c) (wc_text c) w))).
    destruct (write_effect (wc_stream c) (wc_thread c) (wc_text c) w)
      as [Hr He]. cbv zeta in *.
    set (w1 := snd (write (wc_stream c) (wc_thread c) (wc_text c) w)) in *.
    rewrite written_by_cons.
    destruct (registration (wc_stream c) w !! wc_thread c) as [hid'|] eqn:Er.
    + destruct (decide (hid' = hid)) as [->|Hne].
      * (* the run's own thread writes *)
        assert (Ht : wc_thread c = tid) by (now apply (Hreg (wc_stream c))).
        rewrite Hh in He. cbv zeta in He. destruct He as [Hhs Hp].
        rewrite bool_decide_eq_true_2 by assumption.
        set (s := process (wc_text c) (mkHCtx h (clock w) [])) in *.
        destruct (process_conserves (wc_text c) (mkHCtx h (clock w) []))
          as (c1 & E1 & B1). fold s in E1, B1. cbn [emitted self app] in E1, B1.
        assert (Hh1 : handlers w1 !! hid = Some (self s))
          by (rewrite Hhs; apply lookup_insert_eq).
        assert (Hq1 : event_queue (self s) = event_queue h)
          by (subst s; now rewrite process_event_queue).
        assert (Hi1 : current_phase_index (self s) = current_phase_index h)
          by (subst s; now rewrite process_phase_index).
        destruct (IH w1 (self s) Hh1) as (h' & c2 & Hh' & Hp2 & B2).
        { intros n t. rewrite Hr. apply Hreg. }
        { intros hid' h' Hl Hqe. rewrite Hhs in Hl.
          destruct (decide (hid' = hid)) as [|Hn]; [assumption|].
          rewrite lookup_insert_ne in Hl by congruence.
          apply (Hq hid' h' Hl). congruence. }
        exists h', (c1 ++ c2). split; [assumption|]. split.
        -- rewrite Hq1, Hi1 in Hp2. rewrite Hp2, (Hp (event_queue h)).
           destruct (decide (event_queue h = event_queue h)); [|congruence].
           rewrite E1, map_app, <- app_assoc. reflexivity.
        -- cbn [app]. rewrite accepted_cons, !concat_app.
           rewrite <- app_assoc, B2, !app_assoc, B1. reflexivity.
      * (* another handler is called *)
        assert (Ht : wc_thread c <> tid).
        { intros E. apply Hne. apply (Hreg (wc_stream c)) in E.
          rewrite E in Er. congruence. }
        rewrite bool_decide_eq_false_2 by assumption. cbn [app].
        destruct (handlers w !! hid') as [h0|] eqn:H0.
        -- cbv zeta in He. destruct He as [Hhs Hp].
           assert (Hh1 : handlers w1 !! hid = Some h)
             by (rewrite Hhs, lookup_insert_ne by congruence; assumption).
           destruct (IH w1 h Hh1) as (h' & c2 & Hh' & Hp2 & B2).
           { intros n t. rewrite Hr. apply Hreg. }
           { intros hid2 h2 Hl Hqe. rewrite Hhs in Hl.
             destruct (decide (hid2 = hid')) as [->|Hn].
             - rewrite lookup_insert_eq in Hl. inversion Hl; subst h2.
               rewrite process_event_queue in Hqe. cbn [self] in Hqe.
               exact (Hq hid' h0 H0 Hqe).
             - rewrite lookup_insert_ne in Hl by congruence.
               exact (Hq hid2 h2 Hl Hqe). }
           exists h', c2. split; [assumption|]. split; [|assumption].
           rewrite Hp2, (Hp (event_queue h)).
           destruct (decide (event_queue h = event_queue h0)) as [E|_];
             [|reflexivity].
           exfalso. apply Hne. symmetry in E. exact (Hq hid' h0 H0 E).
        -- destruct He as [Hhs Hp].
           assert (Hh1 : handlers w1 !! hid = Some h) by (now rewrite Hhs).
           destruct (IH w1 h Hh1) as (h' & c2 & Hh' & Hp2 & B2).
           { intros n t. rewrite Hr. apply Hreg. }
           { intros hid2 h2 Hl. rewrite Hhs in Hl. now apply Hq. }
           exists h', c2. split; [assumption|]. split; [|assumption].
           now rewrite Hp2, Hp.
    + destruct He as [Hhs Hp].
      assert (Ht : wc_thread c <> tid).
      { intros E. apply (Hreg (wc_stream c)) in E. congruence. }
      rewrite bool_decide_eq_false_2 by assumption. cbn [app].
      assert (Hh1 : handlers w1 !! hid = Some h) by (now rewrite Hhs).
      destruct (IH w1 h Hh1) as (h' & c2 & Hh' & Hp2 & B2).
      { intros n t. rewrite Hr. apply Hreg. }
      { intros hid2 h2 Hl. rewrite Hhs in Hl. now apply Hq. }
      exists h', c2. split; [assumption|]. split; [|assumption].
      now rewrite Hp2, Hp.
Qed.

Lemma queue_receives_only_own_thread_witness :
  handlers one_worker !! O = Some (self fresh_ctx) /\
  (forall n t, registration n one_worker !! t = Some O <-> t = 7) /\
  (forall hid' h', handlers one_worker !! hid' = Some h' ->
                   event_queue h' = event_queue (self fresh_ctx) ->
                   hid' = O) /\
  exists h' combs,
    handlers (run_writes mixed_writes one_worker) !! O = Some h' /\
    pending (event_queue (self fresh_ctx)) (run_writes mixed_writes one_worker) =
      pending (event_queue (self fresh_ctx)) one_worker ++
      map (fun c => ev_agent_output (current_phase_index (self fresh_ctx))
                      (last_chars (Z.to_nat 4000) c)) combs /\
    concat combs ++ concat (chunk_buffer h') =
      concat (chunk_buffer (self fresh_ctx)) ++
      concat (accepted (written_by 7 mixed_writes)).
Proof.
  assert (H2 : forall n t, registration n one_worker !! t = Some O <-> t = 7).
  { intros n t.
    assert (E : registration n one_worker = {[ 7 := O ]})
      by (destruct n; reflexivity).
    rewrite E, lookup_singleton_Some. intuition congruence. }
  assert (H3 : forall hid' h', handlers one_worker !! hid' = Some h' ->
                 event_queue h' = event_queue (self fresh_ctx) -> hid' = O).
  { intros hid' h' H _.
    change (handlers one_worker) with ({[ O := self fresh_ctx ]}
                                        : gmap nat PipelineHandler) in H.
    apply lookup_singleton_Some in H. symmetry. apply H. }
  split; [reflexivity|]. split; [exact H2|]. split; [exact H3|].
  apply (queue_receives_only_own_thread mixed_writes one_worker 7 O
           (self fresh_ctx)); [reflexivity|exact H2|exact H3].
Defined.

(** ** Control events of the crew *)

Lemma control_app (a b : list Event) : control (a ++ b) = control a ++ control b.
Proof. unfold control. apply List.filter_app. Qed.

Lemma control_agent_output (evs : list Event) :
  Forall is_agent_output evs -> control evs = [].
Proof.
  induction 1 as [|e evs He _ IH]; [reflexivity|].
  unfold control in *. cbn [List.filter].
  rewrite bool_decide_eq_true_2 by exact He. exact IH.
Qed.

Lemma py_index_past_end {A} (l : list A) (i : Z) :
  len l <= i -> py_index l i = None.
Proof.
  intros H. unfold py_index, len in *.
  replace (i <? Z.of_nat (length l)) with false
    by (symmetry; apply Z.ltb_ge; lia).
  rewrite andb_false_r.
  replace (i <? 0) with false by (symmetry; apply Z.ltb_ge; lia).
  now rewrite andb_false_r.
Qed.

(** The queue after a callback that did not raise. *)
Lemma after_task_done_pending (cb : TaskCallback) (complete : list Event)
    (w : World) :
  0 <= task_counter cb ->
  exists flushed,
    pending (cb_event_queue cb) (after_task_done cb complete w) =
      pending (cb_event_queue cb) w ++ complete ++ flushed
        ++ start_of (cb_phases cb) (task_counter cb + 1) /\
    Forall is_agent_output flushed.
Proof.
  intros H0. unfold after_task_done.
  set (q := cb_event_queue cb).
  set (w1 := queue_put_all q complete w).
  assert (H1 : pending q w1 = pending q w ++ complete).
  { subst w1. rewrite pending_queue_put_all.
    destruct (decide (q = q)); congruence. }
  assert (H2 : extends q is_agent_output w1
                 (handler_set_phase (cb_handler cb) (task_counter cb + 1) w1)).
  { apply extends_locked_call; [apply set_phase_puts|apply extends_refl]. }
  destruct H2 as (flushed & H2 & Hao). exists flushed.
  split; [|assumption]. unfold start_of.
  destruct (Z.ltb_spec (task_counter cb + 1) (len (cb_phases cb))) as [Hlt|Hge].
  - destruct (py_index_in_range (cb_phases cb) (task_counter cb + 1))
      as [np Hnp]; [lia|]. rewrite Hnp.
    rewrite pending_queue_put. destruct (decide (q = q)); [|congruence].
    rewrite H2, H1, <- !app_assoc. reflexivity.
  - rewrite (py_index_past_end _ _ Hge), app_nil_r.
    rewrite H2, H1, <- !app_assoc. reflexivity.
Qed.

(** One callback, whatever the output: the control events it puts and
    the counter it leaves depend on the counter and the output only. *)
Lemma on_task_done_control (out : TaskOutput) (cb : TaskCallback) (w : World) :
  0 <= task_counter cb ->
  let cb' := fst (_on_task_done out (cb, w)) in
  let w' := snd (_on_task_done out (cb, w)) in
  cb_event_queue cb' = cb_event_queue cb /\ cb_phases cb' = cb_phases cb /\
  cb_handler cb' = cb_handler cb /\
  task_counter cb' = snd (stage_control (cb_phases cb) (task_counter cb) out) /\
  exists evs,
    pending (cb_event_queue cb) w' = pending (cb_event_queue cb) w ++ evs /\
    control evs = fst (stage_control (cb_phases cb) (task_counter cb) out).
Proof.
  intros H0. cbv zeta. unfold stage_control.
  destruct (Z.ltb_spec (task_counter cb) (len (cb_phases cb))) as [Hlt|Hge].
  - destruct (py_index_in_range (cb_phases cb) (task_counter cb))
      as [p Hp]; [lia|]. rewrite Hp.
    destruct (content_of p out) as [c|] eqn:Hc.
    + rewrite (on_task_done_string out cb w p c H0 Hp Hc). cbn [fst snd].
      repeat split.
      destruct (after_task_done_pending cb
                  [phase_complete_event (task_counter cb) p c] w H0)
        as (fl & Hpend & Hao).
      eexists. split; [exact Hpend|].
      rewrite !control_app, (control_agent_output _ Hao).
      unfold start_of. destruct (py_index _ (task_counter cb + 1)); reflexivity.
    + destruct (on_task_done_none out cb w p H0 Hp Hc) as [_ E]. rewrite E.
      cbn [fst snd]. repeat split. exists []. now rewrite app_nil_r.
  - rewrite (py_index_past_end _ _ Hge).
    rewrite (on_task_done_past_end out cb w Hge). cbn [fst snd].
    repeat split.
    destruct (after_task_done_pending cb [] w H0) as (fl & Hpend & Hao).
    eexists. split; [exact Hpend|].
    rewrite !control_app, (control_agent_output _ Hao).
    unfold start_of. rewrite py_index_past_end by lia. reflexivity.
Qed.

Lemma stage_control_counter (phases : list Phase) (idx : Z) (out : TaskOutput) :
  idx <= snd (stage_control phases idx out) <= idx + 1.
Proof.
  unfold stage_control. destruct (py_index phases idx) as [p|]; [|cbn; lia].
  destruct (content_of p out); cbn; lia.
Qed.

Lemma kickoff_control (tid : Z) (acts : list CrewAction) (cb : TaskCallback)
    (w : World) :
  0 <= task_counter cb ->
  let cb' := fst (kickoff tid acts (cb, w)) in
  let w' := snd (kickoff tid acts (cb, w)) in
  task_counter cb' = snd (crew_control (cb_phases cb) (task_counter cb) acts) /\
  exists evs,
    pending (cb_event_queue cb) w' = pending (cb_event_queue cb) w ++ evs /\
    control evs = fst (crew_control (cb_phases cb) (task_counter cb) acts).
Proof.
  revert cb w. induction acts as [|a acts IH]; intros cb w H0.
  - cbn. split; [reflexivity|]. exists []. now rewrite app_nil_r.
  - cbv zeta.
    change (kickoff tid (a :: acts) (cb, w))
      with (kickoff tid acts (crew_step tid a (cb, w))).
    destruct a as [n text|out]; cbn [crew_step crew_control fst snd].
    + destruct (IH cb (snd (write n tid text w)) H0) as (Hc & evs & Hp & Hctl).
      split; [exact Hc|].
      assert (He : extends (cb_event_queue cb) is_agent_output w
                     (snd (write n tid text w)))
        by (apply extends_write; [auto|apply extends_refl]).
      destruct He as (e1 & He & Hao).
      exists (e1 ++ evs). rewrite Hp, He, <- app_assoc.
      split; [reflexivity|].
      now rewrite control_app, (control_agent_output _ Hao).
    + destruct (on_task_done_control out cb w H0)
        as (Hq & Hph & Hh & Hcnt & e1 & Hp1 & Hc1).
      cbv zeta in *.
      destruct (_on_task_done out (cb, w)) as [cb1 w1]. cbn [fst snd] in *.
      destruct (stage_control (cb_phases cb) (task_counter cb) out)
        as [evs1 idx1] eqn:Es. cbn [fst snd] in *.
      assert (H1 : 0 <= task_counter cb1).
      { pose proof (stage_control_counter (cb_phases cb) (task_counter cb) out).
        rewrite Es in H. cbn [snd] in H. lia. }
      destruct (IH cb1 w1 H1) as (Hc & evs & Hp & Hctl).
      rewrite Hq, Hph, Hcnt in *.
      destruct (crew_control (cb_phases cb) idx1 acts) as [evs2 idx2].
      cbn [fst snd] in *.
      split; [exact Hc|].
      exists (e1 ++ evs). rewrite Hp, Hp1, <- app_assoc.
      split; [reflexivity|].
      now rewrite control_app, Hc1, Hctl.
Qed.

(** Integers [a], [a+1], ..., [a+n-1]. *)

Lemma zrange_S (a : Z) (n : nat) : zrange a (S n) = a :: zrange (a + 1) n.
Proof.
  unfold zrange. cbn [seq map]. rewrite Z.add_0_r. f_equal.
  rewrite <- seq_shift, map_map. apply map_ext. intros k. lia.
Qed.

Lemma completed_indices_app (a b : list Event) :
  completed_indices (a ++ b) = completed_indices a ++ completed_indices b.
Proof. unfold completed_indices. apply flat_map_app. Qed.

Lemma completed_indices_start (phases : list Phase) (i : Z) :
  completed_indices (start_of phases i) = [].
Proof. unfold start_of. now destruct (py_index phases i). Qed.

(** The [phase_complete] events of a run of the crew are numbered
    consecutively from the counter, without gap or repetition, up to the
    last phase. *)
Lemma crew_control_indices (phases : list Phase) (idx : Z)
    (acts : list CrewAction) :
  0 <= idx ->
  let idx' := snd (crew_control phases idx acts) in
  idx <= idx' /\
  completed_indices (fst (crew_control phases idx acts)) =
  zrange idx (Z.to_nat (Z.min idx' (Z.max idx (len phases)) - idx)).
Proof.
  revert idx. induction acts as [|a acts IH]; intros idx H0; cbv zeta.
  - cbn. split; [lia|].
    replace (Z.to_nat _) with O by lia. reflexivity.
  - destruct a as [n text|out]; cbn [crew_control]; [apply IH; assumption|].
    unfold stage_control.
    destruct (py_index phases idx) as [p|] eqn:Hp.
    + pose proof (py_index_some_range _ _ _ H0 Hp) as Hlt.
      destruct (content_of p out) as [c|].
      * destruct (IH (idx + 1)) as [Hle Hci]; [lia|].
        destruct (crew_control phases (idx + 1) acts) as [evs2 idx2].
        cbn [fst snd] in *. split; [lia|].
        change (phase_complete_event idx p c :: start_of phases (idx + 1))
          with ([phase_complete_event idx p c] ++ start_of phases (idx + 1)).
        rewrite !completed_indices_app, completed_indices_start, Hci.
        cbn [completed_indices phase_complete_event flat_map app].
        replace (Z.to_nat (Z.min idx2 (Z.max idx (len phases)) - idx))
          with (S (Z.to_nat (Z.min idx2 (Z.max (idx + 1) (len phases))
                             - (idx + 1)))) by lia.
        rewrite zrange_S. reflexivity.
      * destruct (IH idx H0) as [Hle Hci].
        destruct (crew_control phases idx acts) as [evs2 idx2].
        cbn [fst snd app] in *. split; [lia|]. exact Hci.
    + assert (Hge : len phases <= idx).
      { destruct (Z.ltb_spec idx (len phases)) as [Hlt|Hge]; [|assumption].
        destruct (py_index_in_range phases idx) as [x Hx]; [lia|congruence]. }
      destruct (IH (idx + 1)) as [Hle Hci]; [lia|].
      destruct (crew_control phases (idx + 1) acts) as [evs2 idx2].
      cbn [fst snd app] in *. split; [lia|].
      rewrite Hci.
      replace (Z.to_nat (Z.min idx2 (Z.max (idx + 1) (len phases)) - (idx + 1)))
        with O by lia.
      replace (Z.to_nat (Z.min idx2 (Z.max idx (len phases)) - idx))
        with O by lia.
      reflexivity.
Qed.

(** ** The run that succeeds *)

Lemma grows_refl (q : nat) (w : World) : grows q [] w w.
Proof. exists []. now rewrite app_nil_r. Qed.

Lemma grows_trans (q : nat) (a b : list Event) (w x y : World) :
  grows q a w x -> grows q b x y -> grows q (a ++ b) w y.
Proof.
  intros (e1 & H1 & C1) (e2 & H2 & C2). exists (e1 ++ e2).
  rewrite H2, H1, <- app_assoc, control_app, C1, C2. split; reflexivity.
Qed.

Lemma grows_silent (q : nat) (w x : World) :
  extends q is_agent_output w x -> grows q [] w x.
Proof.
  intros (evs & H & Hao). exists evs. split; [assumption|].
  now apply control_agent_output.
Qed.

Lemma grows_same (q : nat) (w x : World) :
  pending q x = pending q w -> grows q [] w x.
Proof. intros H. exists []. now rewrite app_nil_r. Qed.

Lemma grows_put (q : nat) (e : Event) (w : World) :
  kind e <> agent_output -> grows q [e] w (queue_put q e w).
Proof.
  intros H. exists [e]. rewrite pending_queue_put.
  destruct (decide (q = q)); [|congruence]. split; [reflexivity|].
  unfold control. cbn [List.filter].
  now rewrite bool_decide_eq_false_2.
Qed.

(** Saving the artifacts puts nothing but console text on a queue. *)
Lemma save_artifacts_silent (q : nat) (env : Env) (tid : Z) (i : nat)
    (phases : list Phase) (x : World) :
  extends q is_agent_output x (snd (save_artifacts env tid i phases x)).
Proof.
  revert i x. induction phases as [|p ps IH]; intros i x.
  - apply extends_refl.
  - cbn [save_artifacts]. run_monad.
    assert (Hw : forall y, extends q is_agent_output x y ->
               extends q is_agent_output x
                 (snd (save_artifacts env tid (S i) ps
                    (snd (write stdout tid [10%N]
                       (snd (write stdout tid (env_saved_line env i) y))))))).
    { intros y Hy. eapply extends_trans; [|apply IH].
      do 2 (apply extends_write; [auto|]). exact Hy. }
    destruct (env_persist_raises env) as [[j m]|].
    + destruct (j =? i)%nat; cbn [fst snd]; [apply extends_refl|].
      specialize (Hw x (extends_refl _ _ _)).
      destruct (save_artifacts env tid (S i) ps _) as [[u|e] x2]; exact Hw.
    + cbn [fst snd]. specialize (Hw x (extends_refl _ _ _)).
      destruct (save_artifacts env tid (S i) ps _) as [[u|e] x2]; exact Hw.
Qed.

Lemma save_artifacts_returns (env : Env) (tid : Z) (i : nat)
    (phases : list Phase) (x : World) :
  env_persist_raises env = None ->
  fst (save_artifacts env tid i phases x) = Returned tt.
Proof.
  intros Hn.
  destruct (save_artifacts_extends 0 env tid i phases x x (extends_refl _ _ _))
    as (_ & _ & Ho).
  destruct (fst (save_artifacts env tid i phases x)) as [[]|m]; [reflexivity|].
  destruct Ho as [j Hj]. congruence.
Qed.

Lemma unregistered_silent (q : nat) (tid : Z) (x : World) :
  extends q is_agent_output x (unregistered tid x).
Proof.
  unfold unregistered.
  do 2 (apply extends_unregister; [auto|]). apply extends_refl.
Qed.

Lemma tag_start_of (phases : list Phase) (i : Z) :
  0 <= i ->
  map tag (start_of phases i) =
  if i <? len phases then [(phase_start, Some i)] else [].
Proof.
  intros H0. unfold start_of.
  destruct (Z.ltb_spec i (len phases)) as [Hlt|Hge].
  - destruct (py_index_in_range phases i) as [np Hnp]; [lia|].
    now rewrite Hnp.
  - now rewrite py_index_past_end.
Qed.

(** The control events of the crew when every output is a string: stage
    after stage, each completion followed by the start of the next phase
    while there is one. *)
Lemma crew_control_strings (phases : list Phase) (idx : Z)
    (acts : list CrewAction) :
  0 <= idx -> Forall string_output acts ->
  idx + stages_done acts <= len phases ->
  snd (crew_control phases idx acts) = idx + stages_done acts /\
  map tag (fst (crew_control phases idx acts)) =
    flat_map (stage_tags (len phases))
             (zrange idx (Z.to_nat (stages_done acts))).
Proof.
  revert idx. induction acts as [|a acts IH]; intros idx H0 Hwf Hle.
  - unfold stages_done, len. cbn. split; [lia|reflexivity].
  - inversion Hwf as [|? ? Ha Hacts]; subst.
    destruct a as [n text|out]; cbn [crew_control].
    + apply IH; assumption.
    + cbn [string_output] in Ha.
      assert (Hsd : stages_done (crew_task_done out :: acts)
                    = 1 + stages_done acts).
      { unfold stages_done, len. cbn [List.filter is_task_done length]. lia. }
      assert (Hnn : 0 <= stages_done acts) by (unfold stages_done, len; lia).
      rewrite Hsd in *.
      destruct (py_index_in_range phases idx) as [p Hp]; [lia|].
      destruct (content_of_string p out Ha) as [c Hc].
      unfold stage_control. rewrite Hp, Hc.
      destruct (IH (idx + 1)) as [Hs Hm]; [lia|assumption|lia|].
      destruct (crew_control phases (idx + 1) acts) as [evs2 idx2].
      cbn [fst snd] in *. split; [lia|].
      replace (Z.to_nat (1 + stages_done acts))
        with (S (Z.to_nat (stages_done acts))) by lia.
      rewrite zrange_S. cbn [flat_map]. rewrite <- Hm.
      change (phase_complete_event idx p c :: start_of phases (idx + 1))
        with ([phase_complete_event idx p c] ++ start_of phases (idx + 1)).
      rewrite <- app_assoc, !map_app, tag_start_of by lia.
      reflexivity.
Qed.

Lemma worker_phases_count (env : Env) : len (worker_phases env) = 7.
Proof. vm_compute. reflexivity. Qed.

Lemma no_failure (env : Env) :
  first_failure env = None ->
  env_makedirs env = None /\ env_build env = None /\
  env_kickoff_raises env = None /\ env_persist_raises env = None.
Proof.
  unfold first_failure.
  destruct (env_makedirs env); [discriminate|].
  destruct (env_build env); [discriminate|].
  destruct (env_kickoff_raises env); [discriminate|].
  destruct (env_persist_raises env) as [[j m]|]; [discriminate|].
  repeat split.
Qed.

(** The body of the worker when no collaborator fails: the control
    events it puts are the four opening events, those of the crew, and
    [pipeline_complete]. *)
Lemma pipeline_body_succeeds (q : nat) (env : Env) (run_id req : pystr)
    (tid : Z) (hid : nat) (x : World) :
  first_failure env = None ->
  fst (pipeline_body env run_id req q tid hid x) = Returned tt /\
  exists opening closing,
    map tag opening = [(pipeline_start, None); (status, None); (status, None);
                       (phase_start, Some 0)] /\
    map tag closing = [(pipeline_complete, None)] /\
    grows q (opening
             ++ fst (crew_control (worker_phases env) 0 (env_kickoff env))
             ++ closing)
          x (snd (pipeline_body env run_id req q tid hid x)).
Proof.
  intros Hnf. destruct (no_failure env Hnf) as (Hm & Hb & Hk & Hp).
  destruct (worker_first_phase env) as (p0 & id & m & Hp0 & Hid & Hmo).
  unfold pipeline_body. run_monad. rewrite assign_phases_ok. run_monad.
  rewrite worker_summaries_ok. run_monad. rewrite Hp0. run_monad.
  rewrite Hid, Hmo. run_monad. unfold time_time. cbn [fst snd].
  rewrite Hm, Hb, Hk. cbn [fst snd].
  set (x0 := set_clock _ x).
  set (e1 := ev_pipeline_start _ _ _ _).
  set (e2 := ev_status (py "Building CrewAI agents and tasks...")).
  set (e3 := ev_status (_ ++ _)).
  set (e4 := ev_phase_start 0 _ _ _ _ _ _).
  set (x1 := queue_put q e2 (queue_put q e1 _)).
  assert (G1 : grows q [e1; e2] x x1).
  { subst x1. eapply (grows_trans q [e1] [e2]);
      [|apply grows_put; discriminate].
    eapply (grows_trans q [] [e1]); [|apply grows_put; discriminate].
    apply grows_silent. do 2 apply extends_register.
    apply (extends_same q _ x x); [reflexivity|apply extends_refl]. }
  set (x2 := queue_put q e4 (queue_put q e3 x1)).
  assert (G2 : grows q [e1; e2; e3; e4] x x2).
  { subst x2. eapply (grows_trans q [e1; e2; e3] [e4]);
      [|apply grows_put; discriminate].
    eapply (grows_trans q [e1; e2] [e3]);
      [exact G1|apply grows_put; discriminate]. }
  set (cb := make_task_callback q (worker_phases env) hid).
  destruct (kickoff_control tid (env_kickoff env) cb x2) as (_ & ke & Hke & Cke);
    [cbn; lia|]. cbv zeta in *.
  set (x3 := snd (kickoff tid (env_kickoff env) (cb, x2))) in *.
  assert (G3 : grows q ([e1; e2; e3; e4]
                        ++ fst (crew_control (worker_phases env) 0
                                             (env_kickoff env))) x x3).
  { eapply grows_trans; [exact G2|]. exists ke. split; assumption. }
  change (unregister stderr tid (unregister stdout tid x3))
    with (unregistered tid x3).
  pose proof (save_artifacts_returns env tid O (worker_phases env)
                (unregistered tid x3) Hp) as Hret.
  pose proof (save_artifacts_silent q env tid O (worker_phases env)
                (unregistered tid x3)) as Hsil.
  destruct (save_artifacts env tid 0 (worker_phases env) (unregistered tid x3))
    as [[[]|e] x4]; cbn [fst snd] in *; [|discriminate].
  rewrite Hp. cbn [fst snd]. split; [reflexivity|].
  set (e5 := ev_pipeline_complete _ _ _ _).
  exists [e1; e2; e3; e4], [e5]. split; [reflexivity|]. split; [reflexivity|].
  rewrite app_assoc.
  eapply grows_trans; [|apply grows_put; discriminate].
  rewrite <- (app_nil_r (_ ++ _)).
  eapply grows_trans; [exact G3|].
  apply grows_silent.
  apply (extends_same q is_agent_output x3 x4); [reflexivity|].
  eapply extends_trans; [apply unregistered_silent|exact Hsil].
Qed.

(** X8.  The run that succeeds.  When no collaborator fails
    and the crew completes the seven stages with string outputs, the
    events of the run other than console text are, in order:
    [pipeline_start], two [status], [phase_start 0], then for each stage
    [phase_complete i] followed by [phase_start (i+1)] while a phase is
    left, then [pipeline_complete] and [done]. *)
Theorem successful_run_event_order (env : Env) (run_id req : pystr)
    (q : nat) (tid : Z) (w : World) :
  first_failure env = None ->
  Forall string_output (env_kickoff env) ->
  stages_done (env_kickoff env) = 7 ->
  fst (run_pipeline_streaming env run_id req q tid w) = Returned tt /\
  exists evs,
    pending q (snd (run_pipeline_streaming env run_id req q tid w))
      = pending q w ++ evs /\
    map tag (control evs) = lifecycle 7.
Proof.
  intros Hnf Hwf Hn. unfold run_pipeline_streaming.
  unfold new_handler, time_time. cbn [fst snd].
  set (hid := fresh (dom (handlers w))).
  set (x := set_handlers _ (set_clock _ w)).
  destruct (pipeline_body_succeeds q env run_id req tid hid x Hnf)
    as (Hr & opening & closing & Ho & Hc & G).
  destruct (pipeline_body env run_id req q tid hid x) as [[[]|e] xb];
    cbn [fst snd] in *; [|discriminate].
  split; [reflexivity|].
  change (run_steps (finally_steps run_id q tid) xb)
    with (runs_pop run_id (queue_put q ev_done (unregistered tid xb))).
  assert (G' : grows q ((opening ++ fst (crew_control (worker_phases env) 0
                                           (env_kickoff env)) ++ closing)
                        ++ [ev_done]) x
                 (runs_pop run_id (queue_put q ev_done (unregistered tid xb)))).
  { eapply grows_trans; [|].
    - rewrite <- (app_nil_r (_ ++ _ ++ _)).
      eapply grows_trans; [exact G|].
      apply grows_silent, unregistered_silent.
    - destruct (grows_put q ev_done (unregistered tid xb)) as (e & He & Ce);
        [discriminate|].
      exists e. split; [exact He|exact Ce]. }
  destruct G' as (evs & Hp & Hctl). exists evs. split; [exact Hp|].
  rewrite Hctl, !map_app, Ho, Hc.
  destruct (crew_control_strings (worker_phases env) 0 (env_kickoff env))
    as [_ Hm]; [lia|assumption|rewrite worker_phases_count; lia|].
  rewrite Hm, Hn, worker_phases_count. reflexivity.
Qed.

Lemma successful_run_event_order_witness :
  first_failure working_env = None /\
  Forall string_output (env_kickoff working_env) /\
  stages_done (env_kickoff working_env) = 7 /\
  exists evs,
    pending O (snd (run_pipeline_streaming working_env (py "run-1") (py "X")
                      O 7 started_world))
      = pending O started_world ++ evs /\
    map tag (control evs) = lifecycle 7.
Proof.
  assert (Hwf : Forall string_output (env_kickoff working_env))
    by (repeat constructor; discriminate).
  split; [reflexivity|]. split; [exact Hwf|]. split; [reflexivity|].
  apply (successful_run_event_order working_env (py "run-1") (py "X") O 7
           started_world eq_refl Hwf eq_refl).
Defined.

(** ** Phase indices and early failure *)

Lemma completed_indices_control (evs : list Event) :
  completed_indices (control evs) = completed_indices evs.
Proof.
  induction evs as [|e evs IH]; [reflexivity|].
  change (control (e :: evs))
    with (if negb (bool_decide (kind e = agent_output))
          then e :: control evs else control evs).
  change (completed_indices (e :: evs))
    with (match e with
          | ev_phase_complete i _ _ _ _ _ _ => [i]
          | _ => []
          end ++ completed_indices evs).
  destruct e; cbn [kind];
    first [rewrite bool_decide_eq_true_2 by reflexivity
          |rewrite bool_decide_eq_false_2 by discriminate];
    cbn [negb app]; try exact IH.
  change (completed_indices (?e :: ?l))
    with (match e with
          | ev_phase_complete i _ _ _ _ _ _ => [i]
          | _ => []
          end ++ completed_indices l).
  cbn [app]. now rewrite IH.
Qed.

Lemma crew_control_counter (phases : list Phase) (idx : Z)
    (acts : list CrewAction) :
  snd (crew_control phases idx acts) <= idx + stages_done acts.
Proof.
  revert idx. induction acts as [|a acts IH]; intros idx.
  - unfold stages_done, len. cbn. lia.
  - destruct a as [n text|out]; cbn [crew_control].
    + unfold stages_done in *. cbn [List.filter is_task_done]. apply IH.
    + pose proof (stage_control_counter phases idx out) as Hs.
      destruct (stage_control phases idx out) as [evs1 idx1]. cbn [snd] in Hs.
      specialize (IH idx1).
      destruct (crew_control phases idx1 acts) as [evs2 idx2]. cbn [snd] in *.
      unfold stages_done, len in *. cbn [List.filter is_task_done length].
      lia.
Qed.

(** X7.  Whatever the crew prints and whatever the task outputs are, the
    [phase_complete] events of a run carry the indices 0, 1, 2, ... in
    order, without gap or repetition, and never an index that is not a
    phase; the counter ends at most at the number of completed stages,
    and below it when a callback raised. *)
Theorem phase_complete_indices_consecutive (tid : Z) (acts : list CrewAction)
    (q : nat) (phases : list Phase) (hid : nat) (w : World) :
  let cb' := fst (kickoff tid acts (make_task_callback q phases hid, w)) in
  let w' := snd (kickoff tid acts (make_task_callback q phases hid, w)) in
  0 <= task_counter cb' <= stages_done acts /\
  exists evs,
    pending q w' = pending q w ++ evs /\
    completed_indices evs =
      zrange 0 (Z.to_nat (Z.min (task_counter cb') (len phases))).
Proof.
  cbv zeta.
  destruct (kickoff_control tid acts (make_task_callback q phases hid) w)
    as (Hc & evs & Hp & Hctl); [cbn; lia|].
  cbn [make_task_callback task_counter cb_phases cb_event_queue] in *.
  destruct (crew_control_indices phases 0 acts) as [Hle Hci]; [lia|].
  cbv zeta in *. pose proof (crew_control_counter phases 0 acts) as Hub.
  rewrite Hc. split; [lia|].
  exists evs. split; [exact Hp|].
  rewrite <- completed_indices_control, Hctl, Hci.
  f_equal. unfold len. lia.
Qed.

Lemma print_exc_unregistered (q : nat) (tid : Z) (pieces : list pystr)
    (x : World) :
  registration stderr x !! tid = None ->
  pending q (snd (print_exc tid pieces x)) = pending q x.
Proof.
  revert x. induction pieces as [|t rest IH]; intros x Hr; [reflexivity|].
  cbn [print_exc]. run_monad.
  destruct (_original (_stderr_interceptor x)) as [c|] eqn:Ho.
  - destruct (console_write t c) as [c'|]; cbn [fst snd]; [|reflexivity].
    set (x1 := set_interceptor stderr _ x).
    assert (H1 : registration stderr x1 !! tid = None) by exact Hr.
    specialize (IH x1 H1).
    destruct (print_exc tid rest x1) as [[u|e] x2]; exact IH.
  - cbn [fst snd].
    set (x1 := snd (write stderr tid t x)).
    assert (H1 : registration stderr x1 !! tid = None)
      by (subst x1; now rewrite registration_write).
    assert (Hp : pending q x1 = pending q x).
    { subst x1. destruct (write_effect stderr tid t x) as [_ He].
      cbv zeta in He. rewrite Hr in He. apply He. }
    specialize (IH x1 H1). rewrite <- Hp.
    destruct (print_exc tid rest x1) as [[u|e] x2]; exact IH.
Qed.

(** X9.  A run that fails before the crew is built (the output directory
    cannot be made) puts exactly [error] and [done] on its queue, provided
    the thread had no handler registered and the traceback could be
    printed: no [pipeline_start] is ever seen. *)
Theorem early_failure_puts_error_done (env : Env) (run_id req : pystr)
    (q : nat) (tid : Z) (w : World) (msg : pystr) :
  env_makedirs env = Some msg ->
  registration stdout w !! tid = None ->
  registration stderr w !! tid = None ->
  fst (run_pipeline_streaming env run_id req q tid w) = Returned tt ->
  pending q (snd (run_pipeline_streaming env run_id req q tid w))
    = pending q w ++ [ev_error msg; ev_done].
Proof.
  intros Hm Ho He. unfold run_pipeline_streaming.
  unfold new_handler, time_time. cbn [fst snd].
  set (hid := fresh (dom (handlers w))).
  set (x := set_handlers _ (set_clock _ w)).
  unfold pipeline_body. run_monad. unfold time_time. cbn [fst snd].
  rewrite Hm. cbn [fst snd].
  set (x0 := set_clock _ x).
  unfold except_block. run_monad.
  assert (Ho0 : registration stdout x0 !! tid = None) by exact Ho.
  assert (He0 : registration stderr x0 !! tid = None) by exact He.
  pose proof (print_exc_unregistered q tid (env_traceback env) x0 He0) as Hp.
  destruct (print_exc_extends q tid (env_traceback env) x0 x0
              (extends_refl _ _ _)) as [_ Hr].
  destruct (print_exc tid (env_traceback env) x0) as [[[]|e] xp];
    cbn [fst snd] in *; [|discriminate].
  intros _.
  change (run_steps (finally_steps run_id q tid) (queue_put q (ev_error msg) xp))
    with (runs_pop run_id
            (queue_put q ev_done
               (unregistered tid (queue_put q (ev_error msg) xp)))).
  change (pending q (runs_pop run_id ?y)) with (pending q y).
  rewrite pending_queue_put. destruct (decide (q = q)); [|congruence].
  unfold unregistered.
  set (y := queue_put q (ev_error msg) xp).
  assert (Ry : forall n, registration n y !! tid = None).
  { intros n. subst y. rewrite registration_put, Hr. now destruct n. }
  pose proof (unregister_effect stdout tid y) as E1. rewrite Ry in E1.
  destruct E1 as [_ E1].
  pose proof (unregister_effect stderr tid (unregister stdout tid y)) as E2.
  rewrite (registration_unregister stderr stdout) in E2.
  destruct (decide (stdout = stderr)); [discriminate|].
  rewrite Ry in E2. destruct E2 as [_ E2].
  rewrite E2, E1. subst y. rewrite pending_queue_put.
  destruct (decide (q = q)); [|congruence].
  rewrite Hp, <- app_assoc. reflexivity.
Qed.

Lemma early_failure_puts_error_done_witness :
  env_makedirs no_directory_env = Some (py "Permission denied") /\
  registration stdout started_world !! 7 = None /\
  registration stderr started_world !! 7 = None /\
  fst (run_pipeline_streaming no_directory_env (py "run-1") (py "X") O 7
         started_world) = Returned tt /\
  pending O (snd (run_pipeline_streaming no_directory_env (py "run-1")
                    (py "X") O 7 started_world))
    = pending O started_world ++ [ev_error (py "Permission denied"); ev_done].
Proof.
  assert (Hr : fst (run_pipeline_streaming no_directory_env (py "run-1")
                      (py "X") O 7 started_world) = Returned tt)
    by (vm_compute; reflexivity).
  split; [reflexivity|]. split; [reflexivity|]. split; [reflexivity|].
  split; [exact Hr|].
  apply (early_failure_puts_error_done no_directory_env (py "run-1") (py "X")
           O 7 started_world (py "Permission denied") eq_refl eq_refl eq_refl
           Hr).
Defined.

(** ** Starting and streaming a run *)

(** X10.  A blank requirement is refused and changes nothing.  Otherwise the
    run is registered under the new identifier with a queue that nothing
    referenced before and that is empty, a stream opened at once gets
    the generator over that queue, the other runs keep their entries,
    and the worker is handed the trimmed requirement. *)
Theorem start_registers_fresh_queue (uuid4 : pystr)
    (requirement_field : option pystr) (w : World) :
  match strip (default [] requirement_field) with
  | [] => start_pipeline uuid4 requirement_field w
          = (requirement_required, None, w)
  | c :: r =>
      exists q w',
        start_pipeline uuid4 requirement_field w
          = (started uuid4, Some (mkWorker uuid4 (c :: r) q), w') /\
        active_runs w' !! uuid4 = Some q /\
        fst (stream uuid4 w') = response_stream q /\
        pending q w' = [] /\
        (forall run_id, active_runs w !! run_id <> Some q) /\
        (forall hid h, handlers w !! hid = Some h -> event_queue h <> q) /\
        (forall run_id, run_id <> uuid4 ->
                        active_runs w' !! run_id = active_runs w !! run_id) /\
        (forall q', q' <> q -> pending q' w' = pending q' w)
  end.
Proof.
  unfold start_pipeline.
  destruct (strip (default [] requirement_field)) as [|c r]; [reflexivity|].
  cbn [truthy negb].
  set (q := fresh (live_queues w)).
  assert (Hfresh : q ∉ live_queues w) by apply is_fresh.
  eexists q, _. split; [reflexivity|].
  cbn [log set_active_runs set_queues active_runs].
  split; [apply lookup_insert_eq|].
  split.
  { unfold stream. cbn [log active_runs set_active_runs set_queues].
    now rewrite lookup_insert_eq. }
  split.
  { unfold pending. cbn [queues log set_active_runs set_queues].
    now rewrite lookup_insert_eq. }
  split.
  { intros run_id Hr. apply Hfresh. unfold live_queues.
    apply elem_of_union_l, elem_of_union_r.
    apply elem_of_map_img. now exists run_id. }
  split.
  { intros hid h Hh <-. apply Hfresh. unfold live_queues.
    apply elem_of_union_r. apply elem_of_map_img. exists hid.
    now rewrite lookup_fmap, Hh. }
  split.
  { intros run_id Hne. now apply lookup_insert_ne. }
  intros q' Hne. unfold pending. cbn [queues log set_active_runs set_queues].
  now rewrite lookup_insert_ne by congruence.
Qed.

Lemma worker_ends_in_finally (env : Env) (run_id req : pystr) (q : nat)
    (tid : Z) (w : World) :
  exists y,
    snd (run_pipeline_streaming env run_id req q tid w)
    = runs_pop run_id (queue_put q ev_done (unregistered tid y)).
Proof.
  unfold run_pipeline_streaming. unfold new_handler, time_time.
  cbn [fst snd].
  destruct (pipeline_body _ _ _ _ _ _ _) as [[u|e] xb].
  - now exists xb.
  - destruct (except_block _ _ _ _ _) as [r y]. now exists y.
Qed.

(** X11.  A client that opens the stream after the worker has ended gets the
    one synthetic [error] frame, although the queue of the run still
    holds its events, [done] last; the stream call does not touch the
    queue. *)
Theorem late_stream_finds_nothing (env : Env) (run_id req : pystr) (q : nat)
    (tid : Z) (w : World) :
  let w' := snd (run_pipeline_streaming env run_id req q tid w) in
  fst (stream run_id w') = response_body [not_found_frame] /\
  (exists evs, pending q w' = evs ++ [ev_done]) /\
  pending q (snd (stream run_id w')) = pending q w'.
Proof.
  cbv zeta.
  destruct (worker_ends_in_finally env run_id req q tid w) as [y ->].
  assert (Ha : active_runs (runs_pop run_id
                 (queue_put q ev_done (unregistered tid y))) !! run_id = None)
    by apply lookup_delete_eq.
  split.
  { unfold stream. cbn [log active_runs] in *. now rewrite Ha. }
  split.
  { eexists.
    change (pending q (runs_pop run_id ?z)) with (pending q z).
    rewrite pending_queue_put. now destruct (decide (q = q)). }
  unfold stream. now destruct (active_runs _ !! run_id).
Qed.

Lemma generate_from_stopped (q : nat) (sched : list Turn) (fs : list Frame)
    (w : World) :
  fst (generate_from q sched (mkGenerator false fs, w)) = mkGenerator false fs.
Proof.
  revert w. induction sched as [|t sched IH]; intros w; [reflexivity|].
  change (generate_from q (t :: sched) (mkGenerator false fs, w))
    with (generate_from q sched (generate_turn q t (mkGenerator false fs, w))).
  destruct t; cbn [generate_turn gen_running]; apply IH.
Qed.

Lemma generate_from_stopped_queue (q : nat) (k : nat) (fs : list Frame)
    (w : World) :
  generate_from q (repeat consumer_pass k) (mkGenerator false fs, w)
  = (mkGenerator false fs, w).
Proof.
  induction k as [|k IH]; [reflexivity|].
  cbn [repeat]. exact IH.
Qed.

(** Passes over a queue that holds events ending with the only [done]
    deliver exactly those events, in order, and stop. *)
Lemma drain (q : nat) (evs : list Event) (d : Event) (k : nat)
    (fs : list Frame) (w : World) :
  pending q w = evs ++ [d] -> kind d = done ->
  Forall (fun e => kind e <> done) evs ->
  exists w',
    generate_from q (repeat consumer_pass (length evs + 1 + k))
                  (mkGenerator true fs, w)
    = (mkGenerator false (fs ++ map data_frame (evs ++ [d])), w') /\
    pending q w' = [].
Proof.
  revert fs w. induction evs as [|e evs IH]; intros fs w Hp Hd Hnd.
  - cbn [length Nat.add repeat app map] in *.
    destruct (generate_step_event q w d [] Hp) as (w1 & E & Hp1 & _).
    exists w1. split; [|assumption].
    change (generate_from q (consumer_pass :: repeat consumer_pass k)
                          (mkGenerator true fs, w))
      with (generate_from q (repeat consumer_pass k)
              (generate_turn q consumer_pass (mkGenerator true fs, w))).
    cbn [generate_turn gen_running gen_frames]. rewrite E.
    unfold is_kind. rewrite bool_decide_eq_true_2 by assumption.
    cbn [negb]. apply generate_from_stopped_queue.
  - inversion Hnd as [|? ? He Hevs]; subst.
    cbn [length Nat.add repeat app] in *.
    destruct (generate_step_event q w e (evs ++ [d]) Hp) as (w1 & E & Hp1 & _).
    destruct (IH (fs ++ [data_frame e]) w1 Hp1 Hd Hevs) as (w' & Hg & Hp').
    exists w'. split; [|assumption].
    change (generate_from q (consumer_pass :: repeat consumer_pass
                                                (length evs + 1 + k))
                          (mkGenerator true fs, w))
      with (generate_from q (repeat consumer_pass (length evs + 1 + k))
              (generate_turn q consumer_pass (mkGenerator true fs, w))).
    cbn [generate_turn gen_running gen_frames]. rewrite E.
    unfold is_kind. rewrite bool_decide_eq_false_2 by assumption.
    cbn [negb]. rewrite Hg. cbn [map]. now rewrite <- app_assoc.
Qed.

(** The queue of a run after its worker: what was there, then events
    none of which is [done], then [done]. *)
Lemma worker_queue_shape (env : Env) (run_id req : pystr) (q : nat) (tid : Z)
    (w : World) :
  registration stdout w !! tid = registration stderr w !! tid ->
  exists evs,
    pending q (snd (run_pipeline_streaming env run_id req q tid w))
      = pending q w ++ evs ++ [ev_done] /\
    Forall (fun e => kind e <> done) evs.
Proof.
  intros Hreg. unfold run_pipeline_streaming.
  unfold new_handler, time_time. cbn [fst snd].
  set (hid := fresh (dom (handlers w))).
  set (x := set_handlers _ (set_clock _ w)).
  destruct (pipeline_body_facts q env run_id req tid hid x x
              (extends_refl _ _ _) Hreg) as (Hb & _ & _).
  assert (Hfin : forall y evs,
             pending q y = pending q w ++ evs ->
             Forall (fun e => kind e <> done) evs ->
             exists evs',
               pending q (run_steps (finally_steps run_id q tid) y)
               = pending q w ++ evs' ++ [ev_done] /\
               Forall (fun e => kind e <> done) evs').
  { intros y evs Hy Hnd.
    change (run_steps (finally_steps run_id q tid) y)
      with (runs_pop run_id (queue_put q ev_done (unregistered tid y))).
    change (pending q (runs_pop run_id ?z)) with (pending q z).
    rewrite pending_queue_put. destruct (decide (q = q)); [|congruence].
    destruct (unregistered_silent q tid y) as (post & Hp & Hao).
    exists (evs ++ post). rewrite Hp, Hy, <- !app_assoc.
    split; [reflexivity|]. apply Forall_app. split; [assumption|].
    now apply benign_not_done, agent_outputs_benign. }
  destruct (pipeline_body env run_id req q tid hid x) as [[u|e] xb];
    cbn [fst snd] in *.
  - destruct Hb as (evs & Hp & Hben).
    apply (Hfin xb evs); [exact Hp|now apply benign_not_done].
  - unfold except_block. run_monad.
    destruct (print_exc_extends q tid (env_traceback env) x xb Hb) as [He _].
    destruct (print_exc tid (env_traceback env) xb) as [[u|e'] xp];
      cbn [fst snd] in *; destruct He as (evs & Hp & Hben).
    + apply (Hfin _ (evs ++ [ev_error e])).
      * rewrite pending_queue_put. destruct (decide (q = q)); [|congruence].
        now rewrite Hp, <- app_assoc.
      * apply Forall_app. split; [now apply benign_not_done|].
        repeat constructor. discriminate.
    + apply (Hfin xp evs); [exact Hp|now apply benign_not_done].
Qed.

(** X12.  A stream opened while the run is registered holds the queue itself:
    once the worker has ended (and removed the registry entry), passes
    of the generator still deliver every event of the run, in order,
    [done] last, and stop; the queue is then empty. *)
Theorem early_stream_delivers_whole_run (env : Env) (run_id req : pystr)
    (q : nat) (tid : Z) (w : World) :
  active_runs w !! run_id = Some q ->
  pending q w = [] ->
  registration stdout w !! tid = registration stderr w !! tid ->
  let w' := snd (run_pipeline_streaming env run_id req q tid w) in
  fst (stream run_id w) = response_stream q /\
  active_runs w' !! run_id = None /\
  exists evs,
    pending q w' = evs ++ [ev_done] /\
    forall k,
    exists w'',
      generate q (repeat consumer_pass (length evs + 1 + k)) w'
      = (mkGenerator false (map data_frame (evs ++ [ev_done])), w'') /\
      pending q w'' = [].
Proof.
  intros Ha Hp0 Hreg. cbv zeta.
  split; [unfold stream; cbn [log active_runs]; now rewrite Ha|].
  split.
  { destruct (worker_ends_in_finally env run_id req q tid w) as [y ->].
    apply lookup_delete_eq. }
  destruct (worker_queue_shape env run_id req q tid w Hreg) as (evs & Hp & Hnd).
  rewrite Hp0 in Hp. cbn [app] in Hp.
  exists evs. split; [exact Hp|]. intros k.
  destruct (drain q evs ev_done k [] _ Hp eq_refl Hnd) as (w'' & Hg & Hpe).
  exists w''. split; [exact Hg|exact Hpe].
Qed.

(** X13.  The generator ends on [done] only: as long as no [done] is pending
    or put, it is still looping after any schedule, and every pass has
    yielded one frame. *)
Theorem stream_never_ends_without_done (q : nat) (sched : list Turn)
    (w : World) :
  Forall (fun e => kind e <> done) (pending q w ++ puts sched) ->
  gen_running (fst (generate q sched w)) = true /\
  length (gen_frames (fst (generate q sched w))) = passes sched.
Proof.
  unfold generate. change (fold_left _ sched ?s) with (generate_from q sched s).
  revert w.
  assert (H : forall fs w,
            Forall (fun e => kind e <> done) (pending q w ++ puts sched) ->
            gen_running (fst (generate_from q sched (mkGenerator true fs, w)))
              = true /\
            length (gen_frames (fst (generate_from q sched
                                       (mkGenerator true fs, w))))
              = (length fs + passes sched)%nat).
  { induction sched as [|t sched IH]; intros fs w Hnd.
    - cbn. split; [reflexivity|unfold passes; cbn; lia].
    - change (generate_from q (t :: sched) (mkGenerator true fs, w))
        with (generate_from q sched (generate_turn q t (mkGenerator true fs, w))).
      destruct t as [e|]; cbn [generate_turn gen_running gen_frames].
      + destruct (IH fs (queue_put q e w)) as [Hr Hl].
        { rewrite pending_queue_put. destruct (decide (q = q)); [|congruence].
          change (puts (producer_put e :: sched)) with ([e] ++ puts sched) in Hnd.
          now rewrite <- app_assoc. }
        split; [exact Hr|]. rewrite Hl. unfold passes. reflexivity.
      + change (puts (consumer_pass :: sched)) with (puts sched) in Hnd.
        destruct (pending q w) as [|e rest] eqn:Hpend.
        * rewrite (generate_step_timeout q w Hpend).
          destruct (IH (fs ++ [heartbeat_frame]) w) as [Hr Hl];
            [now rewrite Hpend|].
          split; [exact Hr|]. rewrite Hl, length_app. unfold passes.
          cbn [List.filter length]. lia.
        * destruct (generate_step_event q w e rest Hpend) as (w1 & E & Hp1 & _).
          rewrite E. cbn [app] in Hnd. apply Forall_cons in Hnd as [He Hrest].
          unfold is_kind. rewrite bool_decide_eq_false_2 by assumption.
          cbn [negb].
          destruct (IH (fs ++ [data_frame e]) w1) as [Hr Hl];
            [now rewrite Hp1|].
          split; [exact Hr|]. rewrite Hl, length_app. unfold passes.
          cbn [List.filter length]. lia. }
  intros w Hnd. destruct (H [] w Hnd) as [Hr Hl]. split; [exact Hr|].
  rewrite Hl. reflexivity.
Qed.

Lemma early_stream_delivers_whole_run_witness :
  active_runs started_world !! py "run-1" = Some O /\
  pending O started_world = [] /\
  registration stdout started_world !! 7
    = registration stderr started_world !! 7 /\
  fst (stream (py "run-1") started_world) = response_stream O /\
  active_runs (snd failed_run) !! py "run-1" = None.
Proof.
  assert (Ha : active_runs started_world !! py "run-1" = Some O)
    by (vm_compute; reflexivity).
  split; [exact Ha|]. split; [reflexivity|]. split; [reflexivity|].
  destruct (early_stream_delivers_whole_run failing_env (py "run-1") (py "X")
              O 7 started_world Ha eq_refl eq_refl) as (Hs & Hn & _).
  split; [exact Hs|exact Hn].
Defined.

Lemma stream_never_ends_without_done_witness :
  Forall (fun e => kind e <> done)
         (pending O started_world ++ puts waiting_schedule) /\
  gen_running (fst (generate O waiting_schedule started_world)) = true /\
  length (gen_frames (fst (generate O waiting_schedule started_world)))
    = passes waiting_schedule.
Proof.
  assert (H : Forall (fun e => kind e <> done)
                (pending O started_world ++ puts waiting_schedule))
    by (repeat constructor; discriminate).
  split; [exact H|].
  apply (stream_never_ends_without_done O waiting_schedule started_world H).
Defined.

(** ** extract_code *)

Lemma find_fence_cons (c : N) (r : pystr) :
  find_fence (c :: r) =
  match c :: r with
  | 96%N :: 96%N :: 96%N :: _ => Some O
  | _ => option_map S (find_fence r)
  end.
Proof. reflexivity. Qed.

Lemma match_block_needs_fence (s : pystr) :
  match_block s <> None -> find_fence s = Some O.
Proof.
  destruct s as [|a [|b [|c t]]]; cbn [match_block]; try congruence;
    repeat match goal with
           | |- context [match ?x with N0 => _ | Npos _ => _ end] => destruct x
           | |- context [match ?p with xI _ => _ | xO _ => _ | xH => _ end] =>
               destruct p
           end; try congruence; intros _; reflexivity.
Qed.

(** Without a fence there is no block. *)
Lemma findall_no_fence (k : nat) (s : pystr) :
  find_fence s = None -> findall_blocks k s = [].
Proof.
  revert k. induction s as [|c r IH]; intros k H; [reflexivity|].
  assert (Hr : find_fence r = None).
  { rewrite find_fence_cons in H.
    destruct (find_fence r); [|reflexivity].
    exfalso.
    destruct c as [|p]; [discriminate|].
    destruct r as [|b [|c2 t]]; try discriminate;
      repeat match type of H with
             | context [match ?x with N0 => _ | Npos _ => _ end] => destruct x
             | context [match ?p with xI _ => _ | xO _ => _ | xH => _ end] =>
                 destruct p
             end; discriminate. }
  cbn [findall_blocks]. destruct k as [|k]; [|now apply IH].
  destruct (match_block (c :: r)) as [[g n]|] eqn:E; [|now apply IH].
  assert (Hf : find_fence (c :: r) = Some O)
    by (apply match_block_needs_fence; congruence).
  congruence.
Qed.

(** X14.  A response without a fence comes back as it is ([None] as
    the text "None"): nothing is trimmed. *)
Theorem extract_code_without_fence (response : PyVal) :
  find_fence (py_str response) = None ->
  extract_code response = py_str response.
Proof.
  intros H. unfold extract_code. now rewrite (findall_no_fence O _ H).
Qed.

Lemma no_backtick_app (a b : pystr) :
  no_backtick (a ++ b) = no_backtick a && no_backtick b.
Proof. unfold no_backtick. apply forallb_app. Qed.

Lemma no_backtick_find_fence (s : pystr) :
  no_backtick s = true -> find_fence s = None.
Proof.
  induction s as [|c r IH]; [reflexivity|].
  cbn [no_backtick forallb]. intros H. apply andb_prop in H as [Hc Hr].
  rewrite find_fence_cons, (IH Hr).
  destruct c as [|p]; [reflexivity|].
  repeat (destruct p as [p|p|]; try reflexivity); discriminate.
Qed.

(** The first fence after a text without backticks is right behind it. *)
Lemma find_fence_after (a t : pystr) :
  no_backtick a = true -> find_fence (a ++ fence ++ t) = Some (length a).
Proof.
  induction a as [|c r IH]; [reflexivity|].
  cbn [no_backtick forallb]. intros H. apply andb_prop in H as [Hc Hr].
  change ((c :: r) ++ fence ++ t) with (c :: (r ++ fence ++ t)).
  rewrite find_fence_cons, (IH Hr). cbn [option_map length].
  destruct c as [|p]; [reflexivity|].
  repeat (destruct p as [p|p|]; try reflexivity); discriminate.
Qed.

Lemma match_block_no_backtick (c : N) (r : pystr) :
  (c =? 96)%N = false -> match_block (c :: r) = None.
Proof.
  intros H. destruct c as [|p]; [reflexivity|].
  repeat (destruct p as [p|p|]; try reflexivity); discriminate.
Qed.

(** The search passes over a text without backticks. *)
Lemma findall_prefix (a s : pystr) :
  no_backtick a = true -> findall_blocks O (a ++ s) = findall_blocks O s.
Proof.
  induction a as [|c r IH]; [reflexivity|].
  cbn [no_backtick forallb]. intros H. apply andb_prop in H as [Hc Hr].
  change ((c :: r) ++ s) with (c :: (r ++ s)). cbn [findall_blocks].
  rewrite match_block_no_backtick by (now apply negb_true_iff).
  now apply IH.
Qed.

Lemma findall_skip (k : nat) (a b : pystr) :
  length a = k -> findall_blocks k (a ++ b) = findall_blocks O b.
Proof.
  revert a. induction k as [|k IH]; intros a Ha.
  - destruct a; [reflexivity|discriminate].
  - destruct a as [|x a]; [discriminate|]. cbn [app findall_blocks].
    apply IH. simpl in Ha. lia.
Qed.

(** Where [\s*\n] ends in a text whose leading white space is followed
    by something else: at the candidate it had, or after a line feed
    inside the leading white space. *)
Lemma after_last_newline_spec (s : pystr) (pos : nat) (best : option nat) :
  after_last_newline pos best s = best \/
  exists j, after_last_newline pos best s = Some (pos + j)%nat /\
            (1 <= j <= length s)%nat /\
            forallb is_space (firstn j s) = true.
Proof.
  revert pos best. induction s as [|c r IH]; intros pos best; [now left|].
  cbn [after_last_newline]. destruct (is_space c) eqn:Hs; [|now left].
  destruct (IH (S pos) (if (c =? 10)%N then Some (S pos) else best))
    as [E|(j & E & Hj & Hw)].
  - rewrite E. destruct (c =? 10)%N; [|now left].
    right. exists 1%nat. split; [f_equal; lia|].
    split; [cbn [length]; lia|]. cbn [firstn forallb]. now rewrite Hs.
  - right. exists (S j). split; [rewrite E; f_equal; lia|].
    split; [cbn [length]; lia|]. cbn [firstn forallb]. now rewrite Hs, Hw.
Qed.

Lemma lstrip_skip_spaces (j : nat) (s : pystr) :
  forallb is_space (firstn j s) = true -> lstrip (skipn j s) = lstrip s.
Proof.
  revert s. induction j as [|j IH]; intros s H; [reflexivity|].
  destruct s as [|c r]; [reflexivity|].
  cbn [firstn forallb] in H. apply andb_prop in H as [Hc Hr].
  cbn [skipn lstrip]. rewrite Hc. now apply IH.
Qed.

Lemma strip_skip_spaces (j : nat) (s : pystr) :
  forallb is_space (firstn j s) = true -> strip (skipn j s) = strip s.
Proof. intros H. unfold strip. now rewrite (lstrip_skip_spaces j s H). Qed.

Lemma spaces_before_backtick (j : nat) (a t : pystr) :
  forallb is_space (firstn j (a ++ 96%N :: t)) = true -> (j <= length a)%nat.
Proof.
  revert a. induction j as [|j IH]; intros a H; [lia|].
  destruct a as [|c r].
  - cbn in H. discriminate.
  - cbn [app firstn forallb] in H. apply andb_prop in H as [_ H].
    cbn [length]. specialize (IH r H). lia.
Qed.

(** The body of a block that opens with a line feed and closes at the
    next fence: the group matched differs from the body by leading white
    space only. *)
Lemma match_body_block (body t : pystr) :
  no_backtick body = true ->
  exists g,
    match_body (10%N :: body ++ fence ++ t)
      = Some (g, (1 + length body + 3)%nat) /\
    strip g = strip body.
Proof.
  intros Hb. unfold match_body.
  destruct (after_last_newline_spec (10%N :: body ++ fence ++ t) O None)
    as [E|(j & E & Hj & Hw)].
  - exfalso. cbn [after_last_newline] in E.
    change (is_space 10) with true in E. cbn [N.eqb Pos.eqb] in E.
    destruct (after_last_newline_spec (body ++ fence ++ t) 1 (Some 1%nat))
      as [E'|(j & E' & _)]; rewrite E' in E; discriminate.
  - rewrite E. cbn [Nat.add].
    destruct j as [|j]; [lia|]. cbn [skipn firstn forallb] in *.
    apply andb_prop in Hw as [_ Hw].
    assert (Hjb : (j <= length body)%nat)
      by (apply (spaces_before_backtick j body ([96; 96]%N ++ t)); exact Hw).
    rewrite skipn_app.
    replace (j - length body)%nat with O by lia.
    change (skipn 0 (fence ++ t)) with (fence ++ t).
    assert (Hnb : no_backtick (skipn j body) = true).
    { rewrite <- (firstn_skipn j body), no_backtick_app in Hb.
      now apply andb_prop in Hb as [_ ?]. }
    rewrite (find_fence_after _ t Hnb).
    exists (skipn j body). split.
    + f_equal. f_equal.
      * rewrite firstn_app, Nat.sub_diag, firstn_all. cbn [firstn].
        now rewrite app_nil_r.
      * rewrite length_skipn. lia.
    + apply strip_skip_spaces.
      rewrite firstn_app in Hw.
      replace (j - length body)%nat with O in Hw by lia.
      cbn [firstn] in Hw. now rewrite app_nil_r in Hw.
Qed.

Lemma findall_at_block (c : N) (r g : pystr) (n : nat) :
  match_block (c :: r) = Some (g, n) ->
  findall_blocks O (c :: r) = g :: findall_blocks (n - 1) r.
Proof. intros H. cbn [findall_blocks]. now rewrite H. Qed.

Lemma strip_prefix_app (p r : pystr) : strip_prefix p (p ++ r) = Some r.
Proof.
  induction p as [|a p IH]; [now destruct r|].
  cbn [app strip_prefix]. now rewrite N.eqb_refl.
Qed.

Lemma match_block_tagged (r g : pystr) (n : nat) :
  match_body r = Some (g, n) ->
  match_block (fence ++ py "python" ++ r) = Some (g, (3 + 6 + n)%nat).
Proof.
  intros H.
  change (fence ++ py "python" ++ r)
    with (96%N :: 96%N :: 96%N :: (py "python" ++ r)).
  cbv beta iota delta [match_block].
  now rewrite strip_prefix_app, H.
Qed.

Lemma match_block_untagged (r g : pystr) (n : nat) :
  strip_prefix (py "python") r = None ->
  match_body r = Some (g, n) ->
  match_block (fence ++ r) = Some (g, (3 + n)%nat).
Proof.
  intros Hp H.
  change (fence ++ r) with (96%N :: 96%N :: 96%N :: r).
  cbv beta iota delta [match_block].
  now rewrite Hp, H.
Qed.

(** X15.  A response with one code block, tagged [python] or untagged,
    and no backtick elsewhere: the result is the body of the block,
    trimmed; the text around the block is dropped. *)
Theorem extract_code_single_block (pre body post : pystr) (tagged : bool) :
  no_backtick pre = true -> no_backtick body = true ->
  no_backtick post = true ->
  extract_code
    (PyStr (pre ++ fence ++ (if tagged then py "python" else [])
            ++ [10%N] ++ body ++ fence ++ post))
  = strip body.
Proof.
  intros Hpre Hbody Hpost. unfold extract_code. cbn [py_str].
  rewrite (findall_prefix _ _ Hpre).
  destruct (match_body_block body post Hbody) as (g & Hm & Hg).
  assert (Hpostf : findall_blocks O post = [])
    by (apply findall_no_fence, no_backtick_find_fence; assumption).
  assert (Hblocks : findall_blocks O
                      (fence ++ (if tagged then py "python" else [])
                       ++ [10%N] ++ body ++ fence ++ post) = [g]).
  { destruct tagged.
    - pose proof (match_block_tagged _ _ _ Hm) as Hb.
      transitivity
        (g :: findall_blocks (3 + 6 + (1 + length body + 3) - 1)
                ([96; 96]%N ++ py "python" ++ 10%N
                 :: body ++ fence ++ post));
        [exact (findall_at_block 96%N _ _ _ Hb)|].
      replace ([96; 96]%N ++ py "python" ++ 10%N :: body ++ fence ++ post)
        with (([96; 96]%N ++ py "python" ++ [10%N] ++ body ++ fence) ++ post)
        by (rewrite <- !app_assoc; reflexivity).
      rewrite findall_skip; [now rewrite Hpostf|].
      rewrite !length_app. cbn [length fence app].
      change (length (py "python")) with 6%nat. lia.
    - assert (Hp : strip_prefix (py "python")
                     (10%N :: body ++ fence ++ post) = None) by reflexivity.
      pose proof (match_block_untagged _ _ _ Hp Hm) as Hb.
      transitivity
        (g :: findall_blocks (3 + (1 + length body + 3) - 1)
                ([96; 96; 10]%N ++ body ++ fence ++ post));
        [exact (findall_at_block 96%N _ _ _ Hb)|].
      replace ([96; 96; 10]%N ++ body ++ fence ++ post)
        with (([96; 96; 10]%N ++ body ++ fence) ++ post)
        by (rewrite <- !app_assoc; reflexivity).
      rewrite findall_skip; [now rewrite Hpostf|].
      rewrite !length_app. cbn [length fence app]. lia. }
  rewrite Hblocks. cbn [truthy map join]. exact Hg.
Qed.

Lemma extract_code_without_fence_witness :
  find_fence (py_str PyNone) = None /\ extract_code PyNone = py "None".
Proof.
  split; [reflexivity|].
  apply (extract_code_without_fence PyNone). reflexivity.
Defined.

Lemma extract_code_single_block_witness :
  no_backtick (py "Here: ") = true /\ no_backtick (py " x = 1 ") = true /\
  no_backtick (py " done") = true /\
  extract_code fenced_response = py "x = 1".
Proof.
  split; [reflexivity|]. split; [reflexivity|]. split; [reflexivity|].
  apply (extract_code_single_block (py "Here: ") (py " x = 1 ") (py " done")
           true); reflexivity.
Defined.

(** ** Lock order *)

Lemma held_after_app (s : list Lock) (a b : list LockEvent) :
  held_after s (a ++ b) =
  match held_after s a with
  | Some s' => held_after s' b
  | None => None
  end.
Proof.
  revert s. induction a as [|[l|l] a IH]; intros s; [reflexivity| |].
  - cbn [app held_after]. destruct (may_acquire s l); [apply IH|reflexivity].
  - cbn [app held_after]. destruct s as [|l' rest]; [reflexivity|].
    destruct (bool_decide (l = l')); [apply IH|reflexivity].
Qed.

Lemma ordered_refl (w : World) : ordered w w.
Proof. exists []. now rewrite app_nil_r. Qed.

Lemma ordered_trans (w1 w2 w3 : World) :
  ordered w1 w2 -> ordered w2 w3 -> ordered w1 w3.
Proof.
  intros (a & Ea & Ha) (b & Eb & Hb). exists (a ++ b).
  rewrite Eb, Ea, <- app_assoc. split; [reflexivity|].
  now rewrite held_after_app, Ha.
Qed.

Lemma ordered_same (w w' : World) :
  lock_trace w' = lock_trace w -> ordered w w'.
Proof. intros H. exists []. now rewrite app_nil_r. Qed.

Lemma held_after_alone (l : Lock) :
  held_after [] [acquire l; release l] = Some [].
Proof. cbn. now rewrite bool_decide_eq_true_2. Qed.

Lemma held_after_nested (n : StreamName) (hid : nat) :
  held_after [] [acquire (router_lock n); acquire (handler_lock hid);
                 release (handler_lock hid); release (router_lock n)]
  = Some [].
Proof. cbn. now rewrite !bool_decide_eq_true_2. Qed.

Lemma ordered_locked_call (hid : nat) (m : HCtx -> HCtx) (w : World) :
  ordered w (locked_call hid m w).
Proof.
  destruct (handlers w !! hid) as [h|] eqn:Hh.
  - destruct (locked_call_fields hid m w h Hh) as (_ & _ & _ & _ & _ & _ & Ht).
    eexists. split; [exact Ht|apply held_after_alone].
  - rewrite locked_call_missing by assumption. apply ordered_refl.
Qed.

Lemma ordered_handler_process (hid : nat) (text : pystr) (w : World) :
  ordered w (handler_process hid text w).
Proof.
  destruct text as [|c r]; [apply ordered_refl|].
  rewrite handler_process_nonempty by discriminate. apply ordered_locked_call.
Qed.

Lemma ordered_write (n : StreamName) (tid : Z) (text : pystr) (w : World) :
  ordered w (snd (write n tid text w)).
Proof.
  rewrite write_unfold. cbn [snd].
  assert (Hfw : lock_trace (forwarded n text w) = lock_trace w)
    by (unfold forwarded; destruct n; reflexivity).
  set (w1 := if truthy text then _ else _).
  assert (H1 : ordered w w1).
  { subst w1. destruct (truthy text).
    - eexists. cbn [log lock_trace]. rewrite Hfw.
      split; [reflexivity|apply held_after_alone].
    - now apply ordered_same. }
  destruct (_ !! tid) as [hid|]; [|exact H1].
  eapply ordered_trans; [exact H1|apply ordered_handler_process].
Qed.

Lemma ordered_register (n : StreamName) (tid : Z) (hid : nat) (w : World) :
  ordered w (register n tid hid w).
Proof.
  eexists. split; [|apply (held_after_alone (router_lock n))].
  unfold register. destruct n; cbn [log lock_trace set_interceptor];
    now rewrite <- app_assoc.
Qed.

Lemma ordered_unregister (n : StreamName) (tid : Z) (w : World) :
  ordered w (unregister n tid w).
Proof.
  destruct (_handlers (interceptor n w) !! tid) as [hid|] eqn:Hr.
  - destruct (handlers w !! hid) as [h|] eqn:Hh.
    + eexists. split; [exact (unregister_trace n tid w hid h Hr Hh)|].
      apply held_after_nested.
    + eexists. split; [|apply (held_after_alone (router_lock n))].
      unfold unregister.
      assert (E : _handlers (interceptor n (log [acquire (router_lock n)] w))
                  !! tid = Some hid) by (destruct n; exact Hr).
      rewrite E. unfold handler_flush_remaining.
      rewrite locked_call_missing by (destruct n; exact Hh).
      destruct n; cbn [log lock_trace set_interceptor];
        now rewrite <- app_assoc.
  - eexists. split; [|apply (held_after_alone (router_lock n))].
    unfold unregister.
    assert (E : _handlers (interceptor n (log [acquire (router_lock n)] w))
                !! tid = None) by (destruct n; exact Hr).
    rewrite E.
    destruct n; cbn [log lock_trace set_interceptor];
      now rewrite <- app_assoc.
Qed.

Lemma ordered_run_api (c : ApiCall) (w : World) : ordered w (run_api c w).
Proof.
  destruct c as [c|n tid hid|n tid|hid [text|index|]]; cbn [run_api].
  - apply ordered_write.
  - apply ordered_register.
  - apply ordered_unregister.
  - apply ordered_handler_process.
  - apply ordered_locked_call.
  - apply ordered_locked_call.
Qed.

(** X16.  Whatever methods of the interceptors and of the handlers are
    called, by whatever threads and in whatever order, the locks are
    taken in one order: a lock is taken with no lock held, except that
    [unregister] takes the handler's lock inside the router's; no lock
    is taken while a handler's lock is held, every release is of the
    lock taken last, and after each call no lock is held. *)
Theorem api_calls_respect_lock_order (cs : list ApiCall) (w : World) :
  held_after [] (new_trace w (run_apis cs w)) = Some [].
Proof.
  assert (H : ordered w (run_apis cs w)).
  { revert w. induction cs as [|c cs IH]; intros w; [apply ordered_refl|].
    change (run_apis (c :: cs) w) with (run_apis cs (run_api c w)).
    eapply ordered_trans; [apply ordered_run_api|apply IH]. }
  destruct H as (t & Et & Ht). now rewrite (new_trace_app _ _ _ Et).
Qed.

(** ** Lock order of the worker *)

Section Preserved.
Context {S : Type} (R : S -> S -> Prop).
Hypothesis R_refl : forall s, R s s.
Hypothesis R_trans : forall a b c, R a b -> R b c -> R a c.

Lemma preserved_ret {A} (a : A) : preserved R (ret a).
Proof. intros s. apply R_refl. Qed.

Lemma preserved_raise {A} (e : pystr) : preserved R (@raise S A e).
Proof. intros s. apply R_refl. Qed.

Lemma preserved_modify (f : S -> S) :
  (forall s, R s (f s)) -> preserved R (modify f).
Proof. intros H s. apply H. Qed.

Lemma preserved_bind {A B} (m : M S A) (k : A -> M S B) :
  preserved R m -> (forall a, preserved R (k a)) -> preserved R (bind m k).
Proof.
  intros Hm Hk s. unfold bind. specialize (Hm s).
  destruct (m s) as [[a|e] s']; cbn [snd] in *; [|assumption].
  eapply R_trans; [exact Hm|apply Hk].
Qed.

Lemma preserved_or_raise {A} (e : pystr) (o : option A) :
  preserved R (or_raise e o).
Proof. destruct o; [apply preserved_ret|apply preserved_raise]. Qed.

Lemma preserved_raise_if (o : option pystr) : preserved R (raise_if o).
Proof. destruct o; [apply preserved_raise|apply preserved_ret]. Qed.
End Preserved.

Lemma ordered_put (q : nat) (e : Event) (w : World) :
  ordered w (queue_put q e w).
Proof. now apply ordered_same. Qed.

Lemma ordered_put_all (q : nat) (es : list Event) (w : World) :
  ordered w (queue_put_all q es w).
Proof. apply ordered_same. apply queue_put_all_fields. Qed.

Lemma ordered_on_task_done (out : TaskOutput) (cb : TaskCallback)
    (w : World) :
  ordered w (snd (_on_task_done out (cb, w))).
Proof.
  destruct (on_task_done_shape out cb w) as [->|(es1 & es2 & n & -> & _)];
    [apply ordered_refl|].
  eapply ordered_trans; [apply ordered_put_all|].
  eapply ordered_trans; [apply ordered_locked_call|apply ordered_put_all].
Qed.

Lemma ordered_kickoff (tid : Z) (acts : list CrewAction)
    (cb : TaskCallback) (w : World) :
  ordered w (snd (kickoff tid acts (cb, w))).
Proof.
  revert cb w. induction acts as [|a acts IH]; intros cb w;
    [apply ordered_refl|].
  change (kickoff tid (a :: acts) (cb, w))
    with (kickoff tid acts (crew_step tid a (cb, w))).
  assert (H1 : ordered w (snd (crew_step tid a (cb, w)))).
  { destruct a as [n text|out]; cbn [crew_step fst snd].
    - apply ordered_write.
    - apply ordered_on_task_done. }
  destruct (crew_step tid a (cb, w)) as [cb1 w1]. cbn [snd] in H1.
  eapply ordered_trans; [exact H1|apply IH].
Qed.

Lemma preserved_time :
  preserved ordered
    (fun w => let '(t, c) := time_time (clock w) in
              (Returned t, set_clock c w)).
Proof. intros w. now apply ordered_same. Qed.

Ltac ordered_steps :=
  repeat first
    [ apply preserved_time
    | apply (preserved_bind ordered ordered_trans); [|intros ?]
    | apply (preserved_raise_if ordered ordered_refl)
    | apply (preserved_or_raise ordered ordered_refl)
    | apply (preserved_ret ordered ordered_refl)
    | apply preserved_modify; intros ? ].

Lemma ordered_save_artifacts (env : Env) (tid : Z) (i : nat)
    (phases : list Phase) :
  preserved ordered (save_artifacts env tid i phases).
Proof.
  revert i. induction phases as [|p ps IH]; intros i;
    cbn [save_artifacts]; [apply (preserved_ret ordered ordered_refl)|].
  ordered_steps; try apply ordered_write. apply IH.
Qed.

Lemma ordered_print_exc (tid : Z) (pieces : list pystr) :
  preserved ordered (print_exc tid pieces).
Proof.
  induction pieces as [|t rest IH]; cbn [print_exc];
    [apply (preserved_ret ordered ordered_refl)|].
  apply (preserved_bind ordered ordered_trans); [|intros _; exact IH].
  intros w.
  destruct (_original (_stderr_interceptor w)) as [c|];
    [|apply ordered_write].
  destruct (console_write t c); cbn [snd];
    [now apply ordered_same|apply ordered_refl].
Qed.

Lemma ordered_pipeline_body (env : Env) (run_id req : pystr) (q : nat)
    (tid : Z) (hid : nat) :
  preserved ordered (pipeline_body env run_id req q tid hid).
Proof.
  unfold pipeline_body.
  repeat (apply (preserved_bind ordered ordered_trans); [|intros ?]).
  all: try apply preserved_time.
  all: try apply (preserved_raise_if ordered ordered_refl).
  all: try apply (preserved_or_raise ordered ordered_refl).
  all: try apply ordered_save_artifacts.
  all: try (apply preserved_modify; intros ?).
  all: first [ apply ordered_register | apply ordered_unregister
             | apply ordered_put | apply ordered_kickoff ].
Qed.

Lemma ordered_runs_pop (run_id : pystr) (w : World) :
  ordered w (runs_pop run_id w).
Proof.
  eexists. split; [|apply (held_after_alone runs_lock)].
  unfold runs_pop. cbn [log lock_trace set_active_runs].
  now rewrite <- app_assoc.
Qed.

Lemma ordered_stream (run_id : pystr) (w : World) :
  ordered w (snd (stream run_id w)).
Proof.
  exists [acquire runs_lock; release runs_lock].
  split; [|apply held_after_alone].
  unfold stream. cbn [log active_runs].
  destruct (active_runs w !! run_id); cbn [snd log lock_trace];
    now rewrite <- app_assoc.
Qed.

Lemma ordered_start_pipeline (uuid4 : pystr) (field : option pystr)
    (w : World) :
  ordered w (snd (start_pipeline uuid4 field w)).
Proof.
  unfold start_pipeline.
  destruct (truthy (strip (default [] field))); cbn [negb snd];
    [|apply ordered_refl].
  exists [acquire runs_lock; release runs_lock].
  split; [|apply held_after_alone].
  cbn [log lock_trace set_active_runs set_queues]. now rewrite <- app_assoc.
Qed.

Lemma ordered_worker (env : Env) (run_id req : pystr) (q : nat) (tid : Z)
    (w : World) :
  ordered w (snd (run_pipeline_streaming env run_id req q tid w)).
Proof.
  unfold run_pipeline_streaming, new_handler, time_time. cbn [fst snd].
  set (x := set_handlers _ (set_clock _ w)).
  assert (Hx : ordered w x) by (now apply ordered_same).
  pose proof (ordered_pipeline_body env run_id req q tid
                (fresh (dom (handlers w))) x) as Hb.
  destruct (pipeline_body env run_id req q tid _ x) as [[u|exc] x1];
    cbn [snd] in Hb.
  - cbn [snd run_steps finally_steps fold_left].
    eapply ordered_trans; [exact Hx|].
    eapply ordered_trans; [exact Hb|].
    eapply ordered_trans; [apply ordered_unregister|].
    eapply ordered_trans; [apply ordered_unregister|].
    eapply ordered_trans; [apply ordered_put|apply ordered_runs_pop].
  - assert (He : ordered x1 (snd (except_block env q tid exc x1))).
    { unfold except_block.
      apply (preserved_bind ordered ordered_trans);
        [apply ordered_print_exc|intros _].
      apply preserved_modify. intros ?. apply ordered_put. }
    destruct (except_block env q tid exc x1) as [r x2]. cbn [snd] in *.
    cbn [run_steps finally_steps fold_left].
    eapply ordered_trans; [exact Hx|].
    eapply ordered_trans; [exact Hb|].
    eapply ordered_trans; [exact He|].
    eapply ordered_trans; [apply ordered_unregister|].
    eapply ordered_trans; [apply ordered_unregister|].
    eapply ordered_trans; [apply ordered_put|apply ordered_runs_pop].
Qed.

(** X17.  The three entry points of the server take the locks in that
    same order and return with no lock held.  For a whole run of the
    pipeline worker this holds whatever the crew prints, whatever its
    stages return and wherever it fails: the registry lock and the
    routers' locks are taken with no lock held, a handler's lock with no
    lock held or inside a router's lock, and nothing is taken while a
    handler's lock or the registry lock is held. *)
Theorem worker_respects_lock_order (env : Env) (run_id req : pystr)
    (q : nat) (tid : Z) (field : option pystr) (w : World) :
  held_after []
    (new_trace w (snd (run_pipeline_streaming env run_id req q tid w)))
  = Some [] /\
  held_after [] (new_trace w (snd (start_pipeline run_id field w)))
  = Some [] /\
  held_after [] (new_trace w (snd (stream run_id w))) = Some [].
Proof.
  assert (H : forall w', ordered w w' ->
                         held_after [] (new_trace w w') = Some []).
  { intros w' (t & Et & Ht). now rewrite (new_trace_app _ _ _ Et). }
  split; [apply H, ordered_worker|].
  split; [apply H, ordered_start_pipeline|apply H, ordered_stream].
Qed.
